(** * Visual control system: the detection engine, specified and verified

    A shallow embedding of the two [DetectionEngine] classes of the
    repository (the drawing-mode engine v2.0 and the legacy engine v1.0)
    and of the image helpers they share.

    - JavaScript numbers of the drift comparator and of the statistics are
      IEEE 754 binary64 values: Rocq's primitive floats, with [Math.min],
      [Math.max], [Math.floor] and [Math.round] written out after
      ECMA-262.
    - Pixel coordinates, array indices and lengths are integers ([Z]);
      typed arrays are lists read and written by index.
    - Host functions whose result ECMA-262 leaves to the implementation
      ([Math.pow], the decimal rendering of a number) are the fields of a
      [Host] class, [Math.exp] is a parameter of the blur; [Math.random]
      and [Date.now] read tapes kept in the state.
    - Exceptions and the mutable engine object are threaded by a small
      state-and-exception monad.
    - The ROI extractor scales, floors and clamps a rectangle in
      binary64 and hands the result to a canvas, whose size attributes
      convert it to an integer.
    - The bounding box of a contour compares and subtracts pixel
      coordinates and is computed in [Z]; the shoelace area is
      accumulated in binary64 as the code accumulates it, and is compared
      with the integer sum where no step rounds.
    - The geometry helpers of the [Utils] class are binary64 again. *)

From Stdlib Require Import ZArith Floats Lia Bool.
From stdpp Require Import base option list strings pretty.

Set Default Proof Using "Type".
Set Warnings "-inexact-float".
Local Open Scope Z_scope.

(* ================================================================== *)
(** ** JavaScript numbers *)
(* ================================================================== *)

Module JS.

(** The binary64 value of an integer (exact below 2^53). *)
Definition Z2float (n : Z) : float :=
  SF2Prim (binary_normalize prec emax n 0 false).

Definition is_neg_zero (x : float) : bool :=
  match classify x with NZero => true | _ => false end.

Definition Math_abs (x : float) : float := abs x.
Definition Math_sqrt (x : float) : float := sqrt x.

(** [Math.min(a, b)]: NaN if either is NaN, and -0 is below +0. *)
Definition Math_min (a b : float) : float :=
  if is_nan a || is_nan b then nan
  else if (a <? b)%float then a
  else if (b <? a)%float then b
  else if is_neg_zero a then a else b.

(** [Math.max(a, b)]: NaN if either is NaN, and +0 is above -0. *)
Definition Math_max (a b : float) : float :=
  if is_nan a || is_nan b then nan
  else if (a <? b)%float then b
  else if (b <? a)%float then a
  else if is_neg_zero a then b else a.

(** An integer result carried back to a float; a zero result keeps the
    sign of the argument. *)
Definition signed_integer (negative : bool) (n : Z) : float :=
  if n =? 0 then (if negative then neg_zero else zero) else Z2float n.

(** [Math.floor(x)]. *)
Definition Math_floor (x : float) : float :=
  match Prim2SF x with
  | S754_finite s m e =>
      if 0 <=? e then x
      else signed_integer s (Z.shiftr (cond_Zopp s (Zpos m)) (- e))
  | _ => x
  end.

(** [Math.round(x)]: the nearest integer, ties towards +Infinity. *)
Definition Math_round (x : float) : float :=
  match Prim2SF x with
  | S754_finite s m e =>
      if 0 <=? e then x
      else signed_integer s
             (Z.shiftr (2 * cond_Zopp s (Zpos m) + 2 ^ (- e)) (1 - e))
  | _ => x
  end.

(** [x || d] on numbers: 0, -0 and NaN are falsy. *)
Definition or_default (x d : float) : float :=
  if is_nan x || is_zero x then d else x.

(** What ECMA-262 leaves to the implementation. *)
Class Host := {
  Math_pow : float -> float -> float;
  Number_toString : float -> string
}.

(** Exceptions. *)
Inductive Error :=
| TypeError | RangeError | IndexSizeError | InvalidStateError.

Inductive outcome (A : Type) :=
| Normal (a : A)
| Throw (e : Error).
Arguments Normal {A} a.
Arguments Throw {A} e.

End JS.
Export JS.


(* ================================================================== *)
(** ** The drawing-mode engine (DetectionEngine v2.0) *)
(* ================================================================== *)

Module EngineV2.

Record Rectangle := {
  x : float; y : float; width : float; height : float
}.

Record Point := { pt_x : float; pt_y : float }.

(** What [analyzeContours] returns. *)
Record BoxFeatures := {
  hasBox : bool;
  rotation : float;
  position : Point;
  boundingBox : option Rectangle;
  area : float;
  bf_confidence : float
}.

(** The argument of [compareWithReference]: the result of [analyzeROI],
    or in legacy mode a detected box, which has no [features]. *)
Record Analysis := {
  contours : Z;
  features : option BoxFeatures
}.

(** A detected box of the legacy path handed to [compareWithReference]:
    the object has no [features] property. *)
Definition box_as_analysis : Analysis :=
  {| contours := 0; features := None |}.

Record ReferenceFeatures := {
  centerX : float; centerY : float;
  rf_rotation : float;
  rf_area : float
}.

Record Settings := {
  rotationSensitivity : float;
  positionSensitivity : float;
  detectionThreshold : float;
  minContourArea : float;
  maxContourArea : float
}.

(** The argument of [updateSettings]: an object that may name any of the
    settings. *)
Record PartialSettings := {
  new_rotationSensitivity : option float;
  new_positionSensitivity : option float;
  new_detectionThreshold : option float;
  new_minContourArea : option float;
  new_maxContourArea : option float
}.

Record Details := {
  positionOffset : float;
  rotationOffset : float;
  positionOk : bool;
  rotationOk : bool
}.

Record DetectionResult := {
  hasAlert : bool;
  message : string;
  box : option Rectangle;
  confidence : float;
  details : option Details
}.

(** A history entry: [{...result, timestamp: Date.now()}]. *)
Record HistoryEntry := {
  entry : DetectionResult;
  timestamp : float
}.

Record Statistics := {
  total : float;
  alerts : float;
  alertRate : float;
  averageConfidence : float
}.

Record Engine := {
  referenceFeatures : option ReferenceFeatures;
  boxRect : option Rectangle;
  keyPointRect : option Rectangle;
  settings : Settings;
  isInitialized : bool;
  lastDetection : option DetectionResult;
  detectionHistory : list HistoryEntry
}.

(** The engine object together with the tapes [Math.random] and
    [Date.now] read from. *)
Record World := {
  this : Engine;
  random_tape : nat -> float;
  random_drawn : nat;
  clock_tape : nat -> float;
  clock_read : nat
}.

Definition M (A : Type) : Type := World -> outcome A * World.

Definition ret {A} (a : A) : M A := fun w => (Normal a, w).
Definition bind {A B} (m : M A) (f : A -> M B) : M B :=
  fun w => match m w with
           | (Normal a, w') => f a w'
           | (Throw e, w') => (Throw e, w')
           end.
Definition throw {A} (e : Error) : M A := fun w => (Throw e, w).
Definition try_catch {A} (m : M A) (handler : Error -> M A) : M A :=
  fun w => match m w with
           | (Normal a, w') => (Normal a, w')
           | (Throw e, w') => handler e w'
           end.
Definition get_this : M Engine := fun w => (Normal (this w), w).
Definition set_this (f : Engine -> Engine) : M unit :=
  fun w => (Normal tt,
            {| this := f (this w);
               random_tape := random_tape w; random_drawn := random_drawn w;
               clock_tape := clock_tape w; clock_read := clock_read w |}).
Definition Math_random : M float :=
  fun w => (Normal (random_tape w (random_drawn w)),
            {| this := this w;
               random_tape := random_tape w;
               random_drawn := S (random_drawn w);
               clock_tape := clock_tape w; clock_read := clock_read w |}).
Definition Date_now : M float :=
  fun w => (Normal (clock_tape w (clock_read w)),
            {| this := this w;
               random_tape := random_tape w; random_drawn := random_drawn w;
               clock_tape := clock_tape w;
               clock_read := S (clock_read w) |}).

Declare Scope js_scope.
Delimit Scope js_scope with js.
Notation "x <- m ;; k" := (bind m (fun x => k))
  (at level 100, m at next level, right associativity) : js_scope.
Notation "m ;;; k" := (bind m (fun _ => k))
  (at level 100, right associativity) : js_scope.
Local Open Scope js_scope.
Local Open Scope float_scope.

Definition set_detectionHistory (h : list HistoryEntry) (e : Engine) :=
  {| referenceFeatures := referenceFeatures e; boxRect := boxRect e;
     keyPointRect := keyPointRect e; settings := settings e;
     isInitialized := isInitialized e; lastDetection := lastDetection e;
     detectionHistory := h |}.

Definition set_lastDetection (r : option DetectionResult) (e : Engine) :=
  {| referenceFeatures := referenceFeatures e; boxRect := boxRect e;
     keyPointRect := keyPointRect e; settings := settings e;
     isInitialized := isInitialized e; lastDetection := r;
     detectionHistory := detectionHistory e |}.

Definition set_settings (s : Settings) (e : Engine) :=
  {| referenceFeatures := referenceFeatures e; boxRect := boxRect e;
     keyPointRect := keyPointRect e; settings := s;
     isInitialized := isInitialized e; lastDetection := lastDetection e;
     detectionHistory := detectionHistory e |}.

(** [{ ...this.settings, ...newSettings }] *)
Definition merge_settings (s : Settings) (n : PartialSettings) : Settings :=
  {| rotationSensitivity :=
       default (rotationSensitivity s) (new_rotationSensitivity n);
     positionSensitivity :=
       default (positionSensitivity s) (new_positionSensitivity n);
     detectionThreshold :=
       default (detectionThreshold s) (new_detectionThreshold n);
     minContourArea := default (minContourArea s) (new_minContourArea n);
     maxContourArea := default (maxContourArea s) (new_maxContourArea n) |}.

Definition updateSettings (newSettings : PartialSettings) : M unit :=
  set_this (fun e => set_settings (merge_settings (settings e) newSettings) e).

(** The constructor's settings. *)
Definition default_settings : Settings :=
  {| rotationSensitivity := 5; positionSensitivity := 20;
     detectionThreshold := 50;
     minContourArea := 1000; maxContourArea := 500000 |}.

Definition new_engine : Engine :=
  {| referenceFeatures := None; boxRect := None; keyPointRect := None;
     settings := default_settings; isInitialized := false;
     lastDetection := None; detectionHistory := [] |}.

Section Comparator.
Context `{Host}.

Definition msg_no_reference_data : string := "ไม่มีข้อมูลอ้างอิง".
Definition msg_in_position : string := "กล่องอยู่ในตำแหน่งที่ถูกต้อง".
Definition msg_box_not_found : string := "ไม่พบกล่องในตำแหน่งที่กำหนด".
Definition msg_position (offset : float) : string :=
  "ตำแหน่งเลื่อน " +:+ Number_toString offset +:+ "px".
Definition msg_rotation (offset : float) : string :=
  "เอียง " +:+ Number_toString offset +:+ "°".

(** [issues.join(', ')] *)
Fixpoint join (sep : string) (l : list string) : string :=
  match l with
  | [] => ""
  | [s] => s
  | s :: rest => s +:+ sep +:+ join sep rest
  end.

(** The distance of the observed centre from the centre of the key
    point area. *)
Definition position_offset (kp : Rectangle) (f : BoxFeatures) : float :=
  let expectedCenterX := width kp / 2 in
  let expectedCenterY := height kp / 2 in
  let currentCenterX := pt_x (position f) in
  let currentCenterY := pt_y (position f) in
  Math_sqrt (Math_pow (currentCenterX - expectedCenterX) 2
             + Math_pow (currentCenterY - expectedCenterY) 2).

(** The rotation difference, normalised for wrap-around. *)
Definition normalized_rotation (ref : ReferenceFeatures) (f : BoxFeatures)
  : float :=
  let expectedRotation := or_default (rf_rotation ref) 0 in
  let currentRotation := rotation f in
  let rotationDiff := Math_abs (currentRotation - expectedRotation) in
  Math_min rotationDiff (360 - rotationDiff).

(** The result object as [compareWithReference] first builds it. *)
Definition initial_result (e : Engine) : DetectionResult :=
  {| hasAlert := false; message := msg_in_position;
     box := keyPointRect e; confidence := 100;
     details := Some {| positionOffset := 0; rotationOffset := 0;
                        positionOk := true; rotationOk := true |} |}.

(** The branch taken when no box features were detected: an alert is
    simulated with a 5% chance. *)
Definition simulated_detection (e : Engine) : M DetectionResult :=
  r <- Math_random ;;
  let shouldAlert := r <? 0.05 in
  if shouldAlert then
    r' <- Math_random ;;
    ret {| hasAlert := true; message := msg_box_not_found;
           box := keyPointRect e; confidence := 30;
           details := Some {| positionOffset := Math_floor (r' * 50 + 20);
                              rotationOffset := 0;
                              positionOk := false;
                              rotationOk := true |} |}
  else ret (initial_result e).

Definition compareWithReference (analysis : Analysis) : M DetectionResult :=
  e <- get_this ;;
  match referenceFeatures e with
  | None =>
      ret {| hasAlert := false; message := msg_no_reference_data;
             box := keyPointRect e; confidence := 0;
             details := Some {| positionOffset := 0; rotationOffset := 0;
                                positionOk := true; rotationOk := true |} |}
  | Some ref =>
      match features analysis with
      | None => simulated_detection e
      | Some f =>
          if negb (hasBox f) then simulated_detection e
          else
            match keyPointRect e with
            | None => throw TypeError
            | Some kp =>
                let positionOffset := position_offset kp f in
                let normalizedRotation := normalized_rotation ref f in
                let positionOk :=
                  positionOffset <=? positionSensitivity (settings e) in
                let rotationOk :=
                  normalizedRotation <=? rotationSensitivity (settings e) in
                let d := {| positionOffset := Math_round positionOffset;
                            rotationOffset := Math_round normalizedRotation;
                            positionOk := positionOk;
                            rotationOk := rotationOk |} in
                if negb positionOk || negb rotationOk then
                  let issues :=
                    (if negb positionOk
                     then [msg_position (Math_round positionOffset)]
                     else [])
                    ++ (if negb rotationOk
                        then [msg_rotation (Math_round normalizedRotation)]
                        else []) in
                  ret {| hasAlert := true;
                         message := join ", " issues;
                         box := keyPointRect e;
                         confidence :=
                           Math_max 0 (100 - positionOffset / 5
                                       - normalizedRotation * 2);
                         details := Some d |}
                else
                  ret {| hasAlert := false; message := msg_in_position;
                         box := keyPointRect e; confidence := 100;
                         details := Some d |}
            end
      end
  end.
End Comparator.

(** [this.detectionHistory.push({...result, timestamp: Date.now()})],
    then [shift()] once the length has passed 100. *)
Definition addToHistory (result : DetectionResult) : M unit :=
  now <- Date_now ;;
  set_this (fun e =>
    set_detectionHistory
      (detectionHistory e ++ [{| entry := result; timestamp := now |}]) e) ;;;
  e <- get_this ;;
  if (100 <? length (detectionHistory e))%nat
  then set_this (fun e => set_detectionHistory (tail (detectionHistory e)) e)
  else ret tt.

Definition getStatistics : M Statistics :=
  e <- get_this ;;
  let h := detectionHistory e in
  if (length h =? 0)%nat then
    ret {| total := 0; alerts := 0; alertRate := 0;
           averageConfidence := 100 |}
  else
    let alerts :=
      Z2float (Z.of_nat
                 (length (List.filter (fun d => hasAlert (entry d)) h))) in
    let totalConfidence :=
      foldl (fun sum d => sum + confidence (entry d)) 0 h in
    let len := Z2float (Z.of_nat (length h)) in
    ret {| total := len; alerts := alerts;
           alertRate := (alerts / len) * 100;
           averageConfidence := totalConfidence / len |}.

Definition msg_no_reference_image : string := "ไม่มีภาพอ้างอิง".
Definition msg_analysis_error : string := "เกิดข้อผิดพลาดในการวิเคราะห์".
Definition msg_cannot_extract : string := "ไม่สามารถแยกพื้นที่ตรวจจับได้".
Definition msg_no_box : string := "ไม่พบกล่อง".

(** What the [catch] of [analyzeFrame] returns. *)
Definition analysis_error_result : DetectionResult :=
  {| hasAlert := true; message := msg_analysis_error;
     box := None; confidence := 0; details := None |}.

Section Pipeline.
Context `{Host}.

(** The image stages run host code (canvas, typed arrays) inside a [try]
    block of their own. The block is any computation, one that throws
    included; the handler is the stage's. [findBestMatch] has no
    handler. *)
Variables FrameData ROIData Box : Type.
Variable extractROI_try : FrameData -> option Rectangle -> M (option ROIData).
Variable analyzeROI_try : ROIData -> M Analysis.
Variable detectBoxes_try : FrameData -> M (list Box).
Variable findBestMatch : list Box -> M Box.

(** [extractROI]: [null] when anything inside throws. *)
Definition extractROI (frameData : FrameData) (rect : option Rectangle)
  : M (option ROIData) :=
try_catch (extractROI_try frameData rect) (fun _error => ret None).

(** [analyzeROI]: an analysis without features when anything inside
    throws. *)
Definition analyzeROI (roiData : ROIData) : M Analysis :=
try_catch (analyzeROI_try roiData)
  (fun _error =>
     _timestamp <- Date_now ;;
     ret {| contours := 0; features := None |}).

(** [detectBoxes]: no boxes when anything inside throws. *)
Definition detectBoxes (frameData : FrameData) : M (list Box) :=
try_catch (detectBoxes_try frameData) (fun _error => ret []).

Definition analyzeWithDrawingAreas (frameData : FrameData)
  : M DetectionResult :=
  e <- get_this ;;
  roiData <- extractROI frameData (keyPointRect e) ;;
  match roiData with
  | None =>
      e <- get_this ;;
      ret {| hasAlert := false; message := msg_cannot_extract;
             box := keyPointRect e; confidence := 0;
             details := None |}
  | Some roi =>
      analysis <- analyzeROI roi ;;
      comparison <- compareWithReference analysis ;;
      addToHistory comparison ;;;
      set_this (set_lastDetection (Some comparison)) ;;;
      ret comparison
  end.

Definition analyzeLegacyMode (frameData : FrameData) : M DetectionResult :=
  detectedBoxes <- detectBoxes frameData ;;
  if (length detectedBoxes =? 0)%nat then
    ret {| hasAlert := false; message := msg_no_box;
           box := None; confidence := 0; details := None |}
  else
    _bestMatch <- findBestMatch detectedBoxes ;;
    comparison <- compareWithReference box_as_analysis ;;
    addToHistory comparison ;;;
    set_this (set_lastDetection (Some comparison)) ;;;
    ret comparison.

(** The [try] block of [analyzeFrame]. *)
Definition analyzeFrame_try (frameData : FrameData)
    (settings : PartialSettings) : M DetectionResult :=
  updateSettings settings ;;;
  e <- get_this ;;
  match keyPointRect e with
  | Some _ => analyzeWithDrawingAreas frameData
  | None => analyzeLegacyMode frameData
  end.

Definition analyzeFrame (frameData : option FrameData)
    (settings : PartialSettings) : M DetectionResult :=
  e <- get_this ;;
  match frameData with
  | Some fd =>
      if negb (isInitialized e) then
        ret {| hasAlert := false; message := msg_no_reference_image;
               box := None; confidence := 0; details := None |}
      else
        try_catch (analyzeFrame_try fd settings)
                  (fun _error => ret analysis_error_result)
  | None =>
      ret {| hasAlert := false; message := msg_no_reference_image;
             box := None; confidence := 0; details := None |}
  end.
End Pipeline.

End EngineV2.

(* ================================================================== *)
(** ** The legacy engine (DetectionEngine v1.0) *)
(* ================================================================== *)

Module EngineV1.
Local Open Scope float_scope.

(** A detected box, as [contoursToBoxes] builds it. *)
Record Box := {
  x : float; y : float; width : float; height : float;
  centerX : float; centerY : float;
  rotation : float;
  area : float;
  contour : list (Z * Z)
}.

Record ReferenceFeatures := {
  rf_width : float; rf_height : float;
  rf_centerX : float; rf_centerY : float;
  rf_rotation : float;
  rf_area : float
}.

Record Settings := {
  rotationSensitivity : float;
  positionSensitivity : float;
  detectionThreshold : float;
  minContourArea : float;
  maxContourArea : float
}.

Record Details := {
  positionOffset : float;
  rotationOffset : float;
  positionOk : bool;
  rotationOk : bool
}.

Record DetectionResult := {
  hasAlert : bool;
  message : string;
  box : Box;
  confidence : float;
  details : option Details
}.

Record HistoryEntry := {
  entry : DetectionResult;
  timestamp : float
}.

Record Statistics := {
  total : float;
  alerts : float;
  alertRate : float;
  averageConfidence : float
}.

Record Engine := {
  referenceFeatures : option ReferenceFeatures;
  settings : Settings;
  isInitialized : bool;
  lastDetection : option DetectionResult;
  detectionHistory : list HistoryEntry
}.

Section Comparator.
Context `{Host}.

Definition position_offset (ref : ReferenceFeatures) (b : Box) : float :=
  let expectedCenterX := rf_centerX ref in
  let expectedCenterY := rf_centerY ref in
  Math_sqrt (Math_pow (centerX b - expectedCenterX) 2
             + Math_pow (centerY b - expectedCenterY) 2).

Definition normalized_rotation (ref : ReferenceFeatures) (b : Box)
  : float :=
  let rotationDiff := Math_abs (rotation b - rf_rotation ref) in
  Math_min rotationDiff (360 - rotationDiff).

Definition compareWithReference (e : Engine) (b : Box) : DetectionResult :=
  match referenceFeatures e with
  | None =>
      {| hasAlert := false; message := EngineV2.msg_no_reference_data;
         box := b; confidence := 0; details := None |}
  | Some ref =>
      let positionOffset := position_offset ref b in
      let normalizedRotation := normalized_rotation ref b in
      let positionOk :=
        positionOffset <=? positionSensitivity (settings e) in
      let rotationOk :=
        normalizedRotation <=? rotationSensitivity (settings e) in
      let d := {| positionOffset := Math_round positionOffset;
                  rotationOffset := Math_round normalizedRotation;
                  positionOk := positionOk;
                  rotationOk := rotationOk |} in
      if negb positionOk || negb rotationOk then
        let issues :=
          (if negb positionOk
           then [EngineV2.msg_position (Math_round positionOffset)]
           else [])
          ++ (if negb rotationOk
              then [EngineV2.msg_rotation (Math_round normalizedRotation)]
              else []) in
        {| hasAlert := true;
           message := EngineV2.join ", " issues;
           box := b;
           confidence :=
             Math_max 0 (100 - positionOffset / 5 - normalizedRotation * 2);
           details := Some d |}
      else
        {| hasAlert := false; message := EngineV2.msg_in_position;
           box := b; confidence := 100; details := Some d |}
  end.
End Comparator.

(** [addToHistory(result)]; [now] is what [Date.now()] returns. *)
Definition addToHistory (e : Engine) (now : float) (result : DetectionResult)
  : Engine :=
  let pushed := detectionHistory e ++ [{| entry := result; timestamp := now |}] in
  let kept := if (100 <? length pushed)%nat then tail pushed else pushed in
  {| referenceFeatures := referenceFeatures e; settings := settings e;
     isInitialized := isInitialized e; lastDetection := lastDetection e;
     detectionHistory := kept |}.

Definition getStatistics (e : Engine) : Statistics :=
  let h := detectionHistory e in
  if (length h =? 0)%nat then
    {| total := 0; alerts := 0; alertRate := 0; averageConfidence := 100 |}
  else
    let alerts :=
      Z2float (Z.of_nat
                 (length (List.filter (fun d => hasAlert (entry d)) h))) in
    let totalConfidence :=
      foldl (fun sum d => sum + confidence (entry d)) 0 h in
    let len := Z2float (Z.of_nat (length h)) in
    {| total := len; alerts := alerts;
       alertRate := (alerts / len) * 100;
       averageConfidence := totalConfidence / len |}.

End EngineV1.

(* ================================================================== *)
(** ** Images and contours *)
(* ================================================================== *)

Module Image.

(** An [ImageData]: RGBA bytes, four per pixel, row by row. *)
Record ImageData := {
  width : Z;
  height : Z;
  data : list Z
}.

(** [a[i]] on an array: [undefined] outside of it. *)
Definition at_index {A} (a : list A) (i : Z) : option A :=
if i <? 0 then None else a !! Z.to_nat i.

(** [a[i] = v] on a typed array or on an array written inside its length:
    nothing happens outside. *)
Definition set_index {A} (a : list A) (i : Z) (v : A) : list A :=
if i <? 0 then a else <[Z.to_nat i := v]> a.

(** [data[idx * 4] > 128]: a strong edge; [undefined > 128] is false. *)
Definition strong_edge (data : list Z) (idx : Z) : bool :=
match at_index data (idx * 4) with
| Some v => 128 <? v
| None => false
end.

(** [visited[idx]] as a condition. *)
Definition is_visited (visited : list bool) (idx : Z) : bool :=
default false (at_index visited idx).

Definition directions : list (Z * Z) :=
[(-1, -1); (-1, 0); (-1, 1); (0, -1); (0, 1); (1, -1); (1, 0); (1, 1)].

(** The stack after the eight neighbours of [(x, y)] were pushed in the
    order of [directions]; the head of the list is the top. *)
Definition push_neighbours (x y : Z) (stack : list (Z * Z)) : list (Z * Z) :=
rev (map (fun d => (x + d.1, y + d.2)) directions) ++ stack.

(** The [while] loop of [traceContour]; [None] when [fuel] iterations did
    not reach its end. *)
Fixpoint traceContour_loop (fuel : nat) (data : list Z) (width height : Z)
    (stack contour : list (Z * Z)) (visited : list bool)
  : option (list (Z * Z) * list bool) :=
match stack with
| [] => Some (contour, visited)
| (x, y) :: rest =>
    if (1000 <=? length contour)%nat then Some (contour, visited)
    else
      match fuel with
      | O => None
      | S fuel' =>
          let idx := y * width + x in
          if (x <? 0) || (width <=? x) || (y <? 0) || (height <=? y)
             || is_visited visited idx
          then traceContour_loop fuel' data width height rest contour visited
          else if strong_edge data idx
          then traceContour_loop fuel' data width height
                 (push_neighbours x y rest) (contour ++ [(x, y)])
                 (set_index visited idx true)
          else traceContour_loop fuel' data width height rest contour visited
      end
end.

(** Every iteration pops one pixel and pushes eight at most once per
    collected point: 8001 iterations are enough for every input. *)
Definition traceContour_fuel : nat := 8 * 1000 + 1.

(** [traceContour]: the contour, and the [visited] array it updated in
    place. *)
Definition traceContour (data : list Z) (width height startX startY : Z)
    (visited : list bool) : option (list (Z * Z) * list bool) :=
traceContour_loop traceContour_fuel data width height
  [(startX, startY)] [] visited.

(** The pixels in the order the two [for] loops visit them. *)
Definition scan_order (width height : Z) : list (Z * Z) :=
y ← seqZ 0 height; x ← seqZ 0 width; [(x, y)].

(** The body of the inner [for] loop of [findContours]. *)
Definition findContours_step (data : list Z) (width height : Z)
    (state : option (list (list (Z * Z)) * list bool)) (p : Z * Z)
  : option (list (list (Z * Z)) * list bool) :=
'(contours, visited) ← state;
let idx := p.2 * width + p.1 in
if negb (is_visited visited idx) && strong_edge data idx then
  '(contour, visited') ← traceContour data width height p.1 p.2 visited;
  Some (if (20 <? length contour)%nat then contours ++ [contour] else contours,
        visited')
else Some (contours, visited).

Definition findContours (edgeData : ImageData)
  : option (list (list (Z * Z))) :=
let visited := replicate (Z.to_nat (width edgeData * height edgeData)) false in
fst <$> foldl (findContours_step (data edgeData) (width edgeData)
                 (height edgeData))
          (Some ([], visited))
          (scan_order (width edgeData) (height edgeData)).

(** Every region the scan traces, kept or not: the loop of [findContours]
    without its test on the length. *)
Definition tracedRegions_step (data : list Z) (width height : Z)
    (state : option (list (list (Z * Z)) * list bool)) (p : Z * Z)
  : option (list (list (Z * Z)) * list bool) :=
'(regions, visited) ← state;
let idx := p.2 * width + p.1 in
if negb (is_visited visited idx) && strong_edge data idx then
  '(contour, visited') ← traceContour data width height p.1 p.2 visited;
  Some (regions ++ [contour], visited')
else Some (regions, visited).

Definition tracedRegions (edgeData : ImageData)
  : option (list (list (Z * Z))) :=
let visited := replicate (Z.to_nat (width edgeData * height edgeData)) false in
fst <$> foldl (tracedRegions_step (data edgeData) (width edgeData)
                 (height edgeData))
          (Some ([], visited))
          (scan_order (width edgeData) (height edgeData)).

(** [new ImageData(data, width, height)]: the length must be a non-zero
    multiple of four that makes up [height] rows of [width] pixels. *)
Definition new_ImageData (data : list Z) (width height : Z)
  : outcome ImageData :=
let len := Z.of_nat (length data) in
if (len =? 0) || negb (len mod 4 =? 0) then Throw InvalidStateError
else if (width =? 0) || negb ((len / 4) mod width =? 0)
        || negb (len / 4 / width =? height)
then Throw IndexSizeError
else Normal {| width := width; height := height; data := data |}.

(** The number read from a typed array: NaN for [undefined]. *)
Definition number_at (a : list Z) (i : Z) : float :=
match at_index a i with
| Some b => Z2float b
| None => nan
end.

(** The byte a [Uint8ClampedArray] stores for a number: clamped to
    0..255, rounded to nearest with ties to even, 0 for NaN. *)
Definition ToUint8Clamp (v : float) : Z :=
if is_nan v then 0
else if (v <=? 0)%float then 0
else if (255 <=? v)%float then 255
else
  match Prim2SF v with
  | S754_finite _ m e =>
      if 0 <=? e then Zpos m * 2 ^ e
      else
        let d := 2 ^ (- e) in
        let f := Zpos m / d in
        let twice_rest := 2 * (Zpos m mod d) in
        if twice_rest <? d then f
        else if d <? twice_rest then f + 1
        else if Z.even f then f else f + 1
  | _ => 0
  end.

Section GaussianBlur.
Variable Math_exp : float -> float.
Local Open Scope float_scope.

Definition Math_PI : float := 3.141592653589793.

Definition createGaussianKernel (radius : Z) : list (list float) :=
let size := (radius * 2 + 1)%Z in
let sigma := Z2float radius / 3 in
let sigma2 := sigma * sigma in
let norm := 1 / (2 * Math_PI * sigma2) in
(fun y : Z =>
   (fun x : Z =>
      let dx := Z2float (x - radius) in
      let dy := Z2float (y - radius) in
      let exp := - (dx * dx + dy * dy) / (2 * sigma2) in
      norm * Math_exp exp) <$> seqZ 0 size) <$> seqZ 0 size.

(** [kernel[ky][kx]] *)
Definition kernel_at (kernel : list (list float)) (ky kx : Z) : float :=
default nan (row ← at_index kernel ky; at_index row kx).

(** The two inner loops: the weighted sum of the window around [(x, y)]
    and the sum of the weights. *)
Definition window_sums (data : list Z) (width : Z)
    (kernel : list (list float)) (half x y : Z) : float * float :=
let kernelSize := Z.of_nat (length kernel) in
foldl (fun acc ky =>
         foldl (fun acc kx =>
                  let px := (x + kx - half)%Z in
                  let py := (y + ky - half)%Z in
                  let idx := ((py * width + px) * 4)%Z in
                  let weight := kernel_at kernel ky kx in
                  (acc.1 + number_at data idx * weight, acc.2 + weight))
               acc (seqZ 0 kernelSize))
      (0, 0) (seqZ 0 kernelSize).

(** The value the blur gives the colour channels of pixel [(x, y)]. *)
Definition blurred_value (data : list Z) (width : Z)
    (kernel : list (list float)) (half x y : Z) : Z :=
let sums := window_sums data width kernel half x y in
ToUint8Clamp (sums.1 / sums.2).

(** The four stores of the loop body. *)
Definition write_pixel (output : list Z) (outputIdx value alpha : Z) : list Z :=
set_index
  (set_index
     (set_index (set_index output outputIdx value) (outputIdx + 1) value)
     (outputIdx + 2) value)
  (outputIdx + 3) alpha.

Definition blur_step (data : list Z) (width : Z) (kernel : list (list float))
    (half : Z) (output : list Z) (p : Z * Z) : list Z :=
let outputIdx := ((p.2 * width + p.1) * 4)%Z in
write_pixel output outputIdx
  (blurred_value data width kernel half p.1 p.2)
  (default 0%Z (at_index data (outputIdx + 3))).

(** The pixels the two outer loops visit, in their order. *)
Definition blur_order (width height half : Z) : list (Z * Z) :=
y ← seqZ half (height - half - half); x ← seqZ half (width - half - half);
[(x, y)].

Definition applyGaussianBlur (imageData : ImageData) (radius : Z)
  : outcome ImageData :=
let data := data imageData in
let width := width imageData in
let height := height imageData in
let output := replicate (length data) 0%Z in
let kernel := createGaussianKernel radius in
let kernelSize := Z.of_nat (length kernel) in
let half := (kernelSize / 2)%Z in
new_ImageData
  (foldl (blur_step data width kernel half) output
     (blur_order width height half))
  width height.

End GaussianBlur.

(** An image whose pixels are all [(v, v, v, 255)]. *)
Definition uniform_image (w h v : Z) : ImageData :=
{| width := w; height := h;
   data := mjoin (replicate (Z.to_nat (w * h)) [v; v; v; 255]) |}.

End Image.

(* ================================================================== *)
(** ** The ROI extractor *)
(* ================================================================== *)

(** Rectangles are drawn with the mouse and have fractional coordinates:
    they are binary64 numbers, scaled by a binary64 quotient and floored
    by [Math.floor], and what the clamping leaves is handed to the canvas
    as it is. *)

Module ROI.
Import Image.
Local Open Scope float_scope.

Record Rectangle := {
  x : float; y : float; width : float; height : float
}.

(** A frame as the camera manager captures it. *)
Record FrameData := {
  frame_imageData : option ImageData;
  frame_width : Z;
  frame_height : Z
}.

Record ROIData := {
  roi_imageData : ImageData;
  roi_width : Z;
  roi_height : Z;
  originalRect : Rectangle
}.

(** The integer a number is converted to when it is assigned to an
    [unsigned long] attribute, before the reduction modulo 2^32: its
    integral part, and 0 for NaN and the infinities. *)
Definition integer_part (v : float) : Z :=
match Prim2SF v with
| S754_finite s m e =>
    cond_Zopp s (if (0 <=? e)%Z then (Zpos m * 2 ^ e)%Z
                 else (Zpos m / 2 ^ (- e))%Z)
| _ => 0%Z
end.

(** [canvas.width = v] and [canvas.height = v]: the value is converted to
    an unsigned long, and one above 2^31 - 1 is replaced by the default
    (300 for the width, 150 for the height). *)
Definition canvas_dimension (default : Z) (v : float) : Z :=
let u := (integer_part v mod 2 ^ 32)%Z in
if (u <=? 2147483647)%Z then u else default.

Definition is_finite_number (v : float) : bool :=
match Prim2SF v with
| S754_zero _ | S754_finite _ _ _ => true
| _ => false
end.

(** The arguments of [drawImage] are all finite. *)
Definition drawable (r : Rectangle) : bool :=
is_finite_number (x r) && is_finite_number (y r)
&& is_finite_number (width r) && is_finite_number (height r).

(** [ctx.drawImage(source, sx, sy, sw, sh, 0, 0, sw, sh)] returns at once
    when an argument is NaN or infinite, and throws when the source
    canvas has no pixels. *)
Definition drawImage_check (source_width source_height : Z)
    (r : Rectangle) : outcome unit :=
if negb (drawable r) then Normal tt
else if (source_width =? 0)%Z || (source_height =? 0)%Z
then Throw InvalidStateError else Normal tt.

(** The pixel of the temporary canvas at [(tx, ty)] after
    [putImageData(imageData, 0, 0)]: transparent black where the image
    does not reach. *)
Definition source_pixel (img : ImageData) (temp_width temp_height tx ty : Z)
  : list Z :=
if ((0 <=? tx) && (tx <? temp_width) && (tx <? Image.width img)
   && (0 <=? ty) && (ty <? temp_height) && (ty <? Image.height img))%Z
then (fun c => default 0%Z (at_index (data img)
                            ((ty * Image.width img + tx) * 4 + c)%Z))
       <$> [0; 1; 2; 3]%Z
else [0; 0; 0; 0]%Z.

(** [ctx.getImageData(0, 0, w, h)] of the canvas the region was drawn
    on; it throws for an empty rectangle. The region drawn is the source
    rectangle, when its numbers are finite and its extent is positive
    (they are whole numbers then). *)
Definition getImageData (img : ImageData) (temp_width temp_height : Z)
    (r : Rectangle) (w h : Z) : outcome ImageData :=
if ((w =? 0) || (h =? 0))%Z then Throw IndexSizeError
else
  let sx := integer_part (x r) in
  let sy := integer_part (y r) in
  let sw := integer_part (width r) in
  let sh := integer_part (height r) in
  Normal
    {| Image.width := w; Image.height := h;
       data :=
         cy ← seqZ 0 h; cx ← seqZ 0 w;
         if (drawable r && (0 <? sw) && (0 <? sh)
             && (cx <? sw) && (cy <? sh))%Z
         then source_pixel img temp_width temp_height (sx + cx) (sy + cy)
         else [0; 0; 0; 0]%Z |}.

Definition outcome_bind {A B} (m : outcome A) (f : A -> outcome B)
  : outcome B :=
match m with
| Normal a => f a
| Throw e => Throw e
end.

(** The [try] block of [extractROI], for a frame that has image data. *)
Definition extractROI_try (frameData : FrameData) (img : ImageData)
    (rect : Rectangle) : outcome ROIData :=
let frame_w := Z2float (frame_width frameData) in
let frame_h := Z2float (frame_height frameData) in
let scaleX := frame_w / Z2float (Image.width img) in
let scaleY := frame_h / Z2float (Image.height img) in
let x0 := Math_floor (x rect * scaleX) in
let y0 := Math_floor (y rect * scaleY) in
let width0 := Math_floor (width rect * scaleX) in
let height0 := Math_floor (height rect * scaleY) in
let x1 := Math_max 0 (Math_min x0 (frame_w - 1)) in
let y1 := Math_max 0 (Math_min y0 (frame_h - 1)) in
let width1 := Math_min width0 (frame_w - x1) in
let height1 := Math_min height0 (frame_h - y1) in
let scaledRect :=
  {| x := x1; y := y1; width := width1; height := height1 |} in
let canvas_width := canvas_dimension 300 width1 in
let canvas_height := canvas_dimension 150 height1 in
let temp_width := canvas_dimension 300 frame_w in
let temp_height := canvas_dimension 150 frame_h in
outcome_bind (drawImage_check temp_width temp_height scaledRect) (fun _ =>
outcome_bind (getImageData img temp_width temp_height scaledRect
                canvas_width canvas_height) (fun pixels =>
Normal {| roi_imageData := pixels;
          roi_width := canvas_width;
          roi_height := canvas_height;
          originalRect := scaledRect |})).

(** [extractROI]: [null] without image data and when anything inside
    throws. *)
Definition extractROI (frameData : FrameData) (rect : Rectangle)
  : option ROIData :=
match frame_imageData frameData with
| None => None
| Some img =>
    match extractROI_try frameData img rect with
    | Normal roi => Some roi
    | Throw _ => None
    end
end.

(** A point of the plane lies in the rectangle, and in the frame. *)
Definition in_rectangle (rect : Rectangle) (qx qy : float) : bool :=
(x rect <=? qx) && (qx <? x rect + width rect)
&& (y rect <=? qy) && (qy <? y rect + height rect).

Definition in_frame (frameData : FrameData) (qx qy : float) : bool :=
(0 <=? qx) && (qx <? Z2float (frame_width frameData))
&& (0 <=? qy) && (qy <? Z2float (frame_height frameData)).

(** A frame of [w] x [h] pixels, all grey [v]. *)
Definition uniform_frame (w h v : Z) : FrameData :=
{| frame_imageData := Some (uniform_image w h v);
   frame_width := w; frame_height := h |}.

End ROI.

(* ================================================================== *)
(** ** Sequences of appends, and the window they should leave *)
(* ================================================================== *)

(** One [addToHistory] call per result, in order. *)
Fixpoint addAllToHistory (results : list EngineV2.DetectionResult)
  : EngineV2.M unit :=
match results with
| [] => EngineV2.ret tt
| r :: rest =>
    EngineV2.bind (EngineV2.addToHistory r) (fun _ => addAllToHistory rest)
end.

(** The same for the legacy engine; each call comes with the time
    [Date.now()] gives it. *)
Definition addAllToHistoryV1 (e : EngineV1.Engine)
    (calls : list (float * EngineV1.DetectionResult)) : EngineV1.Engine :=
foldl (fun e call => EngineV1.addToHistory e call.1 call.2) e calls.

(** The [n] most recent elements of a sequence, oldest first. *)
Definition most_recent {A} (n : nat) (l : list A) : list A :=
drop (length l - n) l.

(* ================================================================== *)
(** ** A host for the worked examples *)
(* ================================================================== *)

Module ExampleHost.
Local Open Scope float_scope.

(** The integer a float denotes, when it denotes one. *)
Definition integer_value (v : float) : option Z :=
  match Prim2SF v with
  | S754_zero _ => Some 0%Z
  | S754_finite s m e =>
      let n := cond_Zopp s (Zpos m) in
      if (0 <=? e)%Z then Some (n * 2 ^ e)%Z
      else if (n mod 2 ^ (- e) =? 0)%Z then Some (n / 2 ^ (- e))%Z
      else None
  | _ => None
  end.

(** Squares are exact products; other powers are not needed by the
    engine and are left as NaN. Integers print in decimal. *)
#[export] Instance example_host : Host := {|
  Math_pow := fun b e => if e =? 2 then b * b else nan;
  Number_toString := fun v =>
    match integer_value v with
    | Some n => pretty n
    | None => if is_nan v then "NaN" else ""
    end
|}.
End ExampleHost.

(* ================================================================== *)
(** ** Worked inputs *)
(* ================================================================== *)

Module Examples.
Import ExampleHost.
Local Open Scope float_scope.

(** A drawing-mode engine whose key point area is 200 x 200, so that the
    expected centre is (100, 100); the reference rotation is 0 and the
    sensitivities are the constructor's 20 px and 5 degrees. *)
Definition key_area : EngineV2.Rectangle :=
  {| EngineV2.x := 40; EngineV2.y := 30;
     EngineV2.width := 200; EngineV2.height := 200 |}.

Definition reference : EngineV2.ReferenceFeatures :=
  {| EngineV2.centerX := 140; EngineV2.centerY := 130;
     EngineV2.rf_rotation := 0; EngineV2.rf_area := 40000 |}.

Definition engine : EngineV2.Engine :=
  {| EngineV2.referenceFeatures := Some reference;
     EngineV2.boxRect := Some key_area;
     EngineV2.keyPointRect := Some key_area;
     EngineV2.settings := EngineV2.default_settings;
     EngineV2.isInitialized := true;
     EngineV2.lastDetection := None;
     EngineV2.detectionHistory := [] |}.

(** A world around an engine: [Math.random()] always returns [r], and
    [Date.now()] counts milliseconds from 1000. *)
Definition world_of (e : EngineV2.Engine) (r : float) : EngineV2.World :=
  {| EngineV2.this := e;
     EngineV2.random_tape := fun _ => r;
     EngineV2.random_drawn := 0;
     EngineV2.clock_tape := fun n => Z2float (1000 + Z.of_nat n);
     EngineV2.clock_read := 0 |}.

Definition world : EngineV2.World := world_of engine 0.5.

Definition observed (cx cy rot : float) (has : bool) : EngineV2.Analysis :=
  {| EngineV2.contours := 1;
     EngineV2.features :=
       Some {| EngineV2.hasBox := has;
               EngineV2.rotation := rot;
               EngineV2.position :=
                 {| EngineV2.pt_x := cx; EngineV2.pt_y := cy |};
               EngineV2.boundingBox := None;
               EngineV2.area := 2500;
               EngineV2.bf_confidence := 2.5 |} |}.

(** The legacy engine with a reference centred at (100, 100). *)
Definition legacy_reference : EngineV1.ReferenceFeatures :=
  {| EngineV1.rf_width := 200; EngineV1.rf_height := 200;
     EngineV1.rf_centerX := 100; EngineV1.rf_centerY := 100;
     EngineV1.rf_rotation := 0; EngineV1.rf_area := 10000 |}.

Definition legacy_engine : EngineV1.Engine :=
  {| EngineV1.referenceFeatures := Some legacy_reference;
     EngineV1.settings :=
       {| EngineV1.rotationSensitivity := 5;
          EngineV1.positionSensitivity := 20;
          EngineV1.detectionThreshold := 50;
          EngineV1.minContourArea := 1000;
          EngineV1.maxContourArea := 500000 |};
     EngineV1.isInitialized := true;
     EngineV1.lastDetection := None;
     EngineV1.detectionHistory := [] |}.

Definition legacy_box (cx cy rot : float) : EngineV1.Box :=
  {| EngineV1.x := cx - 25; EngineV1.y := cy - 25;
     EngineV1.width := 50; EngineV1.height := 50;
     EngineV1.centerX := cx; EngineV1.centerY := cy;
     EngineV1.rotation := rot; EngineV1.area := 2500;
     EngineV1.contour := [] |}.

(** The [try] block of [extractROI] as a stage of the engine: the canvas
    extraction of [ROI], on the engine's rectangle. Reading [rect.x] of
    [null] throws. *)
Definition canvas_extractROI_try (frameData : ROI.FrameData)
    (rect : option EngineV2.Rectangle)
  : EngineV2.M (option ROI.ROIData) :=
match ROI.frame_imageData frameData with
| None => EngineV2.ret None
| Some img =>
    match rect with
    | None => EngineV2.throw TypeError
    | Some r =>
        match ROI.extractROI_try frameData img
                {| ROI.x := EngineV2.x r; ROI.y := EngineV2.y r;
                   ROI.width := EngineV2.width r;
                   ROI.height := EngineV2.height r |} with
        | Normal roi => EngineV2.ret (Some roi)
        | Throw e => EngineV2.throw e
        end
    end
end.

(** An engine whose key point area is half a pixel wide and high. *)
Definition subpixel_area : EngineV2.Rectangle :=
{| EngineV2.x := 4; EngineV2.y := 3;
   EngineV2.width := 0.5; EngineV2.height := 0.5 |}.

Definition subpixel_engine : EngineV2.Engine :=
{| EngineV2.referenceFeatures := Some reference;
   EngineV2.boxRect := Some key_area;
   EngineV2.keyPointRect := Some subpixel_area;
   EngineV2.settings := EngineV2.default_settings;
   EngineV2.isInitialized := true;
   EngineV2.lastDetection := None;
   EngineV2.detectionHistory := [] |}.

(** A legacy-mode engine of the v2.0 class: a reference image was set and
    no areas were drawn. *)
Definition legacy_mode_engine : EngineV2.Engine :=
{| EngineV2.referenceFeatures := Some reference;
   EngineV2.boxRect := None;
   EngineV2.keyPointRect := None;
   EngineV2.settings := EngineV2.default_settings;
   EngineV2.isInitialized := true;
   EngineV2.lastDetection := None;
   EngineV2.detectionHistory := [] |}.

(** A frame object that carries no image data. *)
Definition imageless_frame : ROI.FrameData :=
{| ROI.frame_imageData := None;
   ROI.frame_width := 640; ROI.frame_height := 480 |}.

(** The [try] block of [detectBoxes] as a stage of the engine: it starts
    with [convertToGrayscale(frameData.imageData)], which reads
    [imageData.data] and throws a [TypeError] on a frame without image
    data; what follows on an image is [pipeline]. *)
Definition detectBoxes_try_with
    (pipeline : Image.ImageData -> EngineV2.M (list EngineV1.Box))
    (frameData : ROI.FrameData) : EngineV2.M (list EngineV1.Box) :=
match ROI.frame_imageData frameData with
| None => EngineV2.throw TypeError
| Some img => pipeline img
end.

Definition no_new_settings : EngineV2.PartialSettings :=
{| EngineV2.new_rotationSensitivity := None;
   EngineV2.new_positionSensitivity := None;
   EngineV2.new_detectionThreshold := None;
   EngineV2.new_minContourArea := None;
   EngineV2.new_maxContourArea := None |}.

(** 150 results, told apart by their confidence 0, 1, ..., 149. *)
Definition numbered_result (n : Z) : EngineV2.DetectionResult :=
{| EngineV2.hasAlert := false; EngineV2.message := "";
   EngineV2.box := None; EngineV2.confidence := Z2float n;
   EngineV2.details := None |}.

Definition results_150 : list EngineV2.DetectionResult :=
numbered_result <$> seqZ 0 150.

(** The exponential by its Taylor polynomial of degree 60, for the
    examples of the blur. *)
Definition exp_taylor (v : float) : float :=
(foldl (fun acc k => (acc.1 + acc.2, acc.2 * v / Z2float k))
   (0, 1) (seqZ 1 60)).1.
End Examples.

(* ================================================================== *)
(** ** The geometry helpers of [Utils] *)
(* ================================================================== *)

Module Utils.
Local Open Scope float_scope.

Record Point := { x : float; y : float }.

Record Rect := {
  rect_x : float; rect_y : float; rect_width : float; rect_height : float
}.

(** [clamp(value, min, max)] *)
Definition clamp (value min max : float) : float :=
Math_min (Math_max value min) max.


(** [pointInRect(point, rect)]; [p >= q] is [q <= p]. *)
Definition pointInRect (point : Point) (rect : Rect) : bool :=
(rect_x rect <=? x point)
&& (x point <=? rect_x rect + rect_width rect)
&& (rect_y rect <=? y point)
&& (y point <=? rect_y rect + rect_height rect).

(** [rectsIntersect(rect1, rect2)] *)
Definition rectsIntersect (rect1 rect2 : Rect) : bool :=
negb ((rect_x rect1 + rect_width rect1 <? rect_x rect2)
      || (rect_x rect2 + rect_width rect2 <? rect_x rect1)
      || (rect_y rect1 + rect_height rect1 <? rect_y rect2)
      || (rect_y rect2 + rect_height rect2 <? rect_y rect1)).

(** [normalizeAngle(angle)] on whole degrees: [%] is the remainder that
    takes the sign of the dividend. *)
Definition normalizeAngle (angle : Z) : Z :=
let angle := Z.rem angle 360 in
if (angle <? 0)%Z then (angle + 360)%Z else angle.

End Utils.

(* ================================================================== *)
(** ** The order of binary64 values *)
(* ================================================================== *)

(** The comparison of two floats; [None] when one is NaN. *)
Definition fcmp (a b : float) : option comparison :=
SFcompare (Prim2SF a) (Prim2SF b).

(* ================================================================== *)
(** ** Settings and history upkeep of the v2.0 engine *)
(* ================================================================== *)

Module Upkeep.
Import EngineV2.
Local Open Scope js_scope.

(** [getSettings]: a copy of the settings. *)
Definition getSettings : M Settings :=
  e <- get_this ;; ret (settings e).

(** [resetHistory] *)
Definition resetHistory : M unit :=
  set_this (set_detectionHistory []) ;;;
  set_this (set_lastDetection None).

(** The number of history entries that carry an alert. *)
Definition alert_count (h : list HistoryEntry) : nat :=
  length (List.filter (fun d => hasAlert (entry d)) h).

End Upkeep.

(* ================================================================== *)
(** ** Grayscale conversion and edge detection *)
(* ================================================================== *)

Module Filters.
Import Image.
Local Open Scope float_scope.

(** [data[i] * 0.299 + data[i + 1] * 0.587 + data[i + 2] * 0.114] *)
Definition luma (r g b : float) : float :=
r * 0.299 + g * 0.587 + b * 0.114.

(** The loop of [convertToGrayscale] over the copy of the data, four
    bytes at a time. In a last group that is cut short the missing
    channels read as [undefined], the sum is NaN and the bytes that
    exist are stored as 0; three bytes make a whole sum. *)
Fixpoint grayscale_data (data : list Z) : list Z :=
match data with
| r :: g :: b :: a :: rest =>
    let gray := ToUint8Clamp (luma (Z2float r) (Z2float g) (Z2float b)) in
    gray :: gray :: gray :: a :: grayscale_data rest
| [r; g; b] =>
    let gray := ToUint8Clamp (luma (Z2float r) (Z2float g) (Z2float b)) in
    [gray; gray; gray]
| [r; g] => let gray := ToUint8Clamp (luma (Z2float r) (Z2float g) nan) in
            [gray; gray]
| [r] => [ToUint8Clamp (luma (Z2float r) nan nan)]
| [] => []
end.

Definition convertToGrayscale (imageData : ImageData) : outcome ImageData :=
new_ImageData (grayscale_data (data imageData))
  (width imageData) (height imageData).

(** The part of [this.config] the pipeline reads. *)
Record Config := {
  gaussianBlur : Z;
  cannyLower : float;
  cannyUpper : float
}.

(** The constructor's configuration. *)
Definition default_config : Config :=
{| gaussianBlur := 5; cannyLower := 50; cannyUpper := 150 |}.

Definition sobelX : list (list float) :=
[[-1; 0; 1]; [-2; 0; 2]; [-1; 0; 1]].
Definition sobelY : list (list float) :=
[[-1; -2; -1]; [0; 0; 0]; [1; 2; 1]].

(** The two inner loops of [detectEdges]: [gx] and [gy] at [(x, y)]. *)
Definition gradient (data : list Z) (width x y : Z) : float * float :=
foldl (fun acc ky =>
         foldl (fun acc kx =>
                  let idx := (((y + ky) * width + (x + kx)) * 4)%Z in
                  let pixel := number_at data idx in
                  (acc.1 + pixel * kernel_at sobelX (ky + 1) (kx + 1),
                   acc.2 + pixel * kernel_at sobelY (ky + 1) (kx + 1)))
               acc [-1; 0; 1]%Z)
      (0, 0) [-1; 0; 1]%Z.

(** The value stored for a gradient: 255 above the upper threshold, 128
    above the lower one, 0 otherwise. *)
Definition threshold (config : Config) (g : float * float) : Z :=
let magnitude := Math_sqrt (g.1 * g.1 + g.2 * g.2) in
if cannyLower config <? magnitude
then (if cannyUpper config <? magnitude then 255%Z else 128%Z)
else 0%Z.

(** The body of the two outer loops. *)
Definition edge_step (config : Config) (data : list Z) (width : Z)
    (edges : list Z) (p : Z * Z) : list Z :=
let outputIdx := ((p.2 * width + p.1) * 4)%Z in
write_pixel edges outputIdx
  (threshold config (gradient data width p.1 p.2)) 255.

Definition detectEdges (config : Config) (imageData : ImageData)
  : outcome ImageData :=
let width := width imageData in
let height := height imageData in
let data := data imageData in
let edges := replicate (length data) 0%Z in
new_ImageData
  (foldl (edge_step config data width) edges (blur_order width height 1))
  width height.

End Filters.

(* ================================================================== *)
(** ** What a traced region is *)
(* ================================================================== *)

Module Regions.
Import Image.

(** [y * width + x] *)
Definition pixel_index (w : Z) (p : Z * Z) : Z := p.2 * w + p.1.

Definition in_image (w h : Z) (p : Z * Z) : Prop :=
0 <= p.1 < w /\ 0 <= p.2 < h.

(** Two pixels at most one step apart in each direction. *)
Definition adjacent (p q : Z * Z) : Prop :=
Z.abs (q.1 - p.1) <= 1 /\ Z.abs (q.2 - p.2) <= 1.

(** A sequence of pixels that begins with [start] and in which every
    later pixel is adjacent to an earlier one. *)
Definition chained (start : Z * Z) (contour : list (Z * Z)) : Prop :=
forall (k : nat) q,
  contour !! k = Some q ->
  (k = 0%nat /\ q = start)
  \/ exists (j : nat) p, (j < k)%nat /\ contour !! j = Some p /\ adjacent p q.

(** What the loop of [traceContour] keeps true, [v0] being the visited
    array at its start. *)
Record trace_invariant (data : list Z) (w h : Z) (start : Z * Z)
    (v0 : list bool) (stack contour : list (Z * Z)) (visited : list bool)
  : Prop := {
  inv_length : length visited = length v0;
  inv_points :
    forall p, p ∈ contour ->
      in_image w h p /\ strong_edge data (pixel_index w p) = true
      /\ is_visited v0 (pixel_index w p) = false;
  inv_nodup : NoDup contour;
  inv_visited :
    forall i, is_visited visited i = true
              <-> is_visited v0 i = true
                  \/ exists p, p ∈ contour /\ pixel_index w p = i;
  inv_chain : chained start contour;
  inv_stack :
    forall q, q ∈ stack ->
      (contour = [] /\ q = start) \/ exists p, p ∈ contour /\ adjacent p q
}.

(** What the scan of [findContours] keeps true of the regions traced so
    far. *)
Record scan_invariant (data : list Z) (w h : Z)
    (regions : list (list (Z * Z))) (visited : list bool) : Prop := {
  scan_length : length visited = Z.to_nat (w * h);
  scan_nodup : NoDup (concat regions);
  scan_points :
    forall p, p ∈ concat regions ->
      in_image w h p /\ strong_edge data (pixel_index w p) = true;
  scan_visited :
    forall i, is_visited visited i = true
              <-> exists p, p ∈ concat regions /\ pixel_index w p = i;
  scan_regions :
    Forall (fun c => c <> [] /\ (length c <= 1000)%nat
                     /\ exists start, chained start c) regions
}.

End Regions.

(* ================================================================== *)
(** ** Measuring contours *)
(* ================================================================== *)

(** A contour is what [findContours] returns: points with whole pixel
    coordinates. The bounding box only compares and subtracts them and
    is kept in [Z]; the area, the position and the confidence are
    computed in binary64 as the code computes them, from the binary64
    values of the coordinates. *)
Module Contours.
Local Open Scope Z_scope.

Record BoundingBox := {
  bb_x : Z; bb_y : Z; bb_width : Z; bb_height : Z
}.

(** [Math.min(m, v)] and [Math.max(m, v)] for a running bound [m] that
    starts at [Infinity] or [-Infinity], written [None]. *)
Definition lower (m : option Z) (v : Z) : option Z :=
Some (match m with None => v | Some a => Z.min a v end).
Definition upper (m : option Z) (v : Z) : option Z :=
Some (match m with None => v | Some a => Z.max a v end).

Record Bounds := {
  minX : option Z; minY : option Z; maxX : option Z; maxY : option Z
}.

(** The [for ... of] loop of [calculateBoundingBox]. *)
Definition bounds_of (contour : list (Z * Z)) : Bounds :=
foldl (fun b p =>
         {| minX := lower (minX b) p.1; minY := lower (minY b) p.2;
            maxX := upper (maxX b) p.1; maxY := upper (maxY b) p.2 |})
      {| minX := None; minY := None; maxX := None; maxY := None |}
      contour.

(** [calculateBoundingBox]; after a loop over at least one point all four
    bounds are numbers. *)
Definition calculateBoundingBox (contour : list (Z * Z)) : BoundingBox :=
if (length contour =? 0)%nat
then {| bb_x := 0; bb_y := 0; bb_width := 0; bb_height := 0 |}
else
  let b := bounds_of contour in
  {| bb_x := default 0 (minX b);
     bb_y := default 0 (minY b);
     bb_width := default 0 (maxX b) - default 0 (minX b);
     bb_height := default 0 (maxY b) - default 0 (minY b) |}.

(** The sum the loop of [calculateContourArea] builds, in binary64 as the
    code builds it: one product is added and one is subtracted at each
    index, and each of the four operations rounds. *)
Definition shoelace (contour : list (Z * Z)) : float :=
let n := length contour in
foldl (fun area i =>
         let j := ((i + 1) mod n)%nat in
         (area + Z2float (contour !!! i).1 * Z2float (contour !!! j).2
          - Z2float (contour !!! j).1 * Z2float (contour !!! i).2)%float)
      0%float (seq 0 n).

(** [calculateContourArea] *)
Definition calculateContourArea (contour : list (Z * Z)) : float :=
if (length contour <? 3)%nat then 0%float
else (Math_abs (shoelace contour) / 2)%float.

(** The same sum over the integers, where nothing rounds: twice the
    signed area that the contour encloses. It is what [shoelace] is
    compared with. *)
Definition exact_shoelace (contour : list (Z * Z)) : Z :=
let n := length contour in
foldl (fun area i =>
         let j := ((i + 1) mod n)%nat in
         area + (contour !!! i).1 * (contour !!! j).2
              - (contour !!! j).1 * (contour !!! i).2)
      0 (seq 0 n).

(** The coordinates of a contour are at most [B] in magnitude. *)
Definition within (B : Z) (contour : list (Z * Z)) : Prop :=
forall p, p ∈ contour -> Z.abs p.1 <= B /\ Z.abs p.2 <= B.

(** What [analyzeContours] returns; without contours the object has no
    [boundingBox] and no [area]. *)
Record BoxFeatures := {
  hasBox : bool;
  rotation : float;
  position : float * float;
  boundingBox : option BoundingBox;
  area : option float;
  confidence : float
}.

Section Analysis.
(** [0.5 * Math.atan2(2 * sumXY, sumXX - sumYY) * 180 / Math.PI], the
    principal axis of a contour of two points or more. *)
Variable principal_angle : list (Z * Z) -> float.
Variable minContourArea : float.

(** [calculateRotation] *)
Definition calculateRotation (contour : list (Z * Z)) : float :=
if (length contour <? 2)%nat then 0%float else principal_angle contour.

(** The loop of [analyzeContours]: the largest contour so far and its
    area; [area > maxArea] is [maxArea < area]. *)
Definition largest_from (first : list (Z * Z))
    (others : list (list (Z * Z))) : list (Z * Z) * float :=
foldl (fun best c =>
         let area := calculateContourArea c in
         if (best.2 <? area)%float then (c, area) else best)
      (first, calculateContourArea first) others.

Definition analyzeContours (contours : list (list (Z * Z))) : BoxFeatures :=
match contours with
| [] =>
    {| hasBox := false; rotation := 0; position := (0, 0)%float;
       boundingBox := None; area := None; confidence := 0 |}
| first :: others =>
    let '(largestContour, maxArea) := largest_from first others in
    let boundingBox := calculateBoundingBox largestContour in
    let rotation := calculateRotation largestContour in
    let confidence := Math_min 100 (maxArea / 1000) in
    {| hasBox := (minContourArea <? maxArea)%float;
       rotation := rotation;
       position :=
         (Z2float (bb_x boundingBox) + Z2float (bb_width boundingBox) / 2,
          Z2float (bb_y boundingBox) + Z2float (bb_height boundingBox) / 2)%float;
       boundingBox := Some boundingBox;
       area := Some maxArea;
       confidence := confidence |}
end.
End Analysis.

End Contours.

(* ================================================================== *)
(** ** The analysis of a region *)
(* ================================================================== *)

Module RegionAnalysis.
Import Image.

(** What the [try] block of [analyzeROI] computes, the time stamp
    apart. *)
Record Analysis := {
  edges : ImageData;
  contours : nat;
  features : Contours.BoxFeatures
}.

Section WithSettings.
Variable principal_angle : list (Z * Z) -> float.
Variable config : Filters.Config.
Variable minContourArea : float.

(** The [try] block of [analyzeROI]: grayscale, edges, contours, box
    features. [findContours] always returns, so the default is never
    used. *)
Definition analyzeROI_try (imageData : ImageData) : outcome Analysis :=
ROI.outcome_bind (Filters.convertToGrayscale imageData) (fun grayData =>
ROI.outcome_bind (Filters.detectEdges config grayData) (fun edges =>
let contours := default [] (findContours edges) in
let boxFeatures :=
  Contours.analyzeContours principal_angle minContourArea contours in
Normal {| edges := edges; contours := length contours;
          features := boxFeatures |})).

End WithSettings.
End RegionAnalysis.

(* ================================================================== *)
(** ** Choosing among detected boxes (legacy mode) *)
(* ================================================================== *)

Module BestMatch.
Section WithHost.
Context `{Host}.
Local Open Scope float_scope.

(** The distance of the centre of [box] from [(centerX, centerY)]. *)
Definition center_distance (centerX centerY : float) (box : EngineV1.Box)
  : float :=
Math_sqrt (Math_pow (EngineV1.centerX box - centerX) 2
           + Math_pow (EngineV1.centerY box - centerY) 2).

(** The loop of [findBestMatch]: [bestBox] and [minDistance]. *)
Definition closest_from (centerX centerY : float) (first : EngineV1.Box)
    (boxes : list EngineV1.Box) : EngineV1.Box * float :=
foldl (fun best box =>
         let distance := center_distance centerX centerY box in
         if distance <? best.2 then (box, distance) else best)
      (first, infinity) boxes.

(** [findBestMatch]; [None] is [undefined], which [boxes[0]] is on an
    empty array. *)
Definition findBestMatch (referenceImage : option Image.ImageData)
    (boxes : list EngineV1.Box) : option EngineV1.Box :=
if (length boxes =? 1)%nat then head boxes
else
  match referenceImage with
  | None => head boxes
  | Some img =>
      let centerX := Z2float (Image.width img) / 2 in
      let centerY := Z2float (Image.height img) / 2 in
      match boxes with
      | [] => None
      | first :: _ => Some (closest_from centerX centerY first boxes).1
      end
  end.

End WithHost.
End BestMatch.

(* ================================================================== *)
(** ** Further worked inputs *)
(* ================================================================== *)

Module MoreExamples.
Import ExampleHost Examples.
Local Open Scope float_scope.

(** An engine that has recorded one clean result and one alert. *)
Definition engine_with_history : EngineV2.Engine :=
{| EngineV2.referenceFeatures := Some reference;
   EngineV2.boxRect := Some key_area;
   EngineV2.keyPointRect := Some key_area;
   EngineV2.settings := EngineV2.default_settings;
   EngineV2.isInitialized := true;
   EngineV2.lastDetection := Some EngineV2.analysis_error_result;
   EngineV2.detectionHistory :=
     [{| EngineV2.entry := numbered_result 50; EngineV2.timestamp := 1000 |};
      {| EngineV2.entry := EngineV2.analysis_error_result;
         EngineV2.timestamp := 1001 |}] |}.

(** A reference image of 200 x 200 pixels, of which only the size
    matters here. *)
Definition reference_image : Image.ImageData :=
{| Image.width := 200; Image.height := 200; Image.data := [] |}.

(** The corners of a square of side 2, and a run of pixels on one row. *)
Definition square : list (Z * Z) := [(0, 0); (2, 0); (2, 2); (0, 2)]%Z.
Definition row_of_pixels : list (Z * Z) := (fun x => (x, 0%Z)) <$> seqZ 0 25.

(** An image of 6 x 30 pixels, black on the left half and white on the
    right: a vertical edge. *)
Definition step_image : Image.ImageData :=
{| Image.width := 6; Image.height := 30;
   Image.data :=
     mjoin ((fun p => let v := if (p mod 6 <? 3)%Z then 0%Z else 255%Z in
                      [v; v; v; 255%Z]) <$> seqZ 0 180) |}.

(** Stages that hand a fixed region and a fixed analysis on. *)
Definition fixed_extractROI_try (roi : option unit)
    (_frame : unit) (_rect : option EngineV2.Rectangle)
  : EngineV2.M (option unit) :=
EngineV2.ret roi.

Definition fixed_analyzeROI_try (analysis : EngineV2.Analysis) (_roi : unit)
  : EngineV2.M EngineV2.Analysis :=
EngineV2.ret analysis.

(** The box features of [Contours] as the object the comparator reads;
    an [area] that is [undefined] reads as NaN. *)
Definition engine_features (f : Contours.BoxFeatures) : EngineV2.BoxFeatures :=
{| EngineV2.hasBox := Contours.hasBox f;
   EngineV2.rotation := Contours.rotation f;
   EngineV2.position :=
     {| EngineV2.pt_x := (Contours.position f).1;
        EngineV2.pt_y := (Contours.position f).2 |};
   EngineV2.boundingBox :=
     (fun b => {| EngineV2.x := Z2float (Contours.bb_x b);
                  EngineV2.y := Z2float (Contours.bb_y b);
                  EngineV2.width := Z2float (Contours.bb_width b);
                  EngineV2.height := Z2float (Contours.bb_height b) |})
       <$> Contours.boundingBox f;
   EngineV2.area := default nan (Contours.area f);
   EngineV2.bf_confidence := Contours.confidence f |}.

(** The [try] block of [analyzeROI] as a stage of the engine: the
    analysis of [RegionAnalysis] on the pixels of the region, with the
    constructor's edge thresholds and the engine's [minContourArea]; the
    time stamp is read last. *)
Definition region_analyzeROI_try (principal_angle : list (Z * Z) -> float)
    (roi : ROI.ROIData) : EngineV2.M EngineV2.Analysis :=
EngineV2.bind EngineV2.get_this (fun e =>
match RegionAnalysis.analyzeROI_try principal_angle Filters.default_config
        (EngineV2.minContourArea (EngineV2.settings e))
        (ROI.roi_imageData roi) with
| Normal a =>
    EngineV2.bind EngineV2.Date_now (fun _timestamp =>
    EngineV2.ret
      {| EngineV2.contours := Z.of_nat (RegionAnalysis.contours a);
         EngineV2.features :=
           Some (engine_features (RegionAnalysis.features a)) |})
| Throw err => EngineV2.throw err
end).

(** [findBestMatch] as a stage of the engine. On an empty array it
    returns [undefined], and the comparison that follows reads a property
    of it: a [TypeError]. *)
Definition findBestMatch_stage (referenceImage : option Image.ImageData)
    (boxes : list EngineV1.Box) : EngineV2.M EngineV1.Box :=
match BestMatch.findBestMatch referenceImage boxes with
| Some box => EngineV2.ret box
| None => EngineV2.throw TypeError
end.

(** [analyzeFrame] over the stages of the repository: the canvas
    extraction, the analysis of the region, [detectBoxes] up to its
    first step, and [findBestMatch] without a reference image. *)
Definition repository_analyzeFrame
  : option ROI.FrameData -> EngineV2.PartialSettings
    -> EngineV2.M EngineV2.DetectionResult :=
EngineV2.analyzeFrame ROI.FrameData ROI.ROIData EngineV1.Box
  canvas_extractROI_try (region_analyzeROI_try (fun _ => 0))
  (detectBoxes_try_with (fun _ => EngineV2.ret []))
  (findBestMatch_stage None).

End MoreExamples.

(* ================================================================== *)
(** ** Whole numbers in binary64 *)
(* ================================================================== *)

(** How binary64 encodes an integer below 2^53 in magnitude, and the
    kinds of value [Math.floor] returns; used to follow the arithmetic
    of the extractor and of the contour measures bit by bit. *)
Module Binary64.
Local Open Scope Z_scope.

(** The number of binary digits of [|k|], the mantissa with 53 digits
    and the exponent that encode [k]. *)
Definition digits (k : Z) : Z := Zpos (digits2_pos (Z.to_pos (Z.abs k))).
Definition mantissa_of (k : Z) : positive :=
  Pos.shiftl (Z.to_pos (Z.abs k)) (Z.to_N (53 - digits k)).
Definition exponent_of (k : Z) : Z := digits k - 53.
Definition SF_of_int (k : Z) : spec_float :=
  if k =? 0 then S754_zero false
  else S754_finite (k <? 0) (mantissa_of k) (exponent_of k).
(** [f] is the value [k]; a zero may carry either sign. *)
Definition encodes (f : spec_float) (k : Z) : Prop :=
  if k =? 0 then exists s, f = S754_zero s else f = SF_of_int k.

(** What [Math.floor] returns: NaN, an infinity, a zero, a non-zero
    integer below 2^53 in magnitude, or a float of magnitude 2^52 at
    least. [key] orders these against integers below 2^52. *)
Inductive shape :=
| ShNaN | ShInf (s : bool) | ShZero (s : bool) | ShInt (k : Z) | ShBig (s : bool).

Definition has_shape (f : float) (sh : shape) : Prop :=
  match sh with
  | ShNaN => Prim2SF f = S754_nan
  | ShInf s => Prim2SF f = S754_infinity s
  | ShZero s => Prim2SF f = S754_zero s
  | ShInt k => k <> 0 /\ Z.abs k < 2 ^ 53 /\ f = Z2float k
  | ShBig s => exists m e, Prim2SF f = S754_finite s m e /\ 0 <= e
  end.

Definition key (sh : shape) : Z :=
  match sh with
  | ShNaN | ShZero _ => 0
  | ShInf s => if s then - 2 ^ 53 else 2 ^ 53
  | ShBig s => if s then - 2 ^ 52 else 2 ^ 52
  | ShInt k => k
  end.

(** Anything but NaN. *)
Definition is_number (sh : shape) : bool :=
  match sh with ShNaN => false | _ => true end.

(** Not a negative number: NaN, a zero of either sign, or positive. *)
Definition not_below_zero (f : spec_float) : bool :=
  match f with
  | S754_infinity true | S754_finite true _ _ => false
  | _ => true
  end.

(** The sign bit is clear, or the value is NaN. *)
Definition sign_false (f : spec_float) : bool :=
  match f with
  | S754_zero s | S754_infinity s | S754_finite s _ _ => negb s
  | S754_nan => true
  end.

End Binary64.

(* ================================================================== *)
(** ** What the stages of the repository leave alone *)
(* ================================================================== *)

(** The image stages of the repository read the engine object and never
    write it, and [findBestMatch] returns a box when it is given one. *)
Module Stages.

(** A computation that leaves the engine object as it is; it may read
    the clock and the random source, and it may throw. *)
Definition keeps_engine {A : Type} (m : EngineV2.M A) : Prop :=
forall w, EngineV2.this (m w).2 = EngineV2.this w.

(** A computation that returns. *)
Definition returns {A : Type} (m : EngineV2.M A) : Prop :=
forall w, exists a w', m w = (Normal a, w').

End Stages.

(* ================================================================== *)
(** * Properties *)
(* ================================================================== *)

(** ** The number helpers on sample values *)

Section NumberExamples.
Local Open Scope float_scope.

Example Z2float_50 : Z2float 50 = 50.
Proof. reflexivity. Qed.

Example Math_round_ties : Math_round 2.5 = 3 /\ Math_round (-2.5) = -2.
Proof. split; reflexivity. Qed.

Example Math_round_small :
  Math_round 5.385164807134504 = 5 /\ Math_round (-0.3) = neg_zero
  /\ Math_round 0.49999999999999994 = 0.
Proof. repeat split; reflexivity. Qed.

Example Math_floor_samples :
  Math_floor 69.99 = 69 /\ Math_floor (-0.5) = -1 /\ Math_floor nan = nan.
Proof. repeat split; reflexivity. Qed.

Example Math_min_max_zero :
  Math_min 0 neg_zero = neg_zero /\ Math_max neg_zero 0 = 0.
Proof. split; reflexivity. Qed.

Example Math_min_max_nan : Math_min nan 1 = nan /\ Math_max 1 nan = nan.
Proof. split; reflexivity. Qed.

Example ToUint8Clamp_samples :
  Image.ToUint8Clamp <$> [0.5; 1.5; 2.5; 254.5; 254.6; 300; -3; nan]
  = [0; 2; 2; 254; 255; 255; 0; 0]%Z.
Proof. reflexivity. Qed.
End NumberExamples.

(** ** Comparisons of binary64 values *)

Section FloatFacts.
Local Open Scope float_scope.

Lemma SFcompare_swap (a b : spec_float) :
  SFcompare b a = CompOpp <$> SFcompare a b.
Proof.
  destruct a as [sa|sa| |sa ma ea], b as [sb|sb| |sb mb eb]; simpl;
    try reflexivity;
    try (destruct sa; reflexivity); try (destruct sb; reflexivity);
    try (destruct sa, sb; reflexivity).
  destruct sa, sb; simpl; try reflexivity;
    rewrite (Z.compare_antisym ea eb);
    destruct (ea ?= eb)%Z; simpl; try reflexivity;
    rewrite (Pos.compare_cont_antisym ma mb Eq); simpl;
    reflexivity.
Qed.

Lemma is_nan_false_compare (a b : float) :
  is_nan a = false -> is_nan b = false ->
  exists c, SFcompare (Prim2SF a) (Prim2SF b) = Some c.
Proof.
  unfold is_nan. rewrite !FloatAxioms.eqb_spec. unfold SFeqb.
  destruct (Prim2SF a) as [sa|sa| |sa ma ea];
    destruct (Prim2SF b) as [sb|sb| |sb mb eb]; simpl;
    intros Ha Hb; try discriminate; eauto.
Qed.

(** On numbers, "not at most" is "above". *)
Lemma not_leb_ltb (a b : float) :
  is_nan a = false -> is_nan b = false ->
  negb (a <=? b) = (b <? a).
Proof.
  intros Ha Hb. rewrite leb_spec, ltb_spec. unfold SFleb, SFltb.
  rewrite (SFcompare_swap (Prim2SF a) (Prim2SF b)).
  destruct (is_nan_false_compare a b Ha Hb) as [c ->].
  destruct c; reflexivity.
Qed.

Lemma Prim2SF_inj (a b : float) : Prim2SF a = Prim2SF b -> a = b.
Proof.
  intros E. rewrite <- (SF2Prim_Prim2SF a), <- (SF2Prim_Prim2SF b).
  now rewrite E.
Qed.

Lemma is_zero_spec (r : float) :
  is_zero r = true -> exists s, Prim2SF r = S754_zero s.
Proof.
  unfold is_zero. rewrite FloatAxioms.eqb_spec. unfold SFeqb.
  change (Prim2SF 0) with (S754_zero false).
  destruct (Prim2SF r) as [s|s| |s m e]; simpl; eauto;
    try discriminate; destruct s; discriminate.
Qed.

(** Subtracting -0 or +0 gives the same magnitude. *)
Lemma abs_sub_zero (o r : float) :
  is_zero r = true -> abs (o - r) = abs (o - 0).
Proof.
  intros [s Hr]%is_zero_spec. apply Prim2SF_inj.
  rewrite !abs_spec, !sub_spec, Hr.
  change (Prim2SF 0) with (S754_zero false).
  destruct (Prim2SF o) as [so|so| |so mo eo], s; try reflexivity;
    destruct so; reflexivity.
Qed.

Lemma or_default_zero_sub (o r : float) :
  is_nan r = false -> abs (o - or_default r 0) = abs (o - r).
Proof.
  intros Hr. unfold or_default. rewrite Hr. simpl.
  destruct (is_zero r) eqn:Hz; [|reflexivity].
  symmetry. now apply abs_sub_zero.
Qed.
End FloatFacts.

(** ** The drift comparator *)

Section ComparatorFacts.
Context `{Host}.
Local Open Scope float_scope.

(** The verdict of the box path of the drawing-mode comparator, from the
    two offsets and the two sensitivities. *)
Lemma compareWithReference_box_path (w : EngineV2.World)
    (analysis : EngineV2.Analysis) f ref kp :
  EngineV2.features analysis = Some f ->
  EngineV2.hasBox f = true ->
  EngineV2.referenceFeatures (EngineV2.this w) = Some ref ->
  EngineV2.keyPointRect (EngineV2.this w) = Some kp ->
  let pos := EngineV2.position_offset kp f in
  let rot := EngineV2.normalized_rotation ref f in
  let st := EngineV2.settings (EngineV2.this w) in
  let alert := negb (pos <=? EngineV2.positionSensitivity st)
               || negb (rot <=? EngineV2.rotationSensitivity st) in
  exists r,
    EngineV2.compareWithReference analysis w = (Normal r, w)
    /\ EngineV2.hasAlert r = alert
    /\ EngineV2.confidence r =
         (if alert then Math_max 0 (100 - pos / 5 - rot * 2) else 100)
    /\ EngineV2.box r = Some kp.
Proof.
  intros Hf Hb Href Hkp pos rot st alert.
  unfold EngineV2.compareWithReference, EngineV2.bind, EngineV2.get_this.
  rewrite Href, Hf, Hb, Hkp. simpl.
  fold pos rot st. fold alert.
  destruct alert; eexists; (split; [reflexivity|]); simpl; auto.
Qed.

(** C1. On the box path [compareWithReference] alerts exactly when the
    position offset is not within [positionSensitivity] or the
    normalised rotation offset is not within [rotationSensitivity]
    (for numbers: when one of them exceeds its sensitivity); an alert
    carries the confidence [max(0, 100 - positionOffset/5 -
    rotationOffset*2)], a pass the confidence 100. The same holds for
    the legacy engine. *)
Theorem compareWithReference_verdict :
  (forall (w : EngineV2.World) (analysis : EngineV2.Analysis) f ref kp,
      EngineV2.features analysis = Some f ->
      EngineV2.hasBox f = true ->
      EngineV2.referenceFeatures (EngineV2.this w) = Some ref ->
      EngineV2.keyPointRect (EngineV2.this w) = Some kp ->
      let pos := EngineV2.position_offset kp f in
      let rot := EngineV2.normalized_rotation ref f in
      let ps := EngineV2.positionSensitivity (EngineV2.settings (EngineV2.this w)) in
      let rs := EngineV2.rotationSensitivity (EngineV2.settings (EngineV2.this w)) in
      exists r,
        EngineV2.compareWithReference analysis w = (Normal r, w)
        /\ EngineV2.hasAlert r = negb (pos <=? ps) || negb (rot <=? rs)
        /\ (is_nan pos = false -> is_nan rot = false ->
            is_nan ps = false -> is_nan rs = false ->
            (EngineV2.hasAlert r = true <->
             (ps <? pos) = true \/ (rs <? rot) = true))
        /\ (EngineV2.hasAlert r = true ->
            EngineV2.confidence r = Math_max 0 (100 - pos / 5 - rot * 2))
        /\ (EngineV2.hasAlert r = false -> EngineV2.confidence r = 100))
  /\
  (forall (e : EngineV1.Engine) (b : EngineV1.Box) ref,
      EngineV1.referenceFeatures e = Some ref ->
      let pos := EngineV1.position_offset ref b in
      let rot := EngineV1.normalized_rotation ref b in
      let ps := EngineV1.positionSensitivity (EngineV1.settings e) in
      let rs := EngineV1.rotationSensitivity (EngineV1.settings e) in
      let r := EngineV1.compareWithReference e b in
      EngineV1.hasAlert r = negb (pos <=? ps) || negb (rot <=? rs)
      /\ (is_nan pos = false -> is_nan rot = false ->
          is_nan ps = false -> is_nan rs = false ->
          (EngineV1.hasAlert r = true <->
           (ps <? pos) = true \/ (rs <? rot) = true))
      /\ (EngineV1.hasAlert r = true ->
          EngineV1.confidence r = Math_max 0 (100 - pos / 5 - rot * 2))
      /\ (EngineV1.hasAlert r = false -> EngineV1.confidence r = 100)).
Proof.
  split.
  - intros w analysis f ref kp Hf Hb Href Hkp pos rot ps rs.
    destruct (compareWithReference_box_path w analysis f ref kp Hf Hb Href Hkp)
      as (r & Hr & Ha & Hc & _).
    fold pos rot ps rs in Ha, Hc.
    exists r. split; [exact Hr|]. split; [exact Ha|]. repeat split.
    + rewrite Ha, orb_true_iff. intros [E|E]; [left|right].
      * now rewrite <- not_leb_ltb.
      * now rewrite <- not_leb_ltb.
    + rewrite Ha, orb_true_iff.
      rewrite <- (not_leb_ltb pos ps), <- (not_leb_ltb rot rs) by assumption.
      tauto.
    + intros E. rewrite Hc, <- Ha, E. reflexivity.
    + intros E. rewrite Hc, <- Ha, E. reflexivity.
  - intros e b ref Href pos rot ps rs r.
    assert (Ha : EngineV1.hasAlert r = negb (pos <=? ps) || negb (rot <=? rs)).
    { subst r. unfold EngineV1.compareWithReference. rewrite Href.
      fold pos rot ps rs.
      destruct (negb (pos <=? ps) || negb (rot <=? rs)); reflexivity. }
    assert (Hc : EngineV1.confidence r =
                 if EngineV1.hasAlert r
                 then Math_max 0 (100 - pos / 5 - rot * 2) else 100).
    { subst r. unfold EngineV1.compareWithReference. rewrite Href.
      fold pos rot ps rs.
      destruct (negb (pos <=? ps) || negb (rot <=? rs)); reflexivity. }
    split; [exact Ha|]. repeat split.
    + rewrite Ha, orb_true_iff. intros [E|E]; [left|right].
      * now rewrite <- not_leb_ltb.
      * now rewrite <- not_leb_ltb.
    + rewrite Ha, orb_true_iff.
      rewrite <- (not_leb_ltb pos ps), <- (not_leb_ltb rot rs) by assumption.
      tauto.
    + intros E. rewrite Hc, E. reflexivity.
    + intros E. rewrite Hc, E. reflexivity.
Qed.

(** C2. The rotation offset is [min(|o - r|, 360 - |o - r|)] for the
    observed rotation [o] and the reference rotation [r] (in the
    drawing-mode engine the reference is read as [r || 0], which is [r]
    for every number); for reference 170 and observed -170 it is 20. *)
Theorem rotation_offset_wraparound :
  (forall ref (b : EngineV1.Box),
      let o := EngineV1.rotation b in
      let r := EngineV1.rf_rotation ref in
      EngineV1.normalized_rotation ref b
      = Math_min (Math_abs (o - r)) (360 - Math_abs (o - r)))
  /\ (forall ref (f : EngineV2.BoxFeatures),
      let o := EngineV2.rotation f in
      let r := EngineV2.rf_rotation ref in
      is_nan r = false ->
      EngineV2.normalized_rotation ref f
      = Math_min (Math_abs (o - r)) (360 - Math_abs (o - r)))
  /\ (forall ref (b : EngineV1.Box),
      EngineV1.rf_rotation ref = 170 -> EngineV1.rotation b = -170 ->
      EngineV1.normalized_rotation ref b = 20)
  /\ (forall ref (f : EngineV2.BoxFeatures),
      EngineV2.rf_rotation ref = 170 -> EngineV2.rotation f = -170 ->
      EngineV2.normalized_rotation ref f = 20).
Proof.
  split; [|split; [|split]].
  - reflexivity.
  - intros ref f o r Hr. unfold EngineV2.normalized_rotation, Math_abs.
    fold o r. now rewrite or_default_zero_sub.
  - intros ref b Hr Ho. unfold EngineV1.normalized_rotation.
    rewrite Hr, Ho. reflexivity.
  - intros ref f Hr Ho. unfold EngineV2.normalized_rotation.
    rewrite Hr, Ho. reflexivity.
Qed.

End ComparatorFacts.

(** ** The comparator on the worked inputs *)

Section ComparatorExamples.
Import ExampleHost Examples.
Local Open Scope float_scope.

(** A clean match: centre (105, 102), rotation 1. *)
Example clean_match_passes :
  exists r,
    (EngineV2.compareWithReference (observed 105 102 1 true) world).1
    = Normal r
    /\ EngineV2.hasAlert r = false
    /\ EngineV2.confidence r = 100
    /\ EngineV2.details r
       = Some {| EngineV2.positionOffset := 5;
                 EngineV2.rotationOffset := 1;
                 EngineV2.positionOk := true;
                 EngineV2.rotationOk := true |}.
Proof. eexists. vm_compute. repeat split. Qed.

(** A drift of 50 px: centre (150, 100). *)
Example drift_alerts :
  exists r,
    (EngineV2.compareWithReference (observed 150 100 0 true) world).1
    = Normal r
    /\ EngineV2.hasAlert r = true
    /\ EngineV2.message r = "ตำแหน่งเลื่อน 50px"
    /\ EngineV2.confidence r = 90
    /\ (EngineV2.positionOk <$> EngineV2.details r) = Some false.
Proof. eexists. vm_compute. repeat split. Qed.

Example legacy_wraparound :
  EngineV1.rotationOffset
    <$> EngineV1.details
          (EngineV1.compareWithReference
             {| EngineV1.referenceFeatures :=
                  Some {| EngineV1.rf_width := 200; EngineV1.rf_height := 200;
                          EngineV1.rf_centerX := 100;
                          EngineV1.rf_centerY := 100;
                          EngineV1.rf_rotation := 170;
                          EngineV1.rf_area := 10000 |};
                EngineV1.settings := EngineV1.settings legacy_engine;
                EngineV1.isInitialized := true;
                EngineV1.lastDetection := None;
                EngineV1.detectionHistory := [] |}
             (legacy_box 100 100 (-170)))
  = Some 20.
Proof. vm_compute. reflexivity. Qed.

Lemma compareWithReference_verdict_witness :
  (exists r,
      EngineV2.compareWithReference (observed 150 100 0 true) world
      = (Normal r, world)
      /\ EngineV2.hasAlert r = true
      /\ EngineV2.confidence r = 90)
  /\ EngineV1.hasAlert
       (EngineV1.compareWithReference legacy_engine (legacy_box 105 102 1))
     = false.
Proof.
  split.
  - destruct (proj1 compareWithReference_verdict world
                (observed 150 100 0 true) _ reference key_area
                eq_refl eq_refl eq_refl eq_refl)
      as (r & Hr & Ha & _ & Hc & _).
    exists r. split; [exact Hr|]. split; [exact Ha|].
    rewrite (Hc Ha). vm_compute. reflexivity.
  - exact (proj1 (proj2 compareWithReference_verdict legacy_engine
                    (legacy_box 105 102 1) legacy_reference eq_refl)).
Defined.

Lemma rotation_offset_wraparound_witness :
  EngineV2.normalized_rotation
    {| EngineV2.centerX := 140; EngineV2.centerY := 130;
       EngineV2.rf_rotation := 170; EngineV2.rf_area := 40000 |}
    {| EngineV2.hasBox := true; EngineV2.rotation := -170;
       EngineV2.position := {| EngineV2.pt_x := 100; EngineV2.pt_y := 100 |};
       EngineV2.boundingBox := None; EngineV2.area := 2500;
       EngineV2.bf_confidence := 2.5 |}
  = 20
  /\ is_nan 170 = false.
Proof.
  split; [|reflexivity].
  apply (proj2 (proj2 (proj2 rotation_offset_wraparound)));
    reflexivity.
Defined.

End ComparatorExamples.

(** ** The detection history *)

Section HistoryFacts.

Lemma most_recent_short {A} n (l : list A) :
  (length l <= n)%nat -> most_recent n l = l.
Proof.
  intros Hl. unfold most_recent.
  replace (length l - n)%nat with 0%nat by lia. reflexivity.
Qed.

Lemma length_most_recent {A} n (l : list A) :
  length (most_recent n l) = Nat.min n (length l).
Proof. unfold most_recent. rewrite length_drop. lia. Qed.

(** Extending a window and cutting again is cutting the extended
    sequence. *)
Lemma most_recent_app {A} n (l k : list A) :
  most_recent n (most_recent n l ++ k) = most_recent n (l ++ k).
Proof.
  destruct (decide (length l <= n)%nat) as [Hle|Hgt].
  - now rewrite (most_recent_short n l).
  - unfold most_recent at 1 3.
    rewrite !length_app, length_most_recent. unfold most_recent.
    rewrite !drop_app, drop_drop, length_drop. f_equal.
    + f_equal. lia.
    + f_equal. lia.
Qed.

(** What one push followed by the conditional [shift] leaves. *)
Lemma push_shift_most_recent {A} (h : list A) a :
  (length h <= 100)%nat ->
  (if (100 <? length (h ++ [a]))%nat then tail (h ++ [a]) else h ++ [a])
  = most_recent 100 (h ++ [a]).
Proof.
  intros Hh. rewrite length_app. simpl.
  destruct (100 <? length h + 1)%nat eqn:E.
  - apply Nat.ltb_lt in E. unfold most_recent. rewrite length_app. simpl.
    replace (length h + 1 - 100)%nat with 1%nat by lia.
    now destruct (h ++ [a]).
  - apply Nat.ltb_ge in E. rewrite most_recent_short; [reflexivity|].
    rewrite length_app. simpl. lia.
Qed.

Lemma addToHistory_step (w : EngineV2.World) r :
  (length (EngineV2.detectionHistory (EngineV2.this w)) <= 100)%nat ->
  exists w',
    EngineV2.addToHistory r w = (Normal tt, w')
    /\ EngineV2.detectionHistory (EngineV2.this w')
       = most_recent 100
           (EngineV2.detectionHistory (EngineV2.this w)
            ++ [{| EngineV2.entry := r;
                   EngineV2.timestamp :=
                     EngineV2.clock_tape w (EngineV2.clock_read w) |}]).
Proof.
  intros Hh.
  unfold EngineV2.addToHistory, EngineV2.bind, EngineV2.Date_now,
    EngineV2.set_this, EngineV2.get_this, EngineV2.ret. simpl.
  rewrite <- push_shift_most_recent by exact Hh.
  destruct (100 <? _)%nat; eexists; split; reflexivity.
Qed.

Lemma addAllToHistory_window (results : list EngineV2.DetectionResult) :
  forall w : EngineV2.World,
    (length (EngineV2.detectionHistory (EngineV2.this w)) <= 100)%nat ->
    exists w',
      addAllToHistory results w = (Normal tt, w')
      /\ EngineV2.entry <$> EngineV2.detectionHistory (EngineV2.this w')
         = most_recent 100
             ((EngineV2.entry <$> EngineV2.detectionHistory (EngineV2.this w))
              ++ results).
Proof.
  induction results as [|r rest IH]; intros w Hw.
  - exists w. split; [reflexivity|]. rewrite app_nil_r.
    rewrite most_recent_short; [reflexivity|]. now rewrite length_fmap.
  - destruct (addToHistory_step w r Hw) as (w1 & E1 & H1).
    destruct (IH w1) as (w' & E' & H').
    { rewrite H1, length_most_recent. lia. }
    exists w'. split.
    + simpl. unfold EngineV2.bind. rewrite E1. exact E'.
    + rewrite H', H1. unfold most_recent at 2.
      rewrite fmap_drop, fmap_app, length_app, <- (length_fmap EngineV2.entry).
      simpl. rewrite <- (length_app _ [r]).
      fold (most_recent 100
              ((EngineV2.entry <$> EngineV2.detectionHistory (EngineV2.this w))
               ++ [r])).
      rewrite most_recent_app, <- app_assoc. reflexivity.
Qed.

Lemma addAllToHistoryV1_window
    (calls : list (float * EngineV1.DetectionResult)) :
  forall e : EngineV1.Engine,
    (length (EngineV1.detectionHistory e) <= 100)%nat ->
    EngineV1.entry <$> EngineV1.detectionHistory (addAllToHistoryV1 e calls)
    = most_recent 100
        ((EngineV1.entry <$> EngineV1.detectionHistory e) ++ calls.*2).
Proof.
  induction calls as [|[now r] rest IH]; intros e He.
  - simpl. rewrite app_nil_r.
    rewrite most_recent_short; [reflexivity|]. now rewrite length_fmap.
  - simpl. unfold addAllToHistoryV1 in IH. rewrite IH.
    + unfold EngineV1.addToHistory. simpl.
      rewrite push_shift_most_recent by exact He.
      unfold most_recent at 2.
      rewrite fmap_drop, fmap_app, length_app, <- (length_fmap EngineV1.entry).
      simpl. rewrite <- (length_app _ [r]).
      fold (most_recent 100
              ((EngineV1.entry <$> EngineV1.detectionHistory e) ++ [r])).
      rewrite most_recent_app, <- app_assoc. reflexivity.
    + unfold EngineV1.addToHistory. simpl.
      rewrite push_shift_most_recent by exact He.
      rewrite length_most_recent. lia.
Qed.

(** C4. The history is a sliding window of capacity 100: whatever the
    sequence of [addToHistory] calls, the history holds at most 100
    entries, namely the most recently appended results in the order they
    were appended; after 150 appends to a fresh history exactly 100
    remain, the last 100 appended. The same holds for the legacy
    engine. *)
Theorem history_sliding_window :
  (forall (w : EngineV2.World) (results : list EngineV2.DetectionResult),
      (length (EngineV2.detectionHistory (EngineV2.this w)) <= 100)%nat ->
      exists w',
        addAllToHistory results w = (Normal tt, w')
        /\ (length (EngineV2.detectionHistory (EngineV2.this w')) <= 100)%nat
        /\ EngineV2.entry <$> EngineV2.detectionHistory (EngineV2.this w')
           = most_recent 100
               ((EngineV2.entry
                   <$> EngineV2.detectionHistory (EngineV2.this w))
                ++ results)
        /\ (EngineV2.detectionHistory (EngineV2.this w) = [] ->
            length results = 150%nat ->
            length (EngineV2.detectionHistory (EngineV2.this w')) = 100%nat
            /\ EngineV2.entry <$> EngineV2.detectionHistory (EngineV2.this w')
               = drop 50 results))
  /\
  (forall (e : EngineV1.Engine)
          (calls : list (float * EngineV1.DetectionResult)),
      (length (EngineV1.detectionHistory e) <= 100)%nat ->
      let e' := addAllToHistoryV1 e calls in
      (length (EngineV1.detectionHistory e') <= 100)%nat
      /\ EngineV1.entry <$> EngineV1.detectionHistory e'
         = most_recent 100
             ((EngineV1.entry <$> EngineV1.detectionHistory e) ++ calls.*2)
      /\ (EngineV1.detectionHistory e = [] ->
          length calls = 150%nat ->
          length (EngineV1.detectionHistory e') = 100%nat
          /\ EngineV1.entry <$> EngineV1.detectionHistory e'
             = drop 50 calls.*2)).
Proof.
  split.
  - intros w results Hw.
    destruct (addAllToHistory_window results w Hw) as (w' & E & Hwin).
    assert (Hlen : length (EngineV2.detectionHistory (EngineV2.this w'))
                   = Nat.min 100
                       (length (EngineV2.detectionHistory (EngineV2.this w))
                        + length results)).
    { rewrite <- (length_fmap EngineV2.entry), Hwin, length_most_recent,
        length_app, length_fmap. reflexivity. }
    exists w'. split; [exact E|]. split; [lia|]. split; [exact Hwin|].
    intros Hnil H150. rewrite Hlen, Hwin, Hnil, H150. split; [reflexivity|].
    simpl. unfold most_recent. now rewrite H150.
  - intros e calls He e'.
    pose proof (addAllToHistoryV1_window calls e He) as Hwin. fold e' in Hwin.
    assert (Hlen : length (EngineV1.detectionHistory e')
                   = Nat.min 100
                       (length (EngineV1.detectionHistory e) + length calls)).
    { rewrite <- (length_fmap EngineV1.entry), Hwin, length_most_recent,
        length_app, !length_fmap. reflexivity. }
    split; [lia|]. split; [exact Hwin|].
    intros Hnil H150. rewrite Hlen, Hwin, Hnil, H150. split; [reflexivity|].
    simpl. unfold most_recent. now rewrite length_fmap, H150.
Qed.

(** C9. With an empty history [getStatistics] returns
    [{total: 0, alerts: 0, alertRate: 0, averageConfidence: 100}], in both
    engines, and leaves the engine as it was. *)
Theorem getStatistics_empty_history :
  (forall w : EngineV2.World,
      EngineV2.detectionHistory (EngineV2.this w) = [] ->
      EngineV2.getStatistics w
      = (Normal {| EngineV2.total := 0; EngineV2.alerts := 0;
                   EngineV2.alertRate := 0;
                   EngineV2.averageConfidence := 100 |}, w))
  /\
  (forall e : EngineV1.Engine,
      EngineV1.detectionHistory e = [] ->
      EngineV1.getStatistics e
      = {| EngineV1.total := 0; EngineV1.alerts := 0;
           EngineV1.alertRate := 0;
           EngineV1.averageConfidence := 100 |}).
Proof.
  split.
  - intros w Hw. unfold EngineV2.getStatistics, EngineV2.bind,
      EngineV2.get_this. now rewrite Hw.
  - intros e He. unfold EngineV1.getStatistics. now rewrite He.
Qed.
End HistoryFacts.

(** ** Contours *)

Section ContourFacts.
Import Image.

Lemma length_push_neighbours x y stack :
  length (push_neighbours x y stack) = (8 + length stack)%nat.
Proof. reflexivity. Qed.

(** The loop ends within [8 * (1000 - |contour|) + |stack|] iterations. *)
Lemma traceContour_loop_ends (fuel : nat) data w h :
  forall stack contour visited,
    (8 * (1000 - length contour) + length stack <= fuel)%nat ->
    (length contour <= 1000)%nat ->
    exists c v,
      traceContour_loop fuel data w h stack contour visited = Some (c, v)
      /\ (length c <= 1000)%nat.
Proof.
  induction fuel as [|fuel IH]; intros stack contour visited Hm Hc;
    (destruct stack as [|[x y] rest]; cbn [traceContour_loop];
     [exists contour, visited; split; [reflexivity|exact Hc]|]);
    (destruct (1000 <=? length contour)%nat eqn:Hcap;
     [exists contour, visited; split; [reflexivity|exact Hc]|]);
    apply Nat.leb_gt in Hcap.
  - cbn [length] in Hm. lia.
  - cbn [length] in Hm.
    destruct (_ || is_visited visited (y * w + x)).
    + apply IH; [lia | exact Hc].
    + destruct (strong_edge data (y * w + x)).
      * apply IH.
        -- rewrite length_push_neighbours, length_app. cbn [length]. lia.
        -- rewrite length_app. cbn [length]. lia.
      * apply IH; [lia | exact Hc].
Qed.

(** [traceContour] always returns. *)
Lemma traceContour_returns data w h startX startY visited :
  exists contour visited',
    traceContour data w h startX startY visited = Some (contour, visited').
Proof.
  unfold traceContour, traceContour_fuel.
  destruct (traceContour_loop_ends (8 * 1000 + 1) data w h
              [(startX, startY)] [] visited) as (c & v & E & _);
    [cbn [length]; lia..|].
  now exists c, v.
Qed.

(** C8. [traceContour] terminates on every edge image, from every
    starting pixel and whatever was visited before, and the contour it
    returns has at most 1000 points. *)
Theorem traceContour_terminates_capped :
  forall (data : list Z) (width height startX startY : Z)
         (visited : list bool),
  exists contour visited',
    traceContour data width height startX startY visited
    = Some (contour, visited')
    /\ (length contour <= 1000)%nat.
Proof.
  intros. unfold traceContour, traceContour_fuel.
  apply traceContour_loop_ends; cbn [length]; lia.
Qed.

(** The contours kept are the traced regions of more than 20 points, step
    by step. *)
Lemma findContours_step_filter data w h regions visited p :
  exists regions' visited',
    tracedRegions_step data w h (Some (regions, visited)) p
    = Some (regions', visited')
    /\ findContours_step data w h
         (Some (List.filter (fun c => (20 <? length c)%nat) regions, visited)) p
       = Some (List.filter (fun c => (20 <? length c)%nat) regions', visited').
Proof.
  unfold tracedRegions_step, findContours_step. simpl.
  destruct (negb _ && _); [|eauto].
  destruct (traceContour_returns data w h p.1 p.2 visited) as (c & v & ->).
  simpl. exists (regions ++ [c]), v. split; [reflexivity|].
  rewrite List.filter_app. simpl.
  destruct (20 <? length c)%nat; [reflexivity|now rewrite app_nil_r].
Qed.

Lemma findContours_scan_filter data w h (pixels : list (Z * Z)) :
  forall regions visited,
  exists regions' visited',
    foldl (tracedRegions_step data w h) (Some (regions, visited)) pixels
    = Some (regions', visited')
    /\ foldl (findContours_step data w h)
         (Some (List.filter (fun c => (20 <? length c)%nat) regions, visited))
         pixels
       = Some (List.filter (fun c => (20 <? length c)%nat) regions', visited').
Proof.
  induction pixels as [|p pixels IH]; intros regions visited; cbn [foldl].
  - eauto.
  - destruct (findContours_step_filter data w h regions visited p)
      as (r1 & v1 & -> & ->).
    apply IH.
Qed.

(** C5, as the code has it. [findContours] keeps exactly the traced
    regions of more than 20 points, in the order they were traced: a
    region of 21 points or more is returned, a region of 20 points or
    fewer is discarded. *)
Theorem findContours_keeps_regions_above_20 :
  forall edgeData : ImageData,
  exists regions,
    tracedRegions edgeData = Some regions
    /\ findContours edgeData
       = Some (List.filter (fun c => (20 <? length c)%nat) regions)
    /\ (forall c, c ∈ regions -> (21 <= length c)%nat ->
                  c ∈ default [] (findContours edgeData))
    /\ (forall c, (length c <= 20)%nat ->
                  c ∉ default [] (findContours edgeData)).
Proof.
  intros e. unfold tracedRegions, findContours.
  destruct (findContours_scan_filter (data e) (width e) (height e)
              (scan_order (width e) (height e)) []
              (replicate (Z.to_nat (width e * height e)) false))
    as (regions & v & -> & E).
  simpl in E. rewrite E. simpl. exists regions.
  split; [reflexivity|]. split; [reflexivity|]. split.
  - intros c Hin Hlen. apply list_elem_of_In, List.filter_In.
    split; [now apply list_elem_of_In|]. apply Nat.ltb_lt. lia.
  - intros c Hlen [_ Hc]%list_elem_of_In%List.filter_In.
    apply Nat.ltb_lt in Hc. lia.
Qed.

(** A strip of 20 strong-edge pixels is one traced region of exactly 20
    points, and [findContours] does not return it. *)
Lemma findContours_discards_region_of_20 :
  tracedRegions (uniform_image 20 1 255)
  = Some [(fun x => (x, 0)) <$> seqZ 0 20]
  /\ length ((fun x => (x, 0)) <$> seqZ 0 20) = 20%nat
  /\ findContours (uniform_image 20 1 255) = Some [].
Proof. vm_compute. repeat split. Qed.

Example findContours_keeps_region_of_21 :
  findContours (uniform_image 21 1 255)
  = Some [(fun x => (x, 0)) <$> seqZ 0 21].
Proof. vm_compute. reflexivity. Qed.

(** A blob of 40 x 40 strong pixels is traced in pieces of at most 1000
    points. *)
Example traceContour_cap_reached :
  (fun regions : list (list (Z * Z)) => map length regions)
    <$> tracedRegions (uniform_image 40 40 255)
  = Some [1000; 600]%nat.
Proof. vm_compute. reflexivity. Qed.
End ContourFacts.

(** ** The Gaussian blur *)

Section BlurFacts.
Import Image.
Variable Math_exp : float -> float.

Lemma length_set_index {A} (a : list A) i v :
  length (set_index a i v) = length a.
Proof.
  unfold set_index. destruct (i <? 0); [reflexivity|apply length_insert].
Qed.

Lemma at_index_set_index_ne {A} (a : list A) i j v :
  i <> j -> at_index (set_index a i v) j = at_index a j.
Proof.
  intros Hij. unfold at_index, set_index.
  destruct (j <? 0) eqn:Hj; [reflexivity|].
  destruct (i <? 0) eqn:Hi; [reflexivity|].
  apply list_lookup_insert_ne. lia.
Qed.

Lemma at_index_set_index_eq {A} (a : list A) i v :
  0 <= i < Z.of_nat (length a) -> at_index (set_index a i v) i = Some v.
Proof.
  intros Hi. unfold at_index, set_index.
  destruct (i <? 0) eqn:E; [lia|].
  apply list_lookup_insert_eq. lia.
Qed.

Lemma length_write_pixel output o v a :
  length (write_pixel output o v a) = length output.
Proof. unfold write_pixel. now rewrite !length_set_index. Qed.

Lemma at_index_write_pixel_other output o v a j :
  j < o \/ o + 3 < j ->
  at_index (write_pixel output o v a) j = at_index output j.
Proof.
  intros Hj. unfold write_pixel.
  rewrite !at_index_set_index_ne by lia. reflexivity.
Qed.

Lemma at_index_write_pixel output o v a c :
  0 <= o -> o + 3 < Z.of_nat (length output) -> 0 <= c < 4 ->
  at_index (write_pixel output o v a) (o + c)
  = Some (if c <? 3 then v else a).
Proof.
  intros Ho Hlen Hc. unfold write_pixel.
  assert (c = 0 \/ c = 1 \/ c = 2 \/ c = 3) as [-> | [-> | [-> | ->]]] by lia;
    simpl.
  - rewrite !at_index_set_index_ne by lia. rewrite Z.add_0_r.
    apply at_index_set_index_eq. lia.
  - rewrite !at_index_set_index_ne by lia.
    apply at_index_set_index_eq. rewrite length_set_index. lia.
  - rewrite at_index_set_index_ne by lia.
    apply at_index_set_index_eq. rewrite !length_set_index. lia.
  - apply at_index_set_index_eq. rewrite !length_set_index. lia.
Qed.

Lemma length_blur_fold data w kernel half (ps : list (Z * Z)) :
  forall output,
    length (foldl (blur_step data w kernel half) output ps)
    = length output.
Proof.
  induction ps as [|p ps IH]; intros output; cbn [foldl]; [reflexivity|].
  rewrite IH. apply length_write_pixel.
Qed.

(** A slot that belongs to none of the visited pixels keeps its value. *)
Lemma blur_fold_untouched data w kernel half (ps : list (Z * Z)) j :
  (forall p, p ∈ ps ->
             j < (p.2 * w + p.1) * 4 \/ (p.2 * w + p.1) * 4 + 3 < j) ->
  forall output,
    at_index (foldl (blur_step data w kernel half) output ps) j
    = at_index output j.
Proof.
  induction ps as [|p ps IH]; intros Hps output; cbn [foldl]; [reflexivity|].
  rewrite IH by (intros q Hq; apply Hps; now right).
  apply at_index_write_pixel_other. apply Hps. now left.
Qed.

(** Distinct pixels of a row-major image own disjoint groups of four
    slots. *)
Lemma slots_disjoint w (p q : Z * Z) c :
  0 <= p.1 < w -> 0 <= q.1 < w -> p <> q -> 0 <= c < 4 ->
  (p.2 * w + p.1) * 4 + c < (q.2 * w + q.1) * 4
  \/ (q.2 * w + q.1) * 4 + 3 < (p.2 * w + p.1) * 4 + c.
Proof.
  destruct p as [px py], q as [qx qy]. simpl. intros Hp Hq Hne Hc.
  destruct (Z.lt_trichotomy py qy) as [Hlt|[Heq|Hgt]].
  - left. nia.
  - subst qy. assert (px <> qx) by congruence. lia.
  - right. nia.
Qed.

(** A visited pixel holds the blurred value in its colour channels and
    the alpha of the input. *)
Lemma blur_fold_written data w kernel half (ps : list (Z * Z)) p c :
  (forall q, q ∈ ps -> 0 <= q.1 < w /\ 0 <= q.2) ->
  p ∈ ps -> 0 <= c < 4 ->
  forall output,
    (p.2 * w + p.1) * 4 + 3 < Z.of_nat (length output) ->
    at_index (foldl (blur_step data w kernel half) output ps)
      ((p.2 * w + p.1) * 4 + c)
    = Some (if c <? 3
            then blurred_value data w kernel half p.1 p.2
            else default 0 (at_index data ((p.2 * w + p.1) * 4 + 3))).
Proof.
  intros Hps Hp Hc.
  induction ps as [|q ps IH]; intros output Hlen; [now apply elem_of_nil in Hp|].
  cbn [foldl].
  destruct (decide (p ∈ ps)) as [Hin|Hnot].
  - apply IH; [intros r Hr; apply Hps; now right|exact Hin|].
    unfold blur_step. now rewrite length_write_pixel.
  - apply elem_of_cons in Hp as [->|Hp]; [|contradiction].
    rewrite blur_fold_untouched.
    + unfold blur_step. apply at_index_write_pixel; [|exact Hlen|exact Hc].
      destruct (Hps q) as [? ?]; [now left|]. nia.
    + intros r Hr. apply slots_disjoint; [| |congruence|exact Hc].
      * apply Hps. now left.
      * apply Hps. now right.
Qed.

Lemma elem_of_blur_order w h half x y :
  (x, y) ∈ blur_order w h half
  <-> (half <= y < h - half) /\ (half <= x < w - half).
Proof.
  unfold blur_order. rewrite list_elem_of_bind. split.
  - intros (y' & Hx & Hy). apply list_elem_of_bind in Hx as (x' & Hx & Hx').
    apply list_elem_of_singleton in Hx. inversion Hx; subst.
    apply elem_of_seqZ in Hy, Hx'. lia.
  - intros [Hy Hx]. exists y. split; [|apply elem_of_seqZ; lia].
    apply list_elem_of_bind. exists x.
    split; [now apply list_elem_of_singleton|apply elem_of_seqZ; lia].
Qed.

Lemma length_createGaussianKernel radius :
  0 <= radius ->
  Z.of_nat (length (createGaussianKernel Math_exp radius)) = radius * 2 + 1.
Proof.
  intros Hr. unfold createGaussianKernel.
  rewrite length_fmap, length_seqZ. lia.
Qed.

Lemma new_ImageData_ok (data : list Z) w h :
  0 < w -> 0 < h -> Z.of_nat (length data) = 4 * w * h ->
  new_ImageData data w h = Normal {| width := w; height := h; data := data |}.
Proof.
  intros Hw Hh Hlen. unfold new_ImageData. rewrite Hlen.
  replace (4 * w * h) with (w * h * 4) by lia.
  rewrite Z.mod_mul, Z.div_mul by lia.
  rewrite (Z.mul_comm w h), Z.mod_mul, Z.div_mul by lia.
  replace (h * w * 4 =? 0) with false by (symmetry; apply Z.eqb_neq; nia).
  replace (w =? 0) with false by (symmetry; apply Z.eqb_neq; lia).
  rewrite !Z.eqb_refl. reflexivity.
Qed.

(** C6, as the code has it. The blur writes only the interior pixels:
    the colour channels of a pixel at least [radius] away from every edge
    receive the normalised convolution and its alpha is the input's,
    while every pixel within [radius] of an edge is left as the fresh
    output buffer has it, all four channels 0. *)
Theorem applyGaussianBlur_border_untouched :
  forall (imageData : ImageData) (radius : Z),
    0 <= radius ->
    0 < width imageData -> 0 < height imageData ->
    Z.of_nat (length (data imageData))
    = 4 * width imageData * height imageData ->
    exists output,
      applyGaussianBlur Math_exp imageData radius = Normal output
      /\ width output = width imageData
      /\ height output = height imageData
      /\ forall x y,
          0 <= x < width imageData -> 0 <= y < height imageData ->
          let idx := (y * width imageData + x) * 4 in
          let interior :=
            (radius <= x < width imageData - radius)
            /\ (radius <= y < height imageData - radius) in
          (interior ->
           (forall c, 0 <= c < 3 ->
                      at_index (data output) (idx + c)
                      = Some (blurred_value (data imageData) (width imageData)
                                (createGaussianKernel Math_exp radius)
                                radius x y))
           /\ at_index (data output) (idx + 3)
              = at_index (data imageData) (idx + 3))
          /\ (~ interior ->
              forall c, 0 <= c < 4 ->
                        at_index (data output) (idx + c) = Some 0).
Proof.
  intros img radius Hr Hw Hh Hlen. unfold applyGaussianBlur.
  set (kernel := createGaussianKernel Math_exp radius).
  assert (Hhalf : Z.of_nat (length kernel) / 2 = radius).
  { unfold kernel. rewrite length_createGaussianKernel by exact Hr.
    symmetry. apply (Z.div_unique _ _ _ 1); lia. }
  rewrite Hhalf.
  set (out := foldl _ _ _).
  assert (Hout : length out = length (data img)).
  { unfold out. now rewrite length_blur_fold, length_replicate. }
  rewrite new_ImageData_ok by (try assumption; now rewrite Hout).
  eexists. split; [reflexivity|]. simpl. split; [reflexivity|].
  split; [reflexivity|].
  intros x y Hx Hy. set (idx := (y * width img + x) * 4).
  assert (Hidx : 0 <= idx /\ idx + 3 < Z.of_nat (length (data img))).
  { unfold idx. rewrite Hlen. nia. }
  split.
  - intros [Hix Hiy].
    assert (Hin : (x, y) ∈ blur_order (width img) (height img) radius)
      by (apply elem_of_blur_order; lia).
    assert (Hps : forall q, q ∈ blur_order (width img) (height img) radius ->
                            0 <= q.1 < width img /\ 0 <= q.2).
    { intros [qx qy] Hq. apply elem_of_blur_order in Hq. simpl. lia. }
    split.
    + intros c Hc. unfold out.
      rewrite (blur_fold_written (data img) (width img) kernel radius
                 _ (x, y) c Hps Hin) by (try lia; rewrite length_replicate; simpl; lia).
      simpl. replace (c <? 3) with true by (symmetry; apply Z.ltb_lt; lia).
      reflexivity.
    + unfold out.
      rewrite (blur_fold_written (data img) (width img) kernel radius
                 _ (x, y) 3 Hps Hin) by (try lia; rewrite length_replicate; simpl; lia).
      simpl. fold idx. unfold at_index.
      destruct (idx + 3 <? 0) eqn:E; [lia|].
      destruct (lookup_lt_is_Some_2 (data img) (Z.to_nat (idx + 3))) as [a ->];
        [lia|reflexivity].
  - intros Hborder c Hc. unfold out.
    rewrite blur_fold_untouched.
    + unfold at_index. destruct (idx + c <? 0) eqn:E; [lia|].
      apply lookup_replicate_2. lia.
    + intros [qx qy] Hq. pose proof Hq as Hq'.
      apply elem_of_blur_order in Hq'.
      apply (slots_disjoint (width img) (x, y) (qx, qy) c); simpl; try lia.
      intros Heq. assert (x = qx /\ y = qy) as [Ex Ey] by (now inversion Heq).
      apply Hborder. lia.
Qed.

End BlurFacts.

Section BlurExamples.
Import Image.

(** In a 2 x 2 image every pixel is within radius 1 of an edge; blurred
    with that radius the image comes out as transparent black, whatever
    [Math.exp] returns. *)
Example applyGaussianBlur_all_border :
  forall Math_exp,
    applyGaussianBlur Math_exp (uniform_image 2 2 200) 1
    = Normal {| width := 2; height := 2; data := replicate 16%nat 0 |}.
Proof. reflexivity. Qed.

(** The first pixel of that image, (200, 200, 200, 255), is not copied:
    it comes out as (0, 0, 0, 0). *)
Lemma applyGaussianBlur_border_not_copied :
  exists output,
    applyGaussianBlur Examples.exp_taylor (uniform_image 2 2 200) 1
    = Normal output
    /\ (at_index (data output)) <$> [0; 1; 2; 3]
       = [Some 0; Some 0; Some 0; Some 0]
    /\ (at_index (data (uniform_image 2 2 200))) <$> [0; 1; 2; 3]
       = [Some 200; Some 200; Some 200; Some 255].
Proof.
  exists {| width := 2; height := 2; data := replicate 16%nat 0 |}.
  split; [reflexivity|]. split; vm_compute; reflexivity.
Qed.
End BlurExamples.



(** ** The remaining worked inputs *)

Section WorkedInputs.
Import ExampleHost Examples.
Local Open Scope float_scope.

Lemma history_sliding_window_witness :
  exists w',
    addAllToHistory results_150 (world_of EngineV2.new_engine 0.5) = (Normal tt, w')
    /\ EngineV2.confidence
       <$> (EngineV2.entry
              <$> EngineV2.detectionHistory (EngineV2.this w'))
       = Z2float <$> seqZ 50 100.
Proof.
  destruct (proj1 history_sliding_window (world_of EngineV2.new_engine 0.5)
              results_150 (Nat.le_0_l 100))
    as (w' & E & _ & _ & H150).
  destruct (H150 eq_refl eq_refl) as [_ Hlast].
  exists w'. split; [exact E|]. rewrite Hlast. vm_compute. reflexivity.
Defined.

Example statistics_of_two :
  (EngineV2.bind (addAllToHistory [numbered_result 50;
                                   EngineV2.analysis_error_result])
     (fun _ => EngineV2.getStatistics) (world_of EngineV2.new_engine 0.5)).1
  = Normal {| EngineV2.total := 2; EngineV2.alerts := 1;
              EngineV2.alertRate := 50;
              EngineV2.averageConfidence := 25 |}.
Proof. vm_compute. reflexivity. Qed.

Lemma getStatistics_empty_history_witness :
  EngineV2.getStatistics (world_of EngineV2.new_engine 0.5)
  = (Normal {| EngineV2.total := 0; EngineV2.alerts := 0;
               EngineV2.alertRate := 0;
               EngineV2.averageConfidence := 100 |},
     world_of EngineV2.new_engine 0.5).
Proof.
  exact (proj1 getStatistics_empty_history (world_of EngineV2.new_engine 0.5) eq_refl).
Defined.

Lemma applyGaussianBlur_border_untouched_witness :
  exists output,
    Image.applyGaussianBlur exp_taylor (Image.uniform_image 5 5 200) 1
    = Normal output
    /\ Image.at_index (Image.data output) 0 = Some 0%Z
    /\ Image.at_index (Image.data output) ((1 * 5 + 1) * 4) = Some 200%Z.
Proof.
  destruct (applyGaussianBlur_border_untouched exp_taylor
              (Image.uniform_image 5 5 200) 1
              ltac:(lia) ltac:(simpl; lia) ltac:(simpl; lia) eq_refl)
    as (output & E & _ & _ & Hpix).
  exists output. split; [exact E|]. split.
  - apply (proj2 (Hpix 0 0 ltac:(simpl; lia) ltac:(simpl; lia))%Z
             ltac:(simpl; lia) 0%Z ltac:(lia)).
  - pose proof (proj1 (proj1 (Hpix 1 1 ltac:(simpl; lia) ltac:(simpl; lia))%Z
                         ltac:(simpl; lia)) 0%Z ltac:(lia)) as Hv.
    etransitivity; [exact Hv|]. vm_compute. reflexivity.
Defined.

End WorkedInputs.
(** ** The order of binary64 values *)

Section FloatOrder.
Local Open Scope float_scope.

Ltac cmp_cases :=
  repeat match goal with
  | |- context [(?a ?= ?b)%Z] =>
      let H := fresh in destruct (Z.compare_spec a b) as [H|H|H]
  | H : context [(?a ?= ?b)%Z] |- _ =>
      let H' := fresh in destruct (Z.compare_spec a b) as [H'|H'|H']
  | |- context [Pos.compare_cont Eq ?a ?b] =>
      change (Pos.compare_cont Eq a b) with (a ?= b)%positive
  | H : context [Pos.compare_cont Eq ?a ?b] |- _ =>
      change (Pos.compare_cont Eq a b) with (a ?= b)%positive in H
  | |- context [(?a ?= ?b)%positive] =>
      let H := fresh in destruct (Pos.compare_spec a b) as [H|H|H]
  | H : context [(?a ?= ?b)%positive] |- _ =>
      let H' := fresh in destruct (Pos.compare_spec a b) as [H'|H'|H']
  end.

(** "Below or equal" composes: two steps that are not [Gt] give [Eq] when
    both are [Eq] and [Lt] otherwise. *)
Lemma SFcompare_chain (a b c : spec_float) c1 c2 :
  SFcompare a b = Some c1 -> SFcompare b c = Some c2 ->
  c1 <> Gt -> c2 <> Gt ->
  SFcompare a c
  = Some (match c1, c2 with Eq, Eq => Eq | _, _ => Lt end).
Proof.
  destruct a as [sa|sa| |sa ma ea], b as [sb|sb| |sb mb eb],
    c as [sc|sc| |sc mc ec]; simpl; intros H1 H2 L1 L2;
    try discriminate;
    try (destruct sa; simpl in * );
    try (destruct sb; simpl in * );
    try (destruct sc; simpl in * );
    simplify_eq; simpl in *; try congruence.
  all: cmp_cases; simplify_eq; simpl in *; try congruence; try lia.
Qed.

Lemma ltb_fcmp a b : (a <? b) = true <-> fcmp a b = Some Lt.
Proof.
  rewrite ltb_spec. unfold SFltb, fcmp.
  destruct (SFcompare _ _) as [[]|]; split; congruence.
Qed.

Lemma leb_fcmp a b :
  (a <=? b) = true <-> fcmp a b = Some Lt \/ fcmp a b = Some Eq.
Proof.
  rewrite leb_spec. unfold SFleb, fcmp.
  destruct (SFcompare _ _) as [[]|]; split; intros; try congruence; auto;
    destruct H; congruence.
Qed.

Lemma fcmp_swap a b : fcmp b a = CompOpp <$> fcmp a b.
Proof. apply SFcompare_swap. Qed.

Lemma is_nan_Prim2SF a : is_nan a = true <-> Prim2SF a = S754_nan.
Proof.
  unfold is_nan. rewrite FloatAxioms.eqb_spec. unfold SFeqb.
  destruct (Prim2SF a) as [s|s| |s m e]; simpl.
  - split; discriminate.
  - destruct s; split; discriminate.
  - split; reflexivity.
  - destruct s; rewrite Z.compare_refl, Pos.compare_cont_refl;
      split; discriminate.
Qed.

Lemma fcmp_numbers a b c :
  fcmp a b = Some c -> is_nan a = false /\ is_nan b = false.
Proof.
  unfold fcmp. intros E.
  split; apply not_true_is_false; rewrite is_nan_Prim2SF; intros N;
    rewrite N in E; [discriminate|].
  destruct (Prim2SF a); discriminate.
Qed.

Lemma fcmp_refl a : is_nan a = false -> fcmp a a = Some Eq.
Proof.
  intros Ha. destruct (is_nan_false_compare a a Ha Ha) as [c E].
  fold (fcmp a a) in E. pose proof (fcmp_swap a a) as S. rewrite E in S.
  simpl in S. destruct c; [exact E|discriminate S|discriminate S].
Qed.

Lemma leb_refl a : is_nan a = false -> (a <=? a) = true.
Proof. intros Ha. apply leb_fcmp. right. now apply fcmp_refl. Qed.

Lemma ltb_leb a b : (a <? b) = true -> (a <=? b) = true.
Proof. rewrite ltb_fcmp, leb_fcmp. auto. Qed.

Lemma leb_ltb_false a b : (a <=? b) = true -> (b <? a) = false.
Proof.
  rewrite leb_fcmp. intros H. apply not_true_is_false. rewrite ltb_fcmp.
  rewrite fcmp_swap. destruct H as [-> | ->]; discriminate.
Qed.

Lemma ltb_false_leb a b :
  is_nan a = false -> is_nan b = false -> (a <? b) = false -> (b <=? a) = true.
Proof.
  intros Ha Hb H. rewrite <- (not_leb_ltb b a Hb Ha) in H.
  now apply negb_false_iff in H.
Qed.

Lemma not_leb_ltb' a b :
  is_nan a = false -> is_nan b = false -> negb (a <? b) = (b <=? a).
Proof.
  intros Ha Hb. rewrite <- (not_leb_ltb b a Hb Ha). apply negb_involutive.
Qed.

Lemma leb_numbers a b :
  (a <=? b) = true -> is_nan a = false /\ is_nan b = false.
Proof. rewrite leb_fcmp. intros [H|H]; exact (fcmp_numbers _ _ _ H). Qed.

Lemma leb_trans a b c :
  (a <=? b) = true -> (b <=? c) = true -> (a <=? c) = true.
Proof.
  rewrite !leb_fcmp. unfold fcmp. intros H1 H2.
  destruct H1 as [H1|H1], H2 as [H2|H2];
    rewrite (SFcompare_chain _ _ _ _ _ H1 H2) by discriminate; auto.
Qed.

Lemma ltb_leb_trans a b c :
  (a <? b) = true -> (b <=? c) = true -> (a <? c) = true.
Proof.
  rewrite !ltb_fcmp, leb_fcmp. unfold fcmp. intros H1 H2.
  destruct H2 as [H2|H2];
    now rewrite (SFcompare_chain _ _ _ _ _ H1 H2) by discriminate.
Qed.

Lemma leb_ltb_trans a b c :
  (a <=? b) = true -> (b <? c) = true -> (a <? c) = true.
Proof.
  rewrite !ltb_fcmp, leb_fcmp. unfold fcmp. intros H1 H2.
  destruct H1 as [H1|H1];
    now rewrite (SFcompare_chain _ _ _ _ _ H1 H2) by discriminate.
Qed.

(** Neither below nor above, for numbers, is "equal" to [=?]. *)
Lemma neither_ltb_eqb a b :
  is_nan a = false -> is_nan b = false ->
  (a <? b) = false -> (b <? a) = false -> (a =? b) = true.
Proof.
  intros Ha Hb H1 H2. rewrite FloatAxioms.eqb_spec. unfold SFeqb.
  destruct (is_nan_false_compare a b Ha Hb) as [c E]. rewrite E.
  destruct c; [reflexivity| |].
  - apply not_true_iff_false in H1. exfalso. apply H1.
    now apply ltb_fcmp.
  - apply not_true_iff_false in H2. exfalso. apply H2.
    apply ltb_fcmp. rewrite fcmp_swap. unfold fcmp. now rewrite E.
Qed.

Lemma is_neg_zero_Prim2SF a :
  is_neg_zero a = true <-> Prim2SF a = S754_zero true.
Proof.
  unfold is_neg_zero. rewrite classify_spec.
  unfold SF64classify, SFclassify.
  destruct (Prim2SF a) as [[]|[]| |[] m e]; simpl;
    repeat case_match; split; congruence.
Qed.
End FloatOrder.

(** ** The geometry helpers *)

Section UtilsFacts.
Local Open Scope float_scope.

Lemma Math_max_bounds a b :
  is_nan a = false -> is_nan b = false ->
  (Math_max a b = a \/ Math_max a b = b)
  /\ (a <=? Math_max a b) = true /\ (b <=? Math_max a b) = true.
Proof.
  intros Ha Hb. unfold Math_max. rewrite Ha, Hb. simpl.
  destruct (a <? b) eqn:E1.
  - split; [now right|]. split; [now apply ltb_leb|now apply leb_refl].
  - destruct (b <? a) eqn:E2.
    + split; [now left|]. split; [now apply leb_refl|now apply ltb_leb].
    + pose proof (ltb_false_leb a b Ha Hb E1).
      pose proof (ltb_false_leb b a Hb Ha E2).
      destruct (is_neg_zero a).
      * split; [now right|]. split; [assumption|now apply leb_refl].
      * split; [now left|]. split; [now apply leb_refl|assumption].
Qed.

Lemma Math_min_bounds a b :
  is_nan a = false -> is_nan b = false ->
  (Math_min a b = a \/ Math_min a b = b)
  /\ (Math_min a b <=? a) = true /\ (Math_min a b <=? b) = true.
Proof.
  intros Ha Hb. unfold Math_min. rewrite Ha, Hb. simpl.
  destruct (a <? b) eqn:E1.
  - split; [now left|]. split; [now apply leb_refl|now apply ltb_leb].
  - destruct (b <? a) eqn:E2.
    + split; [now right|]. split; [now apply ltb_leb|now apply leb_refl].
    + pose proof (ltb_false_leb a b Ha Hb E1).
      pose proof (ltb_false_leb b a Hb Ha E2).
      destruct (is_neg_zero a).
      * split; [now left|]. split; [now apply leb_refl|assumption].
      * split; [now right|]. split; [assumption|now apply leb_refl].
Qed.

Lemma Math_max_numbers a b :
  is_nan a = false -> is_nan b = false -> is_nan (Math_max a b) = false.
Proof.
  intros Ha Hb.
  destruct (Math_max_bounds a b Ha Hb) as [[-> | ->] _]; assumption.
Qed.

(** X1. [clamp] keeps a number within bounds that are in order, and
    leaves a value that is within them numerically unchanged. *)
Theorem clamp_within_bounds (value min max : float) :
  is_nan value = false -> (min <=? max) = true ->
  (min <=? Utils.clamp value min max) = true
  /\ (Utils.clamp value min max <=? max) = true
  /\ ((min <=? value) = true -> (value <=? max) = true ->
      (Utils.clamp value min max =? value) = true).
Proof.
  intros Hv Hmm. destruct (leb_numbers _ _ Hmm) as [Hlo Hhi].
  unfold Utils.clamp.
  destruct (Math_max_bounds value min Hv Hlo) as (Hm & Hvm & Hlm).
  pose proof (Math_max_numbers value min Hv Hlo) as Hmn.
  set (m := Math_max value min) in *.
  destruct (Math_min_bounds m max Hmn Hhi) as (Hr & Hrm & Hrh).
  assert (Hlr : (min <=? Math_min m max) = true)
    by (destruct Hr as [-> | ->]; assumption).
  split; [exact Hlr|]. split; [exact Hrh|].
  intros Hlv Hvh.
  assert (Hmv : (m <=? value) = true).
  { destruct Hm as [-> | ->]; [now apply leb_refl|assumption]. }
  assert (Hvr : (value <=? Math_min m max) = true)
    by (destruct Hr as [-> | ->]; assumption).
  assert (Hrv : (Math_min m max <=? value) = true)
    by (apply (leb_trans _ m); assumption).
  destruct (leb_numbers _ _ Hrv) as [Hn _].
  apply neither_ltb_eqb; try assumption; now apply leb_ltb_false.
Qed.

(** X2. With the bounds out of order, [max] below [min], [clamp] returns
    [max] whatever the number; and a NaN value gives NaN. *)
Theorem clamp_inverted_bounds (value min max : float) :
  (is_nan value = false -> (max <? min) = true ->
   Utils.clamp value min max = max)
  /\ (is_nan value = true -> Utils.clamp value min max = nan).
Proof.
  split.
  - intros Hv Hinv.
    pose proof (proj1 (ltb_fcmp _ _) Hinv) as E.
    destruct (fcmp_numbers _ _ _ E) as [Hhi Hlo].
    unfold Utils.clamp.
    destruct (Math_max_bounds value min Hv Hlo) as (_ & _ & Hlm).
    pose proof (Math_max_numbers value min Hv Hlo) as Hmn.
    set (m := Math_max value min) in *.
    assert (Hlt : (max <? m) = true) by (eapply ltb_leb_trans; eassumption).
    unfold Math_min. rewrite Hmn, Hhi. simpl.
    rewrite (leb_ltb_false _ _ (ltb_leb _ _ Hlt)), Hlt. reflexivity.
  - intros Hv. unfold Utils.clamp, Math_max. rewrite Hv. reflexivity.
Qed.




(** X4. [rectsIntersect] does not depend on the order of its
    arguments. *)
Theorem rectsIntersect_symmetric (rect1 rect2 : Utils.Rect) :
  Utils.rectsIntersect rect1 rect2 = Utils.rectsIntersect rect2 rect1.
Proof.
  unfold Utils.rectsIntersect. f_equal.
  repeat match goal with |- context [?p <? ?q] =>
    let v := fresh "c" in set (v := p <? q) end.
  destruct c, c0, c1, c2; reflexivity.
Qed.

Lemma add_zero_compare (a b : float) :
  fcmp (a + 0) b = fcmp a b /\ fcmp b (a + 0) = fcmp b a.
Proof.
  unfold fcmp. rewrite add_spec.
  change (Prim2SF 0) with (S754_zero false).
  destruct (Prim2SF a) as [[]|[]| |[] m e], (Prim2SF b) as [[]|[]| |[] m' e'];
    split; reflexivity.
Qed.

Lemma add_zero_ltb (a b : float) : (a + 0 <? b) = (a <? b).
Proof.
  rewrite !ltb_spec. unfold SFltb.
  change (SFcompare (Prim2SF (a + 0)) (Prim2SF b)) with (fcmp (a + 0) b).
  now rewrite (proj1 (add_zero_compare a b)).
Qed.

(** X5. For numbers, a point is in a rectangle exactly when the
    rectangle intersects the rectangle of no extent at that point: both
    tests count the border as inside. *)
Theorem pointInRect_as_intersection (point : Utils.Point) (rect : Utils.Rect) :
  is_nan (Utils.x point) = false -> is_nan (Utils.y point) = false ->
  is_nan (Utils.rect_x rect) = false -> is_nan (Utils.rect_y rect) = false ->
  is_nan (Utils.rect_x rect + Utils.rect_width rect) = false ->
  is_nan (Utils.rect_y rect + Utils.rect_height rect) = false ->
  Utils.pointInRect point rect
  = Utils.rectsIntersect rect
      {| Utils.rect_x := Utils.x point; Utils.rect_y := Utils.y point;
         Utils.rect_width := 0; Utils.rect_height := 0 |}.
Proof.
  intros Hx Hy Hrx Hry Hrw Hrh.
  unfold Utils.pointInRect, Utils.rectsIntersect. simpl.
  rewrite !add_zero_ltb, !negb_orb.
  rewrite !not_leb_ltb' by assumption.
  repeat match goal with |- context [?p <=? ?q] =>
    let v := fresh "c" in set (v := p <=? q) end.
  destruct c, c0, c1, c2; reflexivity.
Qed.

(** X6. On whole degrees [normalizeAngle] returns the angle in 0..359
    that differs from its argument by a multiple of 360, and normalising
    twice changes nothing. *)
Theorem normalizeAngle_range (angle : Z) :
  (0 <= Utils.normalizeAngle angle < 360)%Z
  /\ ((Utils.normalizeAngle angle - angle) mod 360 = 0)%Z
  /\ Utils.normalizeAngle (Utils.normalizeAngle angle)
     = Utils.normalizeAngle angle.
Proof.
  assert (Hr : forall a, (0 <= Utils.normalizeAngle a < 360)%Z
                         /\ exists k, (Utils.normalizeAngle a = a + 360 * k)%Z).
  { intros a. unfold Utils.normalizeAngle.
    pose proof (Z.quot_rem' a 360) as Hq.
    destruct (Z.le_gt_cases 0 a) as [Hp|Hn].
    - assert (Hb : (0 <= Z.rem a 360 < 360)%Z)
        by (apply Z.rem_bound_pos; lia).
      destruct (Z.rem a 360 <? 0)%Z eqn:E; [apply Z.ltb_lt in E; lia|].
      split; [lia|]. exists (- Z.quot a 360)%Z. lia.
    - pose proof (Z.rem_bound_pos_neg a 360 eq_refl (Z.lt_le_incl _ _ Hn)) as Hb.
      destruct (Z.rem a 360 <? 0)%Z eqn:E;
        [apply Z.ltb_lt in E|apply Z.ltb_ge in E].
      + split; [lia|]. exists (1 - Z.quot a 360)%Z. lia.
      + split; [lia|]. exists (- Z.quot a 360)%Z. lia. }
  destruct (Hr angle) as [Hb [k Hk]]. split; [exact Hb|]. split.
  - rewrite Hk. replace (angle + 360 * k - angle)%Z with (k * 360)%Z by lia.
    apply Z.mod_mul. lia.
  - unfold Utils.normalizeAngle at 1.
    rewrite Z.rem_small by exact Hb.
    destruct (_ <? 0)%Z eqn:E; [apply Z.ltb_lt in E; lia|reflexivity].
Qed.
End UtilsFacts.

(** ** Statistics, settings and the life cycle of a frame *)

Section EngineFacts.
Local Open Scope float_scope.

(** The alert rates of every history the window can hold, computed. *)
Lemma alert_rate_table :
  forallb (fun n =>
    forallb (fun a =>
      let r := Z2float a / Z2float n * 100 in
      (0 <=? r) && (r <=? 100)
      && implb (a =? 0)%Z (Leibniz.eqb r 0)
      && implb (a =? n)%Z (Leibniz.eqb r 100))
    (seqZ 0 (n + 1)))
  (seqZ 1 100) = true.
Proof. vm_compute. reflexivity. Qed.

Lemma alert_rate_bounds (a n : Z) :
  (0 <= a <= n)%Z -> (1 <= n <= 100)%Z ->
  let r := Z2float a / Z2float n * 100 in
  (0 <=? r) = true /\ (r <=? 100) = true
  /\ (a = 0%Z -> r = 0) /\ (a = n -> r = 100).
Proof.
  intros Ha Hn r.
  pose proof alert_rate_table as T.
  rewrite forallb_forall in T.
  specialize (T n). rewrite forallb_forall in T.
  assert (Hin : In a (seqZ 0 (n + 1))).
  { apply list_elem_of_In, elem_of_seqZ. lia. }
  assert (Hin' : In n (seqZ 1 100)).
  { apply list_elem_of_In, elem_of_seqZ. lia. }
  specialize (T Hin' a Hin). cbv zeta in T. fold r in T.
  apply andb_prop in T as [T T4]. apply andb_prop in T as [T T3].
  apply andb_prop in T as [T1 T2].
  repeat split; try assumption.
  - intros ->. rewrite Z.eqb_refl in T3. now apply Leibniz.eqb_spec.
  - intros E. apply Z.eqb_eq in E. rewrite E in T4.
    now apply Leibniz.eqb_spec.
Qed.

Lemma alert_count_le (h : list EngineV2.HistoryEntry) :
  (Upkeep.alert_count h <= length h)%nat.
Proof. apply List.filter_length_le. Qed.

Lemma alert_count_none (h : list EngineV2.HistoryEntry) :
  Forall (fun d => EngineV2.hasAlert (EngineV2.entry d) = false) h ->
  Upkeep.alert_count h = 0%nat.
Proof.
  unfold Upkeep.alert_count. induction 1 as [|d h Hd _ IH]; [reflexivity|].
  simpl. now rewrite Hd.
Qed.

Lemma alert_count_all (h : list EngineV2.HistoryEntry) :
  Forall (fun d => EngineV2.hasAlert (EngineV2.entry d) = true) h ->
  Upkeep.alert_count h = length h.
Proof.
  unfold Upkeep.alert_count. induction 1 as [|d h Hd _ IH]; [reflexivity|].
  simpl. rewrite Hd. simpl. now rewrite IH.
Qed.

(** X7. On a history of 1 to 100 entries [getStatistics] reports its length
    and the number of entries with an alert, changes nothing, and the
    alert rate it computes in floating point is a percentage: between 0
    and 100, exactly 0 when no entry carries an alert and exactly 100
    when all do. *)
Theorem getStatistics_alert_rate (w : EngineV2.World) :
  let h := EngineV2.detectionHistory (EngineV2.this w) in
  h <> [] -> (length h <= 100)%nat ->
  exists s,
    EngineV2.getStatistics w = (Normal s, w)
    /\ EngineV2.total s = Z2float (Z.of_nat (length h))
    /\ EngineV2.alerts s = Z2float (Z.of_nat (Upkeep.alert_count h))
    /\ (0 <=? EngineV2.alertRate s) = true
    /\ (EngineV2.alertRate s <=? 100) = true
    /\ (Forall (fun d => EngineV2.hasAlert (EngineV2.entry d) = false) h ->
        EngineV2.alertRate s = 0)
    /\ (Forall (fun d => EngineV2.hasAlert (EngineV2.entry d) = true) h ->
        EngineV2.alertRate s = 100).
Proof.
  intros h Hne Hlen.
  unfold EngineV2.getStatistics, EngineV2.bind, EngineV2.get_this. fold h.
  destruct h as [|d0 h0] eqn:Eh; [congruence|]. rewrite <- Eh in *.
  assert (Hpos : (length h =? 0)%nat = false).
  { rewrite Eh. reflexivity. }
  rewrite Hpos. unfold EngineV2.ret. eexists. split; [reflexivity|].
  cbn [EngineV2.total EngineV2.alerts EngineV2.alertRate].
  fold (Upkeep.alert_count h).
  pose proof (alert_count_le h) as Hle.
  assert (Hl1 : (1 <= length h)%nat) by (rewrite Eh; simpl; lia).
  destruct (alert_rate_bounds (Z.of_nat (Upkeep.alert_count h))
              (Z.of_nat (length h))) as (B1 & B2 & B3 & B4); [lia|lia|].
  repeat split; try assumption.
  - intros Hno. apply B3. now rewrite alert_count_none.
  - intros Hall. apply B4. now rewrite alert_count_all.
Qed.

Lemma alert_count_entries (h : list EngineV2.HistoryEntry) :
  Upkeep.alert_count h
  = length (List.filter EngineV2.hasAlert (EngineV2.entry <$> h)).
Proof.
  unfold Upkeep.alert_count. induction h as [|d h IH]; [reflexivity|].
  simpl. destruct (EngineV2.hasAlert (EngineV2.entry d)); simpl; now rewrite IH.
Qed.

(** X8. The statistics follow the window: after any sequence of
    [addToHistory] calls, [getStatistics] counts the results the window
    still holds, the 100 most recent, and no older one. *)
Theorem getStatistics_after_appends (w : EngineV2.World)
    (results : list EngineV2.DetectionResult) :
  let h := EngineV2.detectionHistory (EngineV2.this w) in
  (length h <= 100)%nat -> results <> [] ->
  exists s w',
    EngineV2.bind (addAllToHistory results) (fun _ => EngineV2.getStatistics) w
    = (Normal s, w')
    /\ EngineV2.total s
       = Z2float (Z.of_nat (Nat.min 100 (length h + length results)))
    /\ EngineV2.alerts s
       = Z2float
           (Z.of_nat
              (length
                 (List.filter EngineV2.hasAlert
                    (most_recent 100 ((EngineV2.entry <$> h) ++ results))))).
Proof.
  intros h Hlen Hne.
  destruct (addAllToHistory_window results w Hlen) as (w1 & E1 & Hwin).
  fold h in Hwin.
  assert (Hl : length (EngineV2.detectionHistory (EngineV2.this w1))
               = Nat.min 100 (length h + length results)).
  { rewrite <- (length_fmap EngineV2.entry), Hwin, length_most_recent,
      length_app, length_fmap. reflexivity. }
  assert (Hpos : (length (EngineV2.detectionHistory (EngineV2.this w1)) =? 0)%nat
                 = false).
  { apply Nat.eqb_neq. rewrite Hl. destruct results; [congruence|]. cbn [length]. lia. }
  unfold EngineV2.bind at 1. rewrite E1.
  unfold EngineV2.getStatistics, EngineV2.bind, EngineV2.get_this.
  rewrite Hpos. unfold EngineV2.ret. eexists _, w1. split; [reflexivity|].
  cbn [EngineV2.total EngineV2.alerts].
  fold (Upkeep.alert_count (EngineV2.detectionHistory (EngineV2.this w1))).
  rewrite alert_count_entries, Hwin, Hl. split; reflexivity.
Qed.

(** X9. [resetHistory] starts the window afresh: it always succeeds, the
    statistics are the defaults again, [lastDetection] is cleared, the
    reference, the areas and the settings stay, and the results appended
    afterwards are all the window holds. *)
Theorem resetHistory_starts_afresh (w : EngineV2.World)
    (results : list EngineV2.DetectionResult) :
  exists w1 w2,
    Upkeep.resetHistory w = (Normal tt, w1)
    /\ EngineV2.getStatistics w1
       = (Normal {| EngineV2.total := 0; EngineV2.alerts := 0;
                    EngineV2.alertRate := 0;
                    EngineV2.averageConfidence := 100 |}, w1)
    /\ EngineV2.lastDetection (EngineV2.this w1) = None
    /\ EngineV2.referenceFeatures (EngineV2.this w1)
       = EngineV2.referenceFeatures (EngineV2.this w)
    /\ EngineV2.keyPointRect (EngineV2.this w1)
       = EngineV2.keyPointRect (EngineV2.this w)
    /\ EngineV2.boxRect (EngineV2.this w1) = EngineV2.boxRect (EngineV2.this w)
    /\ EngineV2.settings (EngineV2.this w1)
       = EngineV2.settings (EngineV2.this w)
    /\ EngineV2.isInitialized (EngineV2.this w1)
       = EngineV2.isInitialized (EngineV2.this w)
    /\ addAllToHistory results w1 = (Normal tt, w2)
    /\ EngineV2.entry <$> EngineV2.detectionHistory (EngineV2.this w2)
       = most_recent 100 results.
Proof.
  eexists. 
  destruct (addAllToHistory_window results
              (Upkeep.resetHistory w).2 (Nat.le_0_l 100)) as (w2 & E2 & Hwin).
  exists w2. split; [reflexivity|].
  repeat (split; [reflexivity|]).
  split; [exact E2|exact Hwin].
Qed.

(** X10. [updateSettings] merges: the settings the argument names are
    replaced and the others kept, so that of two updates the later one
    wins on what both name; updating with the same object twice is
    updating once; an object that names no setting changes nothing; and the
    rest of the engine is never touched. *)
Theorem updateSettings_merges (a b : EngineV2.PartialSettings)
    (w : EngineV2.World) :
  let after m := EngineV2.this (m w).2 in
  let both := EngineV2.bind (EngineV2.updateSettings a)
                (fun _ => EngineV2.updateSettings b) in
  Forall (fun '(named, setting) =>
            setting (EngineV2.settings (after both))
            = default (default (setting (EngineV2.settings (EngineV2.this w)))
                         (named a)) (named b))
    [(EngineV2.new_rotationSensitivity, EngineV2.rotationSensitivity);
     (EngineV2.new_positionSensitivity, EngineV2.positionSensitivity);
     (EngineV2.new_detectionThreshold, EngineV2.detectionThreshold);
     (EngineV2.new_minContourArea, EngineV2.minContourArea);
     (EngineV2.new_maxContourArea, EngineV2.maxContourArea)]
  /\ EngineV2.bind (EngineV2.updateSettings a)
       (fun _ => EngineV2.updateSettings a) w
     = EngineV2.updateSettings a w
  /\ EngineV2.settings (after (EngineV2.updateSettings Examples.no_new_settings))
     = EngineV2.settings (EngineV2.this w)
  /\ EngineV2.set_settings (EngineV2.settings (EngineV2.this w))
       (after (EngineV2.updateSettings a))
     = EngineV2.this w
  /\ Upkeep.getSettings (EngineV2.updateSettings a w).2
     = (Normal (EngineV2.merge_settings (EngineV2.settings (EngineV2.this w)) a),
        (EngineV2.updateSettings a w).2).
Proof.
  intros after both. split; [|split; [|split; [|split]]].
  - repeat constructor.
  - unfold EngineV2.bind, EngineV2.updateSettings, EngineV2.set_this.
    cbn [EngineV2.this EngineV2.random_tape EngineV2.random_drawn
         EngineV2.clock_tape EngineV2.clock_read].
    do 2 f_equal. unfold EngineV2.set_settings, EngineV2.merge_settings.
    cbn [EngineV2.settings EngineV2.referenceFeatures EngineV2.boxRect
         EngineV2.keyPointRect EngineV2.isInitialized EngineV2.lastDetection
         EngineV2.detectionHistory EngineV2.rotationSensitivity
         EngineV2.positionSensitivity EngineV2.detectionThreshold
         EngineV2.minContourArea EngineV2.maxContourArea].
    do 2 f_equal; match goal with |- context [default _ ?o] => destruct o end;
      reflexivity.
  - subst after. cbn. now destruct (EngineV2.settings (EngineV2.this w)).
  - subst after. cbn. now destruct (EngineV2.this w).
  - reflexivity.
Qed.

End EngineFacts.

(** ** What a frame leaves in the engine *)

Section FrameFacts.
Context `{Host}.
Variables FrameData ROIData Box : Type.
Variable extractROI_try :
  FrameData -> option EngineV2.Rectangle -> EngineV2.M (option ROIData).
Variable analyzeROI_try : ROIData -> EngineV2.M EngineV2.Analysis.
Variable detectBoxes_try : FrameData -> EngineV2.M (list Box).
Variable findBestMatch : list Box -> EngineV2.M Box.

Local Abbreviation analyzeFrame :=
  (EngineV2.analyzeFrame FrameData ROIData Box extractROI_try analyzeROI_try
     detectBoxes_try findBestMatch).

(** X11. A frame that arrives before the engine is initialised, or no frame
    at all, is answered with "no reference image" and leaves the engine
    as it was: the settings passed along are not stored, nothing is
    recorded, and neither the clock nor the random source is read. *)
Theorem analyzeFrame_before_setup (frameData : option FrameData)
    (settings : EngineV2.PartialSettings) (w : EngineV2.World) :
  frameData = None \/ EngineV2.isInitialized (EngineV2.this w) = false ->
  analyzeFrame frameData settings w
  = (Normal {| EngineV2.hasAlert := false;
               EngineV2.message := EngineV2.msg_no_reference_image;
               EngineV2.box := None; EngineV2.confidence := 0;
               EngineV2.details := None |}, w).
Proof.
  intros [->|Hinit]; [reflexivity|].
  unfold EngineV2.analyzeFrame, EngineV2.bind, EngineV2.get_this.
  rewrite Hinit. now destruct frameData.
Qed.

(** On an initialised engine [analyzeFrame] merges the settings and
    dispatches on the key point area, inside its [try]. *)
Lemma analyzeFrame_dispatch (fd : FrameData)
    (settings : EngineV2.PartialSettings) (w : EngineV2.World) :
  EngineV2.isInitialized (EngineV2.this w) = true ->
  analyzeFrame (Some fd) settings w
  = EngineV2.try_catch
      (match EngineV2.keyPointRect (EngineV2.this w) with
       | Some _ =>
           EngineV2.analyzeWithDrawingAreas FrameData ROIData
             extractROI_try analyzeROI_try fd
       | None =>
           EngineV2.analyzeLegacyMode FrameData Box detectBoxes_try
             findBestMatch fd
       end)
      (fun _ => EngineV2.ret EngineV2.analysis_error_result)
      (EngineV2.updateSettings settings w).2.
Proof.
  intros Hinit.
  unfold EngineV2.analyzeFrame, EngineV2.bind at 1, EngineV2.get_this at 1.
  rewrite Hinit. reflexivity.
Qed.

(** X12. In drawing mode a frame whose region was extracted and compared
    is recorded: the settings are merged first, the comparison is what
    [analyzeFrame] returns, it becomes [lastDetection], and it is the
    newest entry of the history window, stamped by the clock. *)
Theorem analyzeFrame_records_comparison (fd : FrameData)
    (settings : EngineV2.PartialSettings) (w w1 w2 w3 : EngineV2.World)
    (kp : EngineV2.Rectangle) (roi : ROIData)
    (analysis : EngineV2.Analysis) (r : EngineV2.DetectionResult) :
  EngineV2.isInitialized (EngineV2.this w) = true ->
  EngineV2.keyPointRect (EngineV2.this w) = Some kp ->
  extractROI_try fd (Some kp) (EngineV2.updateSettings settings w).2
  = (Normal (Some roi), w1) ->
  EngineV2.analyzeROI ROIData analyzeROI_try roi w1 = (Normal analysis, w2) ->
  EngineV2.compareWithReference analysis w2 = (Normal r, w3) ->
  (length (EngineV2.detectionHistory (EngineV2.this w3)) <= 100)%nat ->
  exists w',
    analyzeFrame (Some fd) settings w = (Normal r, w')
    /\ EngineV2.lastDetection (EngineV2.this w') = Some r
    /\ EngineV2.detectionHistory (EngineV2.this w')
       = most_recent 100
           (EngineV2.detectionHistory (EngineV2.this w3)
            ++ [{| EngineV2.entry := r;
                   EngineV2.timestamp :=
                     EngineV2.clock_tape w3 (EngineV2.clock_read w3) |}])
    /\ EngineV2.settings (EngineV2.this w') = EngineV2.settings (EngineV2.this w3).
Proof.
  intros Hinit Hkp Eroi Ean Ecmp Hlen.
  destruct (addToHistory_step w3 r Hlen) as (w4 & E4 & H4).
  rewrite analyzeFrame_dispatch by exact Hinit. rewrite Hkp.
  unfold EngineV2.try_catch, EngineV2.analyzeWithDrawingAreas.
  unfold EngineV2.bind at 1, EngineV2.get_this at 1.
  assert (Hkp0 : EngineV2.keyPointRect
                   (EngineV2.this (EngineV2.updateSettings settings w).2)
                 = Some kp) by exact Hkp.
  rewrite Hkp0.
  unfold EngineV2.bind at 1, EngineV2.extractROI, EngineV2.try_catch.
  rewrite Eroi.
  unfold EngineV2.bind at 1. rewrite Ean.
  unfold EngineV2.bind at 1. rewrite Ecmp.
  unfold EngineV2.bind at 1. rewrite E4.
  unfold EngineV2.bind, EngineV2.set_this, EngineV2.ret.
  eexists. split; [reflexivity|]. cbn. split; [reflexivity|].
  split; [exact H4|].
  clear -E4. unfold EngineV2.addToHistory, EngineV2.bind, EngineV2.Date_now,
    EngineV2.set_this, EngineV2.get_this, EngineV2.ret in E4.
  cbv beta iota in E4.
  cbn [EngineV2.this EngineV2.detectionHistory EngineV2.set_detectionHistory]
    in E4.
  destruct (100 <? _)%nat; inversion E4; reflexivity.
Qed.

(** X13. A frame that ends without a comparison is not recorded: when the
    region cannot be extracted (drawing mode) or no box is detected
    (legacy mode), [analyzeFrame] answers without an alert and adds
    nothing to what the stage left: no history entry, and
    [lastDetection] stays. *)
Theorem analyzeFrame_records_nothing (fd : FrameData)
    (settings : EngineV2.PartialSettings) (w w1 : EngineV2.World) :
  EngineV2.isInitialized (EngineV2.this w) = true ->
  (EngineV2.extractROI FrameData ROIData extractROI_try fd
     (EngineV2.keyPointRect (EngineV2.this w))
     (EngineV2.updateSettings settings w).2
   = (Normal None, w1) ->
   EngineV2.keyPointRect (EngineV2.this w) <> None ->
   analyzeFrame (Some fd) settings w
   = (Normal {| EngineV2.hasAlert := false;
                EngineV2.message := EngineV2.msg_cannot_extract;
                EngineV2.box := EngineV2.keyPointRect (EngineV2.this w1);
                EngineV2.confidence := 0; EngineV2.details := None |}, w1))
  /\
  (EngineV2.detectBoxes FrameData Box detectBoxes_try fd
     (EngineV2.updateSettings settings w).2
   = (Normal [], w1) ->
   EngineV2.keyPointRect (EngineV2.this w) = None ->
   analyzeFrame (Some fd) settings w
   = (Normal {| EngineV2.hasAlert := false;
                EngineV2.message := EngineV2.msg_no_box;
                EngineV2.box := None;
                EngineV2.confidence := 0; EngineV2.details := None |}, w1)).
Proof.
  intros Hinit. split.
  - intros Eroi Hkp. rewrite analyzeFrame_dispatch by exact Hinit.
    destruct (EngineV2.keyPointRect (EngineV2.this w)) as [kp|] eqn:Ekp;
      [|congruence].
    unfold EngineV2.try_catch, EngineV2.analyzeWithDrawingAreas.
    unfold EngineV2.bind at 1, EngineV2.get_this at 1.
    cbn [EngineV2.updateSettings EngineV2.set_this snd EngineV2.this
         EngineV2.set_settings EngineV2.keyPointRect] in *.
    rewrite Ekp. unfold EngineV2.bind at 1. rewrite Eroi. reflexivity.
  - intros Ebox Hkp. rewrite analyzeFrame_dispatch by exact Hinit.
    rewrite Hkp. unfold EngineV2.try_catch, EngineV2.analyzeLegacyMode.
    unfold EngineV2.bind at 1. rewrite Ebox. reflexivity.
Qed.

End FrameFacts.

(** ** The comparison when no box was detected *)

Section SimulatedFacts.
Context `{Host}.
Local Open Scope float_scope.

(** X14. Without a detected box the verdict of [compareWithReference]
    is drawn at random and owes nothing to the frame: with reference
    features set and an analysis that has no features or reports no box,
    the result is an alert exactly when the next random number is below
    0.05; the alert says "box not found" with confidence 30 and uses a
    second random number, the other outcome is the clean result with
    confidence 100; the engine is left as it was. Without reference
    features the answer is "no reference data", no alert, confidence 0,
    and nothing is read. *)
Theorem compareWithReference_without_box (analysis : EngineV2.Analysis)
    (w : EngineV2.World) :
  (EngineV2.referenceFeatures (EngineV2.this w) = None ->
   EngineV2.compareWithReference analysis w
   = (Normal {| EngineV2.hasAlert := false;
                EngineV2.message := EngineV2.msg_no_reference_data;
                EngineV2.box := EngineV2.keyPointRect (EngineV2.this w);
                EngineV2.confidence := 0;
                EngineV2.details :=
                  Some {| EngineV2.positionOffset := 0;
                          EngineV2.rotationOffset := 0;
                          EngineV2.positionOk := true;
                          EngineV2.rotationOk := true |} |}, w))
  /\ (EngineV2.referenceFeatures (EngineV2.this w) <> None ->
      (forall f, EngineV2.features analysis = Some f ->
                 EngineV2.hasBox f = false) ->
      let r := EngineV2.random_tape w (EngineV2.random_drawn w) in
      exists result w',
        EngineV2.compareWithReference analysis w = (Normal result, w')
        /\ EngineV2.this w' = EngineV2.this w
        /\ EngineV2.clock_read w' = EngineV2.clock_read w
        /\ EngineV2.hasAlert result = (r <? 0.05)
        /\ ((r <? 0.05) = true ->
            EngineV2.message result = EngineV2.msg_box_not_found
            /\ EngineV2.confidence result = 30
            /\ EngineV2.positionOk <$> EngineV2.details result = Some false
            /\ EngineV2.random_drawn w' = S (S (EngineV2.random_drawn w)))
        /\ ((r <? 0.05) = false ->
            result = EngineV2.initial_result (EngineV2.this w)
            /\ EngineV2.confidence result = 100
            /\ EngineV2.random_drawn w' = S (EngineV2.random_drawn w))).
Proof.
  split.
  - intros Href. unfold EngineV2.compareWithReference, EngineV2.bind,
      EngineV2.get_this. now rewrite Href.
  - intros Href Hnobox r.
    assert (Hsim : EngineV2.compareWithReference analysis w
                   = EngineV2.simulated_detection (EngineV2.this w) w).
    { unfold EngineV2.compareWithReference, EngineV2.bind at 1,
        EngineV2.get_this at 1.
      destruct (EngineV2.referenceFeatures (EngineV2.this w)) as [ref|];
        [|congruence].
      destruct (EngineV2.features analysis) as [f|] eqn:Ef; [|reflexivity].
      now rewrite (Hnobox f eq_refl). }
    rewrite Hsim. unfold EngineV2.simulated_detection, EngineV2.bind at 1,
      EngineV2.Math_random at 1. fold r.
    destruct (r <? 0.05) eqn:Hr.
    + unfold EngineV2.bind, EngineV2.Math_random, EngineV2.ret.
      eexists _, _. split; [reflexivity|]. cbn.
      repeat split; discriminate.
    + unfold EngineV2.ret. eexists _, _. split; [reflexivity|]. cbn.
      repeat split; discriminate.
Qed.

End SimulatedFacts.

(** ** Grayscale conversion and edge detection *)

Section FilterFacts.
Import Image.
Local Open Scope float_scope.

Lemma digits2_pos_bound (m : positive) :
  (Zpos m < 2 ^ Zpos (digits2_pos m))%Z.
Proof.
  induction m as [m IH|m IH|]; cbn [digits2_pos].
  - rewrite Pos2Z.inj_succ, Z.pow_succ_r by lia. lia.
  - rewrite Pos2Z.inj_succ, Z.pow_succ_r by lia. lia.
  - reflexivity.
Qed.

(** The mantissa of a float has 53 bits at most. *)
Lemma mantissa_bound (v : float) s m e :
  Prim2SF v = S754_finite s m e -> (Zpos m < 2 ^ 53)%Z.
Proof.
  intros Ev. pose proof (Prim2SF_valid v) as Hv. rewrite Ev in Hv.
  unfold SpecFloat.valid_binary, bounded, canonical_mantissa, fexp in Hv.
  apply andb_prop in Hv as [Hc _]. apply Z.eqb_eq in Hc.
  pose proof (digits2_pos_bound m) as Hd.
  assert (Hle : (Zpos (digits2_pos m) <= 53)%Z).
  { change prec with 53%Z in Hc. lia. }
  eapply Z.lt_le_trans; [exact Hd|]. apply Z.pow_le_mono_r; lia.
Qed.

(** What a [Uint8ClampedArray] stores is a byte. *)
Lemma ToUint8Clamp_range (v : float) : (0 <= ToUint8Clamp v <= 255)%Z.
Proof.
  unfold ToUint8Clamp.
  destruct (is_nan v) eqn:En; [lia|].
  destruct (v <=? 0) eqn:E0; [lia|].
  destruct (255 <=? v) eqn:E255; [lia|].
  destruct (Prim2SF v) as [| | |s m e] eqn:Ev; try lia.
  pose proof (mantissa_bound v s m e Ev) as Hm.
  rewrite leb_spec, Ev in E0, E255.
  assert (Hs : s = false).
  { destruct s; [|reflexivity]. discriminate E0. }
  subst s.
  change (Prim2SF 255) with (S754_finite false 8972014882652160 (-45)) in E255.
  unfold SFleb, SFcompare in E255.
  assert (He : (e < -45 \/ e = -45 /\ Zpos m < 8972014882652160)%Z).
  { destruct (Z.compare_spec (-45) e) as [Heq|Hlt|Hgt].
    - right. split; [lia|].
      change (Pos.compare_cont Eq 8972014882652160 m)
        with (8972014882652160 ?= m)%positive in E255.
      destruct (Pos.compare_spec 8972014882652160 m) as [H1|H1|H1];
        try discriminate E255. exact H1.
    - discriminate E255.
    - left. lia. }
  assert (H0e : (0 <=? e)%Z = false) by (apply Z.leb_gt; lia).
  rewrite H0e.
  set (d := (2 ^ (- e))%Z).
  assert (Hd : (2 ^ 45 <= d)%Z) by (apply Z.pow_le_mono_r; lia).
  assert (Hmd : (Zpos m < d * 255)%Z).
  { destruct He as [He|[He Hm']].
    - assert (2 ^ 46 <= d)%Z by (apply Z.pow_le_mono_r; lia).
      change (2 ^ 46)%Z with 70368744177664%Z in *.
      change (2 ^ 53)%Z with 9007199254740992%Z in *. lia.
    - subst d. rewrite He. change (2 ^ (- -45))%Z with 35184372088832%Z. lia. }
  change (2 ^ 45)%Z with 35184372088832%Z in Hd.
  assert (Hf0 : (0 <= Zpos m / d)%Z) by (apply Z.div_pos; lia).
  assert (Hf1 : (Zpos m / d < 255)%Z) by (apply Z.div_lt_upper_bound; lia).
  repeat case_match; lia.
Qed.

(** A gray pixel keeps its value: the three weights add up to 1 closely
    enough on every byte. *)
Lemma luma_of_gray_table :
  forallb (fun v => (ToUint8Clamp (Filters.luma (Z2float v) (Z2float v)
                                     (Z2float v)) =? v)%Z)
    (seqZ 0 256) = true.
Proof. vm_compute. reflexivity. Qed.

Lemma luma_of_gray (v : Z) :
  (0 <= v <= 255)%Z ->
  ToUint8Clamp (Filters.luma (Z2float v) (Z2float v) (Z2float v)) = v.
Proof.
  intros Hv. pose proof luma_of_gray_table as T.
  rewrite forallb_forall in T. apply Z.eqb_eq, T.
  apply list_elem_of_In, elem_of_seqZ. lia.
Qed.

Lemma is_nan_add_r (a b : float) : is_nan b = true -> is_nan (a + b) = true.
Proof.
  rewrite !is_nan_Prim2SF, add_spec. intros ->.
  now destruct (Prim2SF a).
Qed.

Lemma is_nan_mul_l (a b : float) : is_nan a = true -> is_nan (a * b) = true.
Proof.
  rewrite !is_nan_Prim2SF, mul_spec. intros ->. reflexivity.
Qed.

Lemma ToUint8Clamp_nan (v : float) : is_nan v = true -> ToUint8Clamp v = 0%Z.
Proof. intros E. unfold ToUint8Clamp. now rewrite E. Qed.

(** A sum with a missing channel is NaN and is stored as 0. *)
Lemma luma_missing (r g b : float) :
  is_nan b = true -> ToUint8Clamp (Filters.luma r g b) = 0%Z.
Proof.
  intros E. apply ToUint8Clamp_nan. unfold Filters.luma.
  apply is_nan_add_r, is_nan_mul_l, E.
Qed.

Lemma gray_kept (v : float) :
  let gray := ToUint8Clamp v in
  ToUint8Clamp (Filters.luma (Z2float gray) (Z2float gray) (Z2float gray))
  = gray.
Proof. intros gray. apply luma_of_gray, ToUint8Clamp_range. Qed.

(** Induction over the data four bytes at a time. *)
Lemma quad_ind (P : list Z -> Prop) :
  P [] -> (forall r, P [r]) -> (forall r g, P [r; g]) ->
  (forall r g b, P [r; g; b]) ->
  (forall r g b a rest, P rest -> P (r :: g :: b :: a :: rest)) ->
  forall l, P l.
Proof.
  intros H0 H1 H2 H3 H4 l.
  assert (H : forall n l, (length l <= n)%nat -> P l).
  { clear l. induction n as [|n IH]; intros l Hl.
    - destruct l; [exact H0|simpl in Hl; lia].
    - destruct l as [|r [|g [|b [|a rest]]]]; auto.
      apply H4, IH. simpl in Hl. lia. }
  apply (H (length l)). lia.
Qed.

Lemma length_grayscale_data (l : list Z) :
  length (Filters.grayscale_data l) = length l.
Proof.
  induction l as [|r|r g|r g b|r g b a rest IH] using quad_ind;
    try reflexivity.
  cbn [Filters.grayscale_data length]. now rewrite IH.
Qed.

Lemma grayscale_data_idempotent (l : list Z) :
  Filters.grayscale_data (Filters.grayscale_data l) = Filters.grayscale_data l.
Proof.
  induction l as [|r|r g|r g b|r g b a rest IH] using quad_ind.
  - reflexivity.
  - cbn [Filters.grayscale_data]. now rewrite !luma_missing.
  - cbn [Filters.grayscale_data]. now rewrite !luma_missing.
  - cbn [Filters.grayscale_data]. now rewrite gray_kept.
  - cbn [Filters.grayscale_data]. now rewrite gray_kept, IH.
Qed.

(** The pixel [k] of the converted data. *)
Lemma grayscale_data_pixel (k : nat) :
  forall (l : list Z) r g b a,
    l !! (k * 4)%nat = Some r -> l !! (k * 4 + 1)%nat = Some g ->
    l !! (k * 4 + 2)%nat = Some b -> l !! (k * 4 + 3)%nat = Some a ->
    let gray := ToUint8Clamp (Filters.luma (Z2float r) (Z2float g) (Z2float b)) in
    Filters.grayscale_data l !! (k * 4)%nat = Some gray
    /\ Filters.grayscale_data l !! (k * 4 + 1)%nat = Some gray
    /\ Filters.grayscale_data l !! (k * 4 + 2)%nat = Some gray
    /\ Filters.grayscale_data l !! (k * 4 + 3)%nat = Some a.
Proof.
  induction k as [|k IH]; intros l r g b a Hr Hg Hb Ha.
  - destruct l as [|r0 [|g0 [|b0 [|a0 rest]]]]; try discriminate.
    cbn in Hr, Hg, Hb, Ha. simplify_eq. repeat split.
  - destruct l as [|r0 [|g0 [|b0 [|a0 rest]]]]; try discriminate.
    cbn [Filters.grayscale_data].
    change (S k * 4)%nat with (S (S (S (S (k * 4))))) in *.
    cbn [lookup list_lookup Nat.add] in *.
    apply IH; assumption.
Qed.

(** The conversion succeeds on an image of [width * height] pixels. *)
Lemma convertToGrayscale_succeeds (imageData : ImageData) :
  (0 < width imageData)%Z -> (0 < height imageData)%Z ->
  Z.of_nat (length (data imageData))
  = (4 * width imageData * height imageData)%Z ->
  Filters.convertToGrayscale imageData
  = Normal {| width := width imageData; height := height imageData;
              data := Filters.grayscale_data (data imageData) |}.
Proof.
  intros Hw Hh Hlen. unfold Filters.convertToGrayscale.
  apply new_ImageData_ok; try assumption.
  now rewrite length_grayscale_data.
Qed.

(** The pixel [p] of the converted data. *)
Lemma grayscale_data_at (l : list Z) (p : Z) :
  (0 <= p)%Z -> (p * 4 + 3 < Z.of_nat (length l))%Z ->
  let gray :=
    ToUint8Clamp
      (Filters.luma (number_at l (p * 4)) (number_at l (p * 4 + 1))
         (number_at l (p * 4 + 2))) in
  at_index (Filters.grayscale_data l) (p * 4) = Some gray
  /\ at_index (Filters.grayscale_data l) (p * 4 + 1) = Some gray
  /\ at_index (Filters.grayscale_data l) (p * 4 + 2) = Some gray
  /\ at_index (Filters.grayscale_data l) (p * 4 + 3) = at_index l (p * 4 + 3).
Proof.
  intros Hp Hlen. set (gray := ToUint8Clamp _).
  assert (Hin : forall c, (0 <= c < 4)%Z ->
            exists v, l !! (Z.to_nat p * 4 + Z.to_nat c)%nat = Some v).
  { intros c Hc. apply lookup_lt_is_Some_2. lia. }
  destruct (Hin 0%Z) as [r Hr]; [lia|].
  destruct (Hin 1%Z) as [g Hg]; [lia|].
  destruct (Hin 2%Z) as [b Hb]; [lia|].
  destruct (Hin 3%Z) as [a Ha]; [lia|].
  change (Z.to_nat 0) with 0%nat in Hr. rewrite Nat.add_0_r in Hr.
  change (Z.to_nat 1) with 1%nat in Hg.
  change (Z.to_nat 2) with 2%nat in Hb.
  change (Z.to_nat 3) with 3%nat in Ha.
  destruct (grayscale_data_pixel (Z.to_nat p) l r g b a Hr Hg Hb Ha)
    as (G0 & G1 & G2 & G3).
  assert (Hat : forall (k : list Z) (c : Z) (n : nat),
            Z.of_nat n = c ->
            at_index k (p * 4 + c) = k !! (Z.to_nat p * 4 + n)%nat).
  { intros k c n <-. unfold at_index.
    destruct (p * 4 + Z.of_nat n <? 0)%Z eqn:E;
      [apply Z.ltb_lt in E; lia|].
    f_equal. lia. }
  pose proof (Hat l 0%Z 0%nat eq_refl) as A0.
  pose proof (Hat l 1%Z 1%nat eq_refl) as A1.
  pose proof (Hat l 2%Z 2%nat eq_refl) as A2.
  pose proof (Hat l 3%Z 3%nat eq_refl) as A3.
  pose proof (Hat (Filters.grayscale_data l) 0%Z 0%nat eq_refl) as B0.
  pose proof (Hat (Filters.grayscale_data l) 1%Z 1%nat eq_refl) as B1.
  pose proof (Hat (Filters.grayscale_data l) 2%Z 2%nat eq_refl) as B2.
  pose proof (Hat (Filters.grayscale_data l) 3%Z 3%nat eq_refl) as B3.
  rewrite Z.add_0_r, Nat.add_0_r in A0, B0.
  subst gray. unfold number_at.
  rewrite A0, A1, A2, A3, B0, B1, B2, B3, Hr, Hg, Hb, Ha, G0, G1, G2, G3.
  repeat split.
Qed.

(** X15. [convertToGrayscale] on an image of [width * height] pixels
    returns an image of the same size in which every pixel has the weighted
    sum of its colours, stored as a byte, in all three colour channels and
    keeps its alpha; converting the result again changes nothing. *)
Theorem convertToGrayscale_gray (imageData : ImageData) :
  (0 < width imageData)%Z -> (0 < height imageData)%Z ->
  Z.of_nat (length (data imageData))
  = (4 * width imageData * height imageData)%Z ->
  exists output,
    Filters.convertToGrayscale imageData = Normal output
    /\ width output = width imageData
    /\ height output = height imageData
    /\ length (data output) = length (data imageData)
    /\ (forall p, (0 <= p < width imageData * height imageData)%Z ->
          let gray :=
            ToUint8Clamp
              (Filters.luma (number_at (data imageData) (p * 4))
                 (number_at (data imageData) (p * 4 + 1))
                 (number_at (data imageData) (p * 4 + 2))) in
          (0 <= gray <= 255)%Z
          /\ at_index (data output) (p * 4) = Some gray
          /\ at_index (data output) (p * 4 + 1) = Some gray
          /\ at_index (data output) (p * 4 + 2) = Some gray
          /\ at_index (data output) (p * 4 + 3)
             = at_index (data imageData) (p * 4 + 3))
    /\ Filters.convertToGrayscale output = Normal output.
Proof.
  intros Hw Hh Hlen.
  rewrite (convertToGrayscale_succeeds imageData Hw Hh Hlen).
  eexists. split; [reflexivity|]. cbn [width height data].
  split; [reflexivity|]. split; [reflexivity|].
  split; [apply length_grayscale_data|]. split.
  - intros p Hp. cbv zeta. split; [apply ToUint8Clamp_range|].
    apply grayscale_data_at; [lia|]. rewrite Hlen. nia.
  - unfold Filters.convertToGrayscale. cbn [width height data].
    rewrite grayscale_data_idempotent.
    apply new_ImageData_ok; try assumption.
    now rewrite length_grayscale_data.
Qed.

End FilterFacts.

(** ** Edge detection *)

Section EdgeFacts.
Import Image.
Local Open Scope float_scope.

Lemma length_edge_fold config data w (ps : list (Z * Z)) :
  forall edges,
    length (foldl (Filters.edge_step config data w) edges ps) = length edges.
Proof.
  induction ps as [|p ps IH]; intros edges; cbn [foldl]; [reflexivity|].
  rewrite IH. apply length_write_pixel.
Qed.

Lemma edge_fold_untouched config data w (ps : list (Z * Z)) j :
  (forall p, p ∈ ps ->
             (j < (p.2 * w + p.1) * 4 \/ (p.2 * w + p.1) * 4 + 3 < j)%Z) ->
  forall edges,
    at_index (foldl (Filters.edge_step config data w) edges ps) j
    = at_index edges j.
Proof.
  induction ps as [|p ps IH]; intros Hps edges; cbn [foldl]; [reflexivity|].
  rewrite IH by (intros q Hq; apply Hps; now right).
  apply at_index_write_pixel_other. apply Hps. now left.
Qed.

Lemma edge_fold_written config data w (ps : list (Z * Z)) p c :
  (forall q, q ∈ ps -> (0 <= q.1 < w /\ 0 <= q.2)%Z) ->
  p ∈ ps -> (0 <= c < 4)%Z ->
  forall edges,
    ((p.2 * w + p.1) * 4 + 3 < Z.of_nat (length edges))%Z ->
    at_index (foldl (Filters.edge_step config data w) edges ps)
      ((p.2 * w + p.1) * 4 + c)
    = Some (if (c <? 3)%Z
            then Filters.threshold config (Filters.gradient data w p.1 p.2)
            else 255%Z).
Proof.
  intros Hps Hp Hc.
  induction ps as [|q ps IH]; intros edges Hlen;
    [now apply elem_of_nil in Hp|].
  cbn [foldl].
  destruct (decide (p ∈ ps)) as [Hin|Hnot].
  - apply IH; [intros r Hr; apply Hps; now right|exact Hin|].
    unfold Filters.edge_step. now rewrite length_write_pixel.
  - apply elem_of_cons in Hp as [->|Hp]; [|contradiction].
    rewrite edge_fold_untouched.
    + unfold Filters.edge_step.
      apply at_index_write_pixel; [|exact Hlen|exact Hc].
      destruct (Hps q) as [? ?]; [now left|]. nia.
    + intros r Hr. apply slots_disjoint; [| |congruence|exact Hc].
      * apply Hps. now left.
      * apply Hps. now right.
Qed.

Lemma threshold_levels config g :
  Filters.threshold config g ∈ [0; 128; 255]%Z.
Proof.
  unfold Filters.threshold. repeat case_match; rewrite !elem_of_cons; auto.
Qed.

(** The detection succeeds on an image of [width * height] pixels. *)
Lemma detectEdges_succeeds (config : Filters.Config) (imageData : ImageData) :
  (0 < width imageData)%Z -> (0 < height imageData)%Z ->
  Z.of_nat (length (data imageData))
  = (4 * width imageData * height imageData)%Z ->
  Filters.detectEdges config imageData
  = Normal
      {| width := width imageData; height := height imageData;
         data :=
           foldl (Filters.edge_step config (data imageData) (width imageData))
             (replicate (length (data imageData)) 0%Z)
             (blur_order (width imageData) (height imageData) 1) |}.
Proof.
  intros Hw Hh Hlen. unfold Filters.detectEdges.
  apply new_ImageData_ok; try assumption.
  now rewrite length_edge_fold, length_replicate.
Qed.

(** What the loops leave at a pixel with all eight neighbours. *)
Lemma edge_fold_inner config (imageData : ImageData) (x y c : Z) :
  Z.of_nat (length (data imageData))
  = (4 * width imageData * height imageData)%Z ->
  (1 <= x < width imageData - 1)%Z -> (1 <= y < height imageData - 1)%Z ->
  (0 <= c < 4)%Z ->
  at_index
    (foldl (Filters.edge_step config (data imageData) (width imageData))
       (replicate (length (data imageData)) 0%Z)
       (blur_order (width imageData) (height imageData) 1))
    ((y * width imageData + x) * 4 + c)
  = Some (if (c <? 3)%Z
          then Filters.threshold config
                 (Filters.gradient (data imageData) (width imageData) x y)
          else 255%Z).
Proof.
  intros Hlen Hx Hy Hc.
  assert (Hin : (x, y) ∈ blur_order (width imageData) (height imageData) 1)
    by (apply elem_of_blur_order; lia).
  assert (Hps : forall q,
            q ∈ blur_order (width imageData) (height imageData) 1 ->
            (0 <= q.1 < width imageData /\ 0 <= q.2)%Z).
  { intros [qx qy] Hq. apply elem_of_blur_order in Hq. simpl. lia. }
  apply (edge_fold_written config (data imageData) (width imageData)
           _ (x, y) c Hps Hin Hc).
  rewrite length_replicate, Hlen. cbn [fst snd]. nia.
Qed.

(** What they leave on the outermost rows and columns. *)
Lemma edge_fold_border config (imageData : ImageData) (x y c : Z) :
  Z.of_nat (length (data imageData))
  = (4 * width imageData * height imageData)%Z ->
  (0 <= x < width imageData)%Z -> (0 <= y < height imageData)%Z ->
  ~ ((1 <= x < width imageData - 1)%Z /\ (1 <= y < height imageData - 1)%Z) ->
  (0 <= c < 4)%Z ->
  at_index
    (foldl (Filters.edge_step config (data imageData) (width imageData))
       (replicate (length (data imageData)) 0%Z)
       (blur_order (width imageData) (height imageData) 1))
    ((y * width imageData + x) * 4 + c)
  = Some 0%Z.
Proof.
  intros Hlen Hx Hy Hborder Hc.
  rewrite edge_fold_untouched.
  - unfold at_index.
    destruct ((y * width imageData + x) * 4 + c <? 0)%Z eqn:E;
      [apply Z.ltb_lt in E; nia|].
    apply lookup_replicate_2. nia.
  - intros [qx qy] Hq. pose proof Hq as Hq'.
    apply elem_of_blur_order in Hq'.
    apply (slots_disjoint (width imageData) (x, y) (qx, qy) c); simpl;
      try lia.
    intros Heq. assert (x = qx /\ y = qy) as [Ex Ey] by (now inversion Heq).
    apply Hborder. lia.
Qed.

(** X16. [detectEdges] on an image of [width * height] pixels returns an
    image of the same size with three levels: a pixel that has all eight
    neighbours holds 0, 128 or 255, as its gradient compares with the two
    thresholds, in its three colour channels, and alpha 255; every pixel
    of the outermost rows and columns is left at 0 in all four
    channels. *)
Theorem detectEdges_three_levels (config : Filters.Config)
    (imageData : ImageData) :
  (0 < width imageData)%Z -> (0 < height imageData)%Z ->
  Z.of_nat (length (data imageData))
  = (4 * width imageData * height imageData)%Z ->
  exists output,
    Filters.detectEdges config imageData = Normal output
    /\ width output = width imageData
    /\ height output = height imageData
    /\ forall x y,
        (0 <= x < width imageData)%Z -> (0 <= y < height imageData)%Z ->
        let idx := ((y * width imageData + x) * 4)%Z in
        let inner :=
          (1 <= x < width imageData - 1)%Z
          /\ (1 <= y < height imageData - 1)%Z in
        let level :=
          Filters.threshold config
            (Filters.gradient (data imageData) (width imageData) x y) in
        level ∈ [0; 128; 255]%Z
        /\ (inner ->
            (forall c, (0 <= c < 3)%Z ->
                       at_index (data output) (idx + c) = Some level)
            /\ at_index (data output) (idx + 3) = Some 255%Z)
        /\ (~ inner ->
            forall c, (0 <= c < 4)%Z ->
                      at_index (data output) (idx + c) = Some 0%Z).
Proof.
  intros Hw Hh Hlen.
  rewrite (detectEdges_succeeds config imageData Hw Hh Hlen).
  eexists. split; [reflexivity|]. cbn [width height data].
  split; [reflexivity|]. split; [reflexivity|].
  intros x y Hx Hy. cbv zeta. split; [apply threshold_levels|]. split.
  - intros [Hix Hiy]. split.
    + intros c Hc. rewrite edge_fold_inner by (try assumption; lia).
      now replace (c <? 3)%Z with true by (symmetry; apply Z.ltb_lt; lia).
    + now rewrite edge_fold_inner by (try assumption; lia).
  - intros Hborder c Hc. now apply edge_fold_border.
Qed.

End EdgeFacts.

(** ** Traced regions *)

Section RegionFacts.
Import Image Regions.

Lemma is_visited_set_index (v : list bool) (i j : Z) :
  0 <= i < Z.of_nat (length v) ->
  is_visited (set_index v i true) j = (j =? i) || is_visited v j.
Proof.
  intros Hi. unfold is_visited. destruct (Z.eqb_spec j i) as [->|Hne].
  - now rewrite at_index_set_index_eq.
  - rewrite at_index_set_index_ne by congruence. reflexivity.
Qed.

Lemma pixel_index_bounds w h p :
  in_image w h p -> 0 <= pixel_index w p < w * h.
Proof. unfold in_image, pixel_index. destruct p as [x y]. simpl. nia. Qed.

Lemma pixel_index_inj w h p q :
  in_image w h p -> in_image w h q ->
  pixel_index w p = pixel_index w q -> p = q.
Proof.
  unfold in_image, pixel_index. destruct p as [x y], q as [x' y']. simpl.
  intros Hp Hq E. assert (y = y') by nia. subst. f_equal. lia.
Qed.

Lemma adjacent_refl p : adjacent p p.
Proof. unfold adjacent. rewrite !Z.sub_diag. simpl. lia. Qed.

Lemma adjacent_neighbour x y q :
  q ∈ map (fun d : Z * Z => (x + d.1, y + d.2)) directions ->
  adjacent (x, y) q.
Proof.
  intros Hq. apply list_elem_of_In, in_map_iff in Hq as (d & <- & Hd).
  unfold adjacent. simpl in Hd |- *.
  repeat (destruct Hd as [<-|Hd]; [simpl; lia|]). destruct Hd.
Qed.

(** One more pixel on the contour. *)
Lemma trace_invariant_push data w h start v0 x y rest contour visited :
  length v0 = Z.to_nat (w * h) ->
  trace_invariant data w h start v0 ((x, y) :: rest) contour visited ->
  in_image w h (x, y) ->
  is_visited visited (pixel_index w (x, y)) = false ->
  strong_edge data (pixel_index w (x, y)) = true ->
  trace_invariant data w h start v0 (push_neighbours x y rest)
    (contour ++ [(x, y)]) (set_index visited (pixel_index w (x, y)) true).
Proof.
  intros Hv0 [Hlen Hpts Hnd Hvis Hch Hst] Hin Hnv Hstrong.
  pose proof (pixel_index_bounds w h _ Hin) as Hb.
  assert (Hnew : is_visited v0 (pixel_index w (x, y)) = false).
  { destruct (is_visited v0 (pixel_index w (x, y))) eqn:E; [|reflexivity].
    rewrite <- Hnv. symmetry. apply Hvis. now left. }
  assert (Hnotin : (x, y) ∉ contour).
  { intros Hc. rewrite <- not_true_iff_false in Hnv. apply Hnv, Hvis.
    right. now exists (x, y). }
  split.
  - now rewrite length_set_index.
  - intros p [Hp|Hp%list_elem_of_singleton]%elem_of_app.
    + now apply Hpts.
    + subst p. auto.
  - apply NoDup_app. split; [exact Hnd|]. split; [|apply NoDup_singleton].
    intros p Hp Hp'%list_elem_of_singleton. now subst p.
  - intros i. rewrite is_visited_set_index by lia.
    rewrite orb_true_iff, Hvis, Z.eqb_eq. split.
    + intros [->|[H0|(p & Hp & E)]].
      * right. exists (x, y). split; [|reflexivity].
        apply elem_of_app. right. now apply list_elem_of_singleton.
      * now left.
      * right. exists p. split; [|exact E]. apply elem_of_app. now left.
    + intros [H0|(p & [Hp|Hp%list_elem_of_singleton]%elem_of_app & E)].
      * right. now left.
      * right. right. now exists p.
      * left. now subst p.
  - intros k q Hk.
    destruct (decide (k < length contour)%nat) as [Hlt|Hge].
    + rewrite lookup_app_l in Hk by exact Hlt.
      destruct (Hch k q Hk) as [H0|(j & p & Hj & Hp & Ha)]; [now left|].
      right. exists j, p. split; [exact Hj|]. split; [|exact Ha].
      rewrite lookup_app_l by lia. exact Hp.
    + rewrite lookup_app_r in Hk by lia.
      destruct (k - length contour)%nat as [|n] eqn:En; [|discriminate].
      injection Hk as <-.
      destruct (Hst (x, y)) as [[Hnil Hs]|(p & Hp & Ha)]; [now left| |].
      * left. subst contour. simpl in *. split; [lia|exact Hs].
      * right. apply list_elem_of_lookup in Hp as [j Hj].
        exists j, p. split; [|split; [|exact Ha]].
        -- apply lookup_lt_Some in Hj. lia.
        -- rewrite lookup_app_l by (now apply lookup_lt_Some in Hj).
           exact Hj.
  - intros q Hq. right. unfold push_neighbours in Hq.
    apply elem_of_app in Hq as [Hq|Hq].
    + exists (x, y). split.
      * apply elem_of_app. right. now apply list_elem_of_singleton.
      * apply adjacent_neighbour. now apply elem_of_reverse in Hq.
    + destruct (Hst q) as [[Hnil Hs]|(p & Hp & Ha)]; [now right| |].
      * destruct (Hst (x, y)) as [[_ Hs']|(p & Hp & _)]; [now left| |].
        -- exists (x, y). split.
           ++ apply elem_of_app. right. now apply list_elem_of_singleton.
           ++ subst q. rewrite Hs'. apply adjacent_refl.
        -- subst contour. now apply elem_of_nil in Hp.
      * exists p. split; [|exact Ha]. apply elem_of_app. now left.
Qed.

Lemma trace_invariant_pop data w h start v0 q rest contour visited :
  trace_invariant data w h start v0 (q :: rest) contour visited ->
  trace_invariant data w h start v0 rest contour visited.
Proof.
  intros [Hlen Hpts Hnd Hvis Hch Hst]. split; try assumption.
  intros p Hp. apply Hst. now right.
Qed.

Lemma trace_invariant_stack data w h start v0 stack stack' contour visited :
  trace_invariant data w h start v0 stack contour visited ->
  stack' = [] ->
  trace_invariant data w h start v0 stack' contour visited.
Proof.
  intros [Hlen Hpts Hnd Hvis Hch Hst] ->. split; try assumption.
  intros p Hp. now apply elem_of_nil in Hp.
Qed.

(** The loop keeps the invariant and only extends the contour. *)
Lemma traceContour_loop_invariant data w h start v0 (fuel : nat) :
  length v0 = Z.to_nat (w * h) ->
  forall stack contour visited c v,
    trace_invariant data w h start v0 stack contour visited ->
    traceContour_loop fuel data w h stack contour visited = Some (c, v) ->
    trace_invariant data w h start v0 [] c v
    /\ exists more, c = contour ++ more.
Proof.
  intros Hv0.
  induction fuel as [|fuel IH]; intros stack contour visited c v Hinv E;
    (destruct stack as [|[x y] rest]; cbn [traceContour_loop] in E;
     [injection E as <- <-; split; [exact Hinv|exists []; now rewrite app_nil_r]|]);
    (destruct (1000 <=? length contour)%nat eqn:Hcap;
     [injection E as <- <-; split;
      [now apply (trace_invariant_stack _ _ _ _ _ ((x, y) :: rest))
      |exists []; now rewrite app_nil_r]|]).
  - discriminate.
  - destruct ((x <? 0) || (w <=? x) || (y <? 0) || (h <=? y)
              || is_visited visited (y * w + x)) eqn:Hskip.
    + apply (IH _ _ _ _ _ (trace_invariant_pop _ _ _ _ _ _ _ _ _ Hinv) E).
    + destruct (strong_edge data (y * w + x)) eqn:Hstrong.
      * apply orb_false_elim in Hskip as [Hskip Hnv].
        apply orb_false_elim in Hskip as [Hskip Hy2].
        apply orb_false_elim in Hskip as [Hskip Hy1].
        apply orb_false_elim in Hskip as [Hx1 Hx2].
        apply Z.ltb_ge in Hx1, Hy1. apply Z.leb_gt in Hx2, Hy2.
        assert (Hin : in_image w h (x, y)) by (unfold in_image; simpl; lia).
        destruct (IH _ _ _ _ _
                    (trace_invariant_push data w h start v0 x y rest contour
                       visited Hv0 Hinv Hin Hnv Hstrong) E)
          as [Hfinal (more & ->)].
        split; [exact Hfinal|]. exists ((x, y) :: more).
        now rewrite <- app_assoc.
      * apply (IH _ _ _ _ _ (trace_invariant_pop _ _ _ _ _ _ _ _ _ Hinv) E).
Qed.

Lemma trace_invariant_start data w h start v0 :
  trace_invariant data w h start v0 [start] [] v0.
Proof.
  split.
  - reflexivity.
  - intros p Hp. now apply elem_of_nil in Hp.
  - apply NoDup_nil_2.
  - intros i. split; [now left|].
    intros [H0|(p & Hp & _)]; [exact H0|now apply elem_of_nil in Hp].
  - intros k q Hk. discriminate.
  - intros q Hq%list_elem_of_singleton. now left.
Qed.

(** One iteration that collects the pixel on top of the stack. *)
Lemma traceContour_loop_collects (fuel : nat) data w h x y rest contour visited :
  (length contour < 1000)%nat ->
  in_image w h (x, y) ->
  is_visited visited (pixel_index w (x, y)) = false ->
  strong_edge data (pixel_index w (x, y)) = true ->
  traceContour_loop (S fuel) data w h ((x, y) :: rest) contour visited
  = traceContour_loop fuel data w h (push_neighbours x y rest)
      (contour ++ [(x, y)]) (set_index visited (pixel_index w (x, y)) true).
Proof.
  intros Hc [[Hx1 Hx2] [Hy1 Hy2]] Hnv Hstrong.
  change (pixel_index w (x, y)) with (y * w + x) in *.
  cbn [fst snd] in Hx1, Hx2, Hy1, Hy2.
  cbn [traceContour_loop].
  replace (1000 <=? length contour)%nat with false
    by (symmetry; apply Nat.leb_gt; exact Hc).
  replace (x <? 0) with false by (symmetry; apply Z.ltb_ge; lia).
  replace (w <=? x) with false by (symmetry; apply Z.leb_gt; lia).
  replace (y <? 0) with false by (symmetry; apply Z.ltb_ge; lia).
  replace (h <=? y) with false by (symmetry; apply Z.leb_gt; lia).
  rewrite Hnv, Hstrong. reflexivity.
Qed.

(** What [traceContour] returns, from a visited array of the size of the
    image. *)
Lemma traceContour_region data w h x y (v0 : list bool) :
  length v0 = Z.to_nat (w * h) ->
  exists contour visited,
    traceContour data w h x y v0 = Some (contour, visited)
    /\ trace_invariant data w h (x, y) v0 [] contour visited
    /\ (length contour <= 1000)%nat
    /\ (in_image w h (x, y) ->
        is_visited v0 (pixel_index w (x, y)) = false ->
        strong_edge data (pixel_index w (x, y)) = true ->
        exists more, contour = (x, y) :: more).
Proof.
  intros Hv0. unfold traceContour, traceContour_fuel.
  destruct (traceContour_loop_ends (8 * 1000 + 1) data w h [(x, y)] [] v0)
    as (c & v & E & Hc); [cbn [length]; lia..|].
  exists c, v. split; [exact E|].
  destruct (traceContour_loop_invariant data w h (x, y) v0 _ Hv0 _ _ _ _ _
              (trace_invariant_start data w h (x, y) v0) E) as [Hinv _].
  split; [exact Hinv|]. split; [exact Hc|].
  intros Hin Hnv Hstrong.
  rewrite Nat.add_1_r in E.
  rewrite traceContour_loop_collects in E
    by (try assumption; cbn [length]; lia).
  pose proof (trace_invariant_push data w h (x, y) v0 x y [] [] v0 Hv0
                (trace_invariant_start data w h (x, y) v0) Hin Hnv Hstrong)
    as Hpush.
  destruct (traceContour_loop_invariant data w h (x, y) v0 _ Hv0 _ _ _ _ _
              Hpush E) as [_ (more & ->)].
  now exists more.
Qed.

(** X17. A traced contour is a connected set of fresh edge pixels:
    from a visited array of the size of the image, [traceContour] returns
    at most 1000 pixels that lie inside the image, are strong edges, were
    not visited before and are pairwise distinct; the first is the
    starting pixel and every later one is adjacent to an earlier one;
    and the visited array is marked at exactly these pixels more. *)
Theorem traceContour_connected_fresh_edges (data : list Z)
    (w h startX startY : Z) (visited : list bool) :
  length visited = Z.to_nat (w * h) ->
  exists contour visited',
    traceContour data w h startX startY visited = Some (contour, visited')
    /\ (length contour <= 1000)%nat
    /\ NoDup contour
    /\ (forall p, p ∈ contour ->
          in_image w h p /\ strong_edge data (pixel_index w p) = true
          /\ is_visited visited (pixel_index w p) = false)
    /\ chained (startX, startY) contour
    /\ length visited' = length visited
    /\ (forall i, is_visited visited' i = true
                  <-> is_visited visited i = true
                      \/ exists p, p ∈ contour /\ pixel_index w p = i)
    /\ (in_image w h (startX, startY) ->
        is_visited visited (pixel_index w (startX, startY)) = false ->
        strong_edge data (pixel_index w (startX, startY)) = true ->
        head contour = Some (startX, startY)).
Proof.
  intros Hv0.
  destruct (traceContour_region data w h startX startY visited Hv0)
    as (c & v & E & [Hlen Hpts Hnd Hvis Hch _] & Hc & Hstart).
  exists c, v. repeat (split; [assumption|]).
  intros Hin Hnv Hstrong.
  destruct (Hstart Hin Hnv Hstrong) as (more & ->). reflexivity.
Qed.

Lemma is_visited_replicate n i : is_visited (replicate n false) i = false.
Proof.
  unfold is_visited, at_index. destruct (i <? 0); [reflexivity|].
  destruct (replicate n false !! Z.to_nat i) as [b|] eqn:E; [|reflexivity].
  apply lookup_replicate in E as [-> _]. reflexivity.
Qed.

Lemma scan_invariant_start data w h :
  scan_invariant data w h [] (replicate (Z.to_nat (w * h)) false).
Proof.
  split.
  - apply length_replicate.
  - apply NoDup_nil_2.
  - intros p Hp. now apply elem_of_nil in Hp.
  - intros i. rewrite is_visited_replicate. split; [discriminate|].
    intros (p & Hp & _). now apply elem_of_nil in Hp.
  - constructor.
Qed.

Lemma concat_snoc {A} (ls : list (list A)) (l : list A) :
  concat (ls ++ [l]) = concat ls ++ l.
Proof. rewrite concat_app. simpl. now rewrite app_nil_r. Qed.

(** One pixel of the scan. *)
Lemma tracedRegions_step_invariant data w h regions visited p :
  in_image w h p ->
  scan_invariant data w h regions visited ->
  exists regions' visited',
    tracedRegions_step data w h (Some (regions, visited)) p
    = Some (regions', visited')
    /\ scan_invariant data w h regions' visited'
    /\ (forall q, q ∈ concat regions -> q ∈ concat regions')
    /\ (strong_edge data (pixel_index w p) = true -> p ∈ concat regions').
Proof.
  intros Hin [Hlen Hnd Hpts Hvis Hreg].
  unfold tracedRegions_step. cbn [mbind option_bind].
  change (p.2 * w + p.1) with (pixel_index w p).
  destruct (is_visited visited (pixel_index w p)) eqn:Hv; cbn [negb andb].
  - exists regions, visited. split; [reflexivity|].
    split; [now split|]. split; [auto|]. intros _.
    apply Hvis in Hv as (q & Hq & E).
    destruct (Hpts q Hq) as [Hqin _].
    now rewrite <- (pixel_index_inj w h q p Hqin Hin E).
  - destruct (strong_edge data (pixel_index w p)) eqn:Hs.
    + destruct p as [x y].
      destruct (traceContour_region data w h x y visited Hlen)
        as (c & v & E & [Hl Hp Hn Hvi Hch _] & Hc & Hstart).
      cbn [fst snd]. rewrite E. cbn [mbind option_bind].
      destruct (Hstart Hin Hv Hs) as (more & Hmore).
      exists (regions ++ [c]), v. split; [reflexivity|].
      split; [split|split]; rewrite ?concat_snoc.
      * now rewrite Hl.
      * apply NoDup_app. split; [exact Hnd|]. split; [|exact Hn].
        intros q Hq Hq'. destruct (Hp q Hq') as (_ & _ & Hnv).
        rewrite <- not_true_iff_false in Hnv. apply Hnv, Hvis. now exists q.
      * intros q [Hq|Hq]%elem_of_app; [now apply Hpts|].
        destruct (Hp q Hq) as (? & ? & _). now split.
      * intros i. rewrite Hvi, Hvis. split.
        -- intros [(q & Hq & Ei)|(q & Hq & Ei)]; exists q;
             (split; [apply elem_of_app; auto|exact Ei]).
        -- intros (q & [Hq|Hq]%elem_of_app & Ei); [left|right]; now exists q.
      * apply Forall_app. split; [exact Hreg|]. constructor; [|constructor].
        split; [now subst c|]. split; [exact Hc|]. now exists (x, y).
      * intros q Hq. apply elem_of_app. now left.
      * intros _. apply elem_of_app. right. subst c. now left.
    + exists regions, visited. split; [reflexivity|].
      split; [now split|]. split; [auto|]. discriminate.
Qed.

Lemma tracedRegions_scan_invariant data w h (pixels : list (Z * Z)) :
  (forall p, p ∈ pixels -> in_image w h p) ->
  forall regions visited,
    scan_invariant data w h regions visited ->
    exists regions' visited',
      foldl (tracedRegions_step data w h) (Some (regions, visited)) pixels
      = Some (regions', visited')
      /\ scan_invariant data w h regions' visited'
      /\ (forall q, q ∈ concat regions -> q ∈ concat regions')
      /\ (forall p, p ∈ pixels ->
            strong_edge data (pixel_index w p) = true ->
            p ∈ concat regions').
Proof.
  induction pixels as [|p pixels IH]; intros Hpix regions visited Hinv;
    cbn [foldl].
  - exists regions, visited. split; [reflexivity|]. split; [exact Hinv|].
    split; [auto|]. intros p Hp. now apply elem_of_nil in Hp.
  - destruct (tracedRegions_step_invariant data w h regions visited p)
      as (r1 & v1 & -> & Hinv1 & Hmono1 & Hp1);
      [apply Hpix; now left|exact Hinv|].
    destruct (IH (fun q Hq => Hpix q (list_elem_of_further _ _ _ Hq)) r1 v1 Hinv1)
      as (r2 & v2 & E2 & Hinv2 & Hmono2 & Hp2).
    exists r2, v2. split; [exact E2|]. split; [exact Hinv2|].
    split; [auto|].
    intros q [->|Hq]%elem_of_cons Hs; [apply Hmono2, Hp1, Hs|now apply Hp2].
Qed.

Lemma elem_of_scan_order w h x y :
  (x, y) ∈ scan_order w h <-> (0 <= x < w) /\ (0 <= y < h).
Proof.
  unfold scan_order. rewrite list_elem_of_bind. split.
  - intros (y' & Hx & Hy). apply list_elem_of_bind in Hx as (x' & Hx & Hx').
    apply list_elem_of_singleton in Hx. inversion Hx; subst.
    apply elem_of_seqZ in Hy, Hx'. lia.
  - intros [Hx Hy]. exists y. split; [|apply elem_of_seqZ; lia].
    apply list_elem_of_bind. exists x.
    split; [now apply list_elem_of_singleton|apply elem_of_seqZ; lia].
Qed.

(** The whole scan. *)
Lemma tracedRegions_scan (e : ImageData) :
  exists regions visited,
    foldl (tracedRegions_step (data e) (width e) (height e))
      (Some ([], replicate (Z.to_nat (width e * height e)) false))
      (scan_order (width e) (height e))
    = Some (regions, visited)
    /\ scan_invariant (data e) (width e) (height e) regions visited
    /\ (forall p, in_image (width e) (height e) p ->
          strong_edge (data e) (pixel_index (width e) p) = true ->
          p ∈ concat regions).
Proof.
  destruct (tracedRegions_scan_invariant (data e) (width e) (height e)
              (scan_order (width e) (height e)))
    with (regions := @nil (list (Z * Z)))
         (visited := replicate (Z.to_nat (width e * height e)) false)
    as (regions & visited & E & Hinv & _ & Hall).
  - intros [x y] Hp. apply elem_of_scan_order in Hp. exact Hp.
  - apply scan_invariant_start.
  - exists regions, visited. split; [exact E|]. split; [exact Hinv|].
    intros [x y] Hin Hs. apply Hall; [|exact Hs].
    apply elem_of_scan_order. exact Hin.
Qed.

(** X18. The traced regions partition the strong edges: every
    strong-edge pixel of the image lies in exactly one region, the
    regions hold nothing else, and each region is a non-empty connected
    chain of at most 1000 pixels. *)
Theorem tracedRegions_partition (edgeData : ImageData) :
  exists regions,
    tracedRegions edgeData = Some regions
    /\ NoDup (concat regions)
    /\ (forall p, p ∈ concat regions
                  <-> in_image (width edgeData) (height edgeData) p
                      /\ strong_edge (data edgeData)
                           (pixel_index (width edgeData) p) = true)
    /\ Forall (fun c => c <> [] /\ (length c <= 1000)%nat
                        /\ exists start, chained start c) regions.
Proof.
  destruct (tracedRegions_scan edgeData)
    as (regions & visited & E & [_ Hnd Hpts _ Hreg] & Hall).
  exists regions. unfold tracedRegions. rewrite E.
  split; [reflexivity|]. split; [exact Hnd|]. split; [|exact Hreg].
  intros p. split; [apply Hpts|]. intros [Hin Hs]. now apply Hall.
Qed.

Lemma NoDup_concat_filter {A} (f : list A -> bool) (ls : list (list A)) :
  NoDup (concat ls) -> NoDup (concat (List.filter f ls)).
Proof.
  induction ls as [|l ls IH]; [auto|]. cbn [concat List.filter].
  intros [Hl [Hdis Hls]]%NoDup_app. destruct (f l); [|auto].
  cbn [concat]. apply NoDup_app. split; [exact Hl|]. split; [|auto].
  intros x Hx Hx'. apply (Hdis x Hx).
  clear -Hx'. induction ls as [|k ls IH]; [exact Hx'|].
  cbn [concat List.filter] in *. destruct (f k).
  - cbn [concat] in Hx'. apply elem_of_app in Hx' as [?|?];
      apply elem_of_app; auto.
  - apply elem_of_app. auto.
Qed.

(** X19. The contours [findContours] returns are disjoint pieces of
    the edge image: no pixel occurs twice, in one contour or in two;
    every pixel of a contour lies inside the image and is a strong edge;
    every contour is a connected chain of 21 to 1000 pixels. *)
Theorem findContours_disjoint_contours (edgeData : ImageData) :
  exists contours,
    findContours edgeData = Some contours
    /\ NoDup (concat contours)
    /\ (forall p, p ∈ concat contours ->
          in_image (width edgeData) (height edgeData) p
          /\ strong_edge (data edgeData) (pixel_index (width edgeData) p)
             = true)
    /\ Forall (fun c => (21 <= length c <= 1000)%nat
                        /\ exists start, chained start c) contours.
Proof.
  destruct (tracedRegions_scan edgeData)
    as (regions & visited & E & [_ Hnd Hpts _ Hreg] & _).
  destruct (findContours_scan_filter (data edgeData) (width edgeData)
              (height edgeData)
              (scan_order (width edgeData) (height edgeData)) []
              (replicate (Z.to_nat (width edgeData * height edgeData)) false))
    as (regions' & v' & E' & Ef).
  rewrite E in E'. injection E' as <- <-.
  exists (List.filter (fun c => (20 <? length c)%nat) regions).
  unfold findContours. cbn [List.filter] in Ef. rewrite Ef.
  split; [reflexivity|]. split; [now apply NoDup_concat_filter|]. split.
  - intros p Hp. apply Hpts.
    apply list_elem_of_In, in_concat in Hp as (c & Hc & Hp).
    apply List.filter_In in Hc as [Hc _].
    apply list_elem_of_In, in_concat. now exists c.
  - apply Forall_forall. intros c Hc.
    apply list_elem_of_In, List.filter_In in Hc as [Hc Hlen].
    apply Nat.ltb_lt in Hlen.
    rewrite Forall_forall in Hreg.
    destruct (Hreg c) as (_ & Hcap & Hch); [now apply list_elem_of_In|].
    split; [lia|exact Hch].
Qed.

End RegionFacts.

(** ** From an image to its contours *)

Section EdgeContourFacts.
Import Image Regions.
Local Open Scope float_scope.

Local Abbreviation edge_data config imageData :=
  (foldl (Filters.edge_step config (data imageData) (width imageData))
     (replicate (length (data imageData)) 0%Z)
     (blur_order (width imageData) (height imageData) 1)).

(** A strong edge of the edge image is a pixel with all eight neighbours
    whose gradient passed the upper threshold. *)
Lemma detectEdges_strong config (imageData : ImageData) p :
  Z.of_nat (length (data imageData))
  = (4 * width imageData * height imageData)%Z ->
  in_image (width imageData) (height imageData) p ->
  strong_edge (edge_data config imageData) (pixel_index (width imageData) p)
  = true ->
  ((1 <= p.1 < width imageData - 1)%Z /\ (1 <= p.2 < height imageData - 1)%Z)
  /\ Filters.threshold config
       (Filters.gradient (data imageData) (width imageData) p.1 p.2)
     = 255%Z.
Proof.
  intros Hlen [Hx Hy] Hs. unfold strong_edge, pixel_index in Hs.
  destruct (decide ((1 <= p.1 < width imageData - 1)%Z
                    /\ (1 <= p.2 < height imageData - 1)%Z)) as [Hi|Hb].
  - split; [exact Hi|].
    pose proof (edge_fold_inner config imageData p.1 p.2 0 Hlen
                  (proj1 Hi) (proj2 Hi) ltac:(lia)) as Hc.
    rewrite Z.add_0_r in Hc. rewrite Hc in Hs. cbn [Z.ltb Z.compare] in Hs.
    pose proof (threshold_levels config
                  (Filters.gradient (data imageData) (width imageData)
                     p.1 p.2)) as Hlev.
    rewrite !elem_of_cons in Hlev.
    destruct Hlev as [H0|[H0|[H0|H0]]];
      [rewrite H0 in Hs; discriminate|rewrite H0 in Hs; discriminate
      |exact H0|now apply elem_of_nil in H0].
  - pose proof (edge_fold_border config imageData p.1 p.2 0 Hlen Hx Hy Hb
                  ltac:(lia)) as Hc.
    rewrite Z.add_0_r in Hc. rewrite Hc in Hs. discriminate.
Qed.

(** The contours are the traced regions of more than 20 points. *)
Lemma findContours_of_regions (edgeData : ImageData) :
  exists regions visited,
    foldl (tracedRegions_step (data edgeData) (width edgeData)
             (height edgeData))
      (Some ([], replicate (Z.to_nat (width edgeData * height edgeData)) false))
      (scan_order (width edgeData) (height edgeData))
    = Some (regions, visited)
    /\ scan_invariant (data edgeData) (width edgeData) (height edgeData)
         regions visited
    /\ findContours edgeData
       = Some (List.filter (fun c => (20 <? length c)%nat) regions).
Proof.
  destruct (tracedRegions_scan edgeData)
    as (regions & visited & Es & Hinv & _).
  destruct (findContours_scan_filter (data edgeData) (width edgeData)
              (height edgeData)
              (scan_order (width edgeData) (height edgeData)) []
              (replicate (Z.to_nat (width edgeData * height edgeData)) false))
    as (regions' & v' & E' & Ef).
  rewrite Es in E'. injection E' as <- <-.
  exists regions, visited. split; [exact Es|]. split; [exact Hinv|].
  unfold findContours. cbn [List.filter] in Ef. now rewrite Ef.
Qed.

Lemma elem_of_concat_filter {A} (f : list A -> bool) (ls : list (list A)) x :
  x ∈ concat (List.filter f ls) -> x ∈ concat ls.
Proof.
  intros Hx. apply list_elem_of_In, in_concat in Hx as (c & Hc & Hx).
  apply List.filter_In in Hc as [Hc _].
  apply list_elem_of_In, in_concat. now exists c.
Qed.

(** X20. Contours of a detected edge image: after [detectEdges], the
    contours [findContours] returns are made of pixels that have all
    eight neighbours, so none lies on the outermost rows and columns,
    and whose gradient passed the upper threshold: the pixels stored as
    128, between the two thresholds, are never part of a contour. *)
Theorem contours_of_detected_edges (config : Filters.Config)
    (imageData : ImageData) :
  (0 < width imageData)%Z -> (0 < height imageData)%Z ->
  Z.of_nat (length (data imageData))
  = (4 * width imageData * height imageData)%Z ->
  exists edges contours,
    Filters.detectEdges config imageData = Normal edges
    /\ findContours edges = Some contours
    /\ forall p, p ∈ concat contours ->
         ((1 <= p.1 < width imageData - 1)%Z
          /\ (1 <= p.2 < height imageData - 1)%Z)
         /\ Filters.threshold config
              (Filters.gradient (data imageData) (width imageData) p.1 p.2)
            = 255%Z.
Proof.
  intros Hw Hh Hlen.
  rewrite (detectEdges_succeeds config imageData Hw Hh Hlen).
  set (edges := {| width := width imageData |}).
  destruct (findContours_of_regions edges)
    as (regions & visited & _ & [_ _ Hpts _ _] & Ec).
  exists edges, (List.filter (fun c => (20 <? length c)%nat) regions).
  split; [reflexivity|]. split; [exact Ec|].
  intros p Hp%elem_of_concat_filter.
  destruct (Hpts p Hp) as [Himg Hs].
  now apply (detectEdges_strong config imageData p).
Qed.

(** The nine reads of a gradient decide it. *)
Lemma gradient_ext (d1 d2 : list Z) (w1 w2 x1 y1 x2 y2 : Z) :
  (forall kx ky, (-1 <= kx <= 1)%Z -> (-1 <= ky <= 1)%Z ->
     number_at d1 (((y1 + ky) * w1 + (x1 + kx)) * 4)
     = number_at d2 (((y2 + ky) * w2 + (x2 + kx)) * 4)) ->
  Filters.gradient d1 w1 x1 y1 = Filters.gradient d2 w2 x2 y2.
Proof.
  intros H. unfold Filters.gradient. cbn [foldl].
  rewrite !H by lia. reflexivity.
Qed.

(** The gradient of a flat image has magnitude 0, on every byte. *)
Lemma flat_gradient_table :
  forallb (fun v =>
     let g := Filters.gradient (data (uniform_image 3 3 v)) 3 1 1 in
     Leibniz.eqb (Math_sqrt (g.1 * g.1 + g.2 * g.2)) 0)
    (seqZ 0 256) = true.
Proof. vm_compute. reflexivity. Qed.

Lemma uniform_image_3_reads v kx ky :
  (-1 <= kx <= 1)%Z -> (-1 <= ky <= 1)%Z ->
  number_at (data (uniform_image 3 3 v)) (((1 + ky) * 3 + (1 + kx)) * 4)
  = Z2float v.
Proof.
  intros Hx Hy.
  assert (Hkx : (kx = -1 \/ kx = 0 \/ kx = 1)%Z) by lia.
  assert (Hky : (ky = -1 \/ ky = 0 \/ ky = 1)%Z) by lia.
  destruct Hkx as [-> | [-> | ->]]; destruct Hky as [-> | [-> | ->]];
    reflexivity.
Qed.

Lemma threshold_flat config (d : list Z) (w x y v : Z) :
  (0 <= v <= 255)%Z ->
  (0 <=? Filters.cannyLower config) = true ->
  (forall kx ky, (-1 <= kx <= 1)%Z -> (-1 <= ky <= 1)%Z ->
     at_index d (((y + ky) * w + (x + kx)) * 4) = Some v) ->
  Filters.threshold config (Filters.gradient d w x y) = 0%Z.
Proof.
  intros Hv Hlow Hflat.
  rewrite (gradient_ext d (data (uniform_image 3 3 v)) w 3 x y 1 1).
  - pose proof flat_gradient_table as T. rewrite forallb_forall in T.
    specialize (T v). cbv zeta in T.
    apply Leibniz.eqb_spec in T;
      [|apply list_elem_of_In, elem_of_seqZ; lia].
    unfold Filters.threshold. rewrite T.
    now rewrite (leb_ltb_false _ _ Hlow).
  - intros kx ky Hkx Hky. rewrite uniform_image_3_reads by assumption.
    unfold number_at. now rewrite Hflat.
Qed.

(** No gradient of a flat image passes the lower threshold. *)
Lemma edge_fold_flat config (imageData : ImageData) (v x y c : Z) :
  Z.of_nat (length (data imageData))
  = (4 * width imageData * height imageData)%Z ->
  (0 <= v <= 255)%Z ->
  (forall p, (0 <= p < width imageData * height imageData)%Z ->
             at_index (data imageData) (p * 4) = Some v) ->
  (0 <=? Filters.cannyLower config) = true ->
  (0 <= x < width imageData)%Z -> (0 <= y < height imageData)%Z ->
  (0 <= c < 3)%Z ->
  at_index (edge_data config imageData) ((y * width imageData + x) * 4 + c)
  = Some 0%Z.
Proof.
  intros Hlen Hv Hflat Hlow Hx Hy Hc.
  destruct (decide ((1 <= x < width imageData - 1)%Z
                    /\ (1 <= y < height imageData - 1)%Z)) as [Hi|Hb].
  - rewrite edge_fold_inner by (try assumption; lia).
    replace (c <? 3)%Z with true by (symmetry; apply Z.ltb_lt; lia).
    f_equal. apply (threshold_flat config _ _ _ _ v Hv Hlow).
    intros kx ky Hkx Hky. apply Hflat. nia.
  - apply edge_fold_border; try assumption. lia.
Qed.

(** An edge image without strong edges has no contours. *)
Lemma findContours_without_strong_edges (edgeData : ImageData) :
  (forall p, in_image (width edgeData) (height edgeData) p ->
             strong_edge (data edgeData) (pixel_index (width edgeData) p)
             = false) ->
  findContours edgeData = Some [].
Proof.
  intros Hnone.
  destruct (findContours_of_regions edgeData)
    as (regions & visited & _ & [_ _ Hpts _ Hreg] & Ec).
  rewrite Ec. destruct regions as [|r rs]; [reflexivity|].
  apply Forall_cons in Hreg as [(Hne & _) _].
  destruct r as [|q r]; [congruence|].
  destruct (Hpts q) as [Hin Hs]; [now left|].
  rewrite (Hnone q Hin) in Hs. discriminate.
Qed.

(** Every pixel index is that of a column and a row. *)
Lemma pixel_of_index (w h p : Z) :
  (0 < w)%Z -> (0 <= p < w * h)%Z ->
  (0 <= p mod w < w)%Z /\ (0 <= p / w < h)%Z
  /\ (p / w * w + p mod w = p)%Z.
Proof.
  intros Hw Hp.
  pose proof (Z.div_mod p w ltac:(lia)) as Hdm.
  pose proof (Z.mod_pos_bound p w Hw) as Hm.
  split; [exact Hm|]. split; [|lia].
  split; [apply Z.div_pos; lia|].
  apply Z.div_lt_upper_bound; lia.
Qed.

(** X21. An image of one gray level has no edges: when every pixel has
    the same red value and the lower threshold is not negative,
    [detectEdges] stores 0 in every colour channel and [findContours]
    finds no contour in the result. *)
Theorem detectEdges_flat_image (config : Filters.Config)
    (imageData : ImageData) (v : Z) :
  (0 < width imageData)%Z -> (0 < height imageData)%Z ->
  Z.of_nat (length (data imageData))
  = (4 * width imageData * height imageData)%Z ->
  (0 <= v <= 255)%Z ->
  (forall p, (0 <= p < width imageData * height imageData)%Z ->
             at_index (data imageData) (p * 4) = Some v) ->
  (0 <=? Filters.cannyLower config) = true ->
  exists edges,
    Filters.detectEdges config imageData = Normal edges
    /\ (forall p c, (0 <= p < width imageData * height imageData)%Z ->
          (0 <= c < 3)%Z -> at_index (data edges) (p * 4 + c) = Some 0%Z)
    /\ findContours edges = Some [].
Proof.
  intros Hw Hh Hlen Hv Hflat Hlow.
  rewrite (detectEdges_succeeds config imageData Hw Hh Hlen).
  eexists. split; [reflexivity|]. cbn [width height data]. split.
  - intros p c Hp Hc.
    destruct (pixel_of_index _ _ p Hw Hp) as (Hx & Hy & Ep).
    rewrite <- Ep. now apply (edge_fold_flat config imageData v).
  - apply findContours_without_strong_edges. cbn [width height data].
    intros q [Hx Hy]. unfold strong_edge, pixel_index.
    pose proof (edge_fold_flat config imageData v q.1 q.2 0 Hlen Hv Hflat
                  Hlow Hx Hy ltac:(lia)) as Hz.
    rewrite Z.add_0_r in Hz. now rewrite Hz.
Qed.

End EdgeContourFacts.

(** ** Whole numbers in binary64 *)

Section IntegerFloats.
Import Binary64.
Local Open Scope Z_scope.

Lemma ltb_irrefl (a : float) : (a <? a)%float = false.
Proof.
  apply not_true_is_false. rewrite ltb_fcmp. intros E.
  destruct (fcmp_numbers _ _ _ E) as [Ha _].
  rewrite (fcmp_refl a Ha) in E. discriminate.
Qed.

Lemma ltb_numbers (a b : float) :
  (a <? b)%float = true -> is_nan a = false /\ is_nan b = false.
Proof. rewrite ltb_fcmp. apply fcmp_numbers. Qed.

Lemma iter_pos_iter {A : Type} (f : A -> A) (p : positive) (x : A) :
  SpecFloat.iter_pos f p x = Pos.iter f x p.
Proof.
  revert x. induction p as [p IH | p IH | ]; intros x; cbn [SpecFloat.iter_pos Pos.iter].
  - rewrite !IH, !Pos.iter_swap. reflexivity.
  - rewrite !IH. reflexivity.
  - reflexivity.
Qed.

Lemma shiftl_pos_value (q : positive) (t : N) :
  Zpos (Pos.shiftl q t) = Zpos q * 2 ^ Z.of_N t.
Proof.
  destruct t as [ | p]; unfold Pos.shiftl; cbn [Z.of_N].
  - rewrite Z.pow_0_r. lia.
  - induction p as [ | p IH] using Pos.peano_ind.
    + cbn. lia.
    + rewrite Pos.iter_succ, Pos2Z.inj_succ, Z.pow_succ_r by lia.
      rewrite Pos2Z.inj_xO, IH. lia.
Qed.

Lemma digits2_shiftl (q : positive) (t : N) :
  Zpos (digits2_pos (Pos.shiftl q t)) = Zpos (digits2_pos q) + Z.of_N t.
Proof.
  destruct t as [ | p]; unfold Pos.shiftl; cbn [Z.of_N]; [lia | ].
  induction p as [ | p IH] using Pos.peano_ind.
  - cbn. lia.
  - rewrite Pos.iter_succ. cbn [digits2_pos]. lia.
Qed.

Lemma shr_shiftl (q p : positive) :
  SpecFloat.iter_pos shr_1 p
    {| shr_m := Zpos (Pos.iter xO q p); shr_r := false; shr_s := false |}
  = {| shr_m := Zpos q; shr_r := false; shr_s := false |}.
Proof.
  rewrite iter_pos_iter.
  induction p as [ | p IH] using Pos.peano_ind.
  - reflexivity.
  - rewrite (Pos.iter_succ_r p _ shr_1), (Pos.iter_succ p _ xO). exact IH.
Qed.

Lemma digits2_lower (m : positive) : 2 ^ (Zpos (digits2_pos m) - 1) <= Zpos m.
Proof.
  induction m as [m IH | m IH | ]; cbn [digits2_pos].
  - replace (Zpos (Pos.succ (digits2_pos m)) - 1) with (Z.succ (Zpos (digits2_pos m) - 1)) by lia.
    rewrite Z.pow_succ_r by lia. lia.
  - replace (Zpos (Pos.succ (digits2_pos m)) - 1) with (Z.succ (Zpos (digits2_pos m) - 1)) by lia.
    rewrite Z.pow_succ_r by lia. lia.
  - cbn. lia.
Qed.

Lemma digits2_le (m : positive) (b : Z) :
  0 <= b -> Zpos m < 2 ^ b -> Zpos (digits2_pos m) <= b.
Proof.
  intros Hb H. pose proof (digits2_lower m) as L.
  destruct (Z_le_gt_dec (Zpos (digits2_pos m)) b) as [ | G]; [assumption | exfalso].
  assert (2 ^ b <= 2 ^ (Zpos (digits2_pos m) - 1)) by (apply Z.pow_le_mono_r; lia).
  lia.
Qed.

Lemma digits2_le_53 (m : positive) : Zpos m < 2 ^ 53 -> Zpos (digits2_pos m) <= 53.
Proof. apply digits2_le. lia. Qed.

(** Rounding a mantissa that ends in [t] zero bits. *)
Lemma binary_round_aux_exact (s : bool) (q : positive) (t : N) (E : Z) :
  Zpos (digits2_pos q) = 53 ->
  -1074 <= E + Z.of_N t -> E + Z.of_N t <= 971 ->
  binary_round_aux prec emax s (Zpos (Pos.shiftl q t)) E loc_Exact
  = S754_finite s q (E + Z.of_N t).
Proof.
  intros Hq Hlo Hhi.
  unfold binary_round_aux.
  assert (S1 : shr_fexp prec emax (Zpos (Pos.shiftl q t)) E loc_Exact
               = ({| shr_m := Zpos q; shr_r := false; shr_s := false |}, E + Z.of_N t)).
  { unfold shr_fexp. cbn [Zdigits2 shr_record_of_loc].
    rewrite digits2_shiftl, Hq.
    replace (fexp prec emax (53 + Z.of_N t + E) - E) with (Z.of_N t)
      by (unfold fexp, SpecFloat.emin, prec, emax; lia).
    destruct t as [ | p]; unfold Pos.shiftl; cbn [Z.of_N shr].
    - f_equal. lia.
    - rewrite shr_shiftl. reflexivity. }
  rewrite S1. cbn [loc_of_shr_record shr_m shr_r shr_s round_nearest_even].
  assert (S2 : shr_fexp prec emax (Zpos q) (E + Z.of_N t) loc_Exact
               = ({| shr_m := Zpos q; shr_r := false; shr_s := false |}, E + Z.of_N t)).
  { unfold shr_fexp. cbn [Zdigits2 shr_record_of_loc]. rewrite Hq.
    replace (fexp prec emax (53 + (E + Z.of_N t)) - (E + Z.of_N t)) with 0
      by (unfold fexp, SpecFloat.emin, prec, emax; lia).
    reflexivity. }
  rewrite S2. cbn [shr_m].
  replace (E + Z.of_N t <=? emax - prec) with true
    by (symmetry; apply Z.leb_le; unfold prec, emax; lia).
  reflexivity.
Qed.


Lemma shiftl_shiftl (m : positive) (a b : N) :
  Pos.shiftl (Pos.shiftl m a) b = Pos.shiftl m (a + b).
Proof.
  apply Pos2Z.inj. rewrite !shiftl_pos_value, N2Z.inj_add, Z.pow_add_r by lia.
  ring.
Qed.

Lemma binary_round_int (s : bool) (m : positive) (K : N) :
  Zpos m < 2 ^ 53 -> Z.of_N K <= 1000 ->
  binary_round prec emax s (Pos.shiftl m K) (- Z.of_N K)
  = S754_finite s (Pos.shiftl m (Z.to_N (53 - Zpos (digits2_pos m))))
      (Zpos (digits2_pos m) - 53).
Proof.
  intros Hm HK. pose proof (digits2_le_53 m Hm) as Hd.
  set (dg := Zpos (digits2_pos m)) in *.
  assert (0 < dg) by (unfold dg; lia).
  unfold binary_round. rewrite digits2_shiftl. fold dg.
  replace (fexp prec emax (dg + Z.of_N K + - Z.of_N K)) with (dg - 53)
    by (unfold fexp, SpecFloat.emin, prec, emax; lia).
  unfold shl_align.
  destruct (dg - 53 - - Z.of_N K) as [ | p | d] eqn:Ed.
  - replace (Pos.shiftl m K) with (Pos.shiftl (Pos.shiftl m (Z.to_N (53 - dg))) 0)
      by (rewrite shiftl_shiftl; f_equal; lia).
    rewrite binary_round_aux_exact.
    + f_equal. cbn [Z.of_N]. lia.
    + rewrite digits2_shiftl. fold dg. lia.
    + cbn [Z.of_N]. lia.
    + cbn [Z.of_N]. lia.
  - replace (Pos.shiftl m K)
      with (Pos.shiftl (Pos.shiftl m (Z.to_N (53 - dg))) (Npos p))
      by (rewrite shiftl_shiftl; f_equal; lia).
    rewrite binary_round_aux_exact.
    + f_equal. cbn [Z.of_N]. lia.
    + rewrite digits2_shiftl. fold dg. lia.
    + cbn [Z.of_N]. lia.
    + cbn [Z.of_N]. lia.
  - change (Pos.iter xO (Pos.shiftl m K) d) with (Pos.shiftl (Pos.shiftl m K) (Npos d)).
    rewrite shiftl_shiftl.
    replace (K + Npos d)%N with (Z.to_N (53 - dg)) by lia.
    change (Pos.shiftl m (Z.to_N (53 - dg)))
      with (Pos.shiftl (Pos.shiftl m (Z.to_N (53 - dg))) 0) at 1.
    rewrite binary_round_aux_exact.
    + f_equal. cbn [Z.of_N]. lia.
    + rewrite digits2_shiftl. fold dg. lia.
    + cbn [Z.of_N]. lia.
    + cbn [Z.of_N]. lia.
Qed.

Lemma binary_normalize_int (r K : Z) :
  r <> 0 -> Z.abs r < 2 ^ 53 -> 0 <= K <= 1000 ->
  binary_normalize prec emax (r * 2 ^ K) (- K) false = SF_of_int r.
Proof.
  intros Hr Hb HK. unfold SF_of_int, mantissa_of, exponent_of, digits.
  replace (r =? 0) with false by (symmetry; apply Z.eqb_neq; exact Hr).
  destruct r as [ | p | p]; [congruence | | ].
  - replace (Zpos p * 2 ^ K) with (Zpos (Pos.shiftl p (Z.to_N K)))
      by (rewrite shiftl_pos_value, Z2N.id by lia; reflexivity).
    cbn [binary_normalize]. replace (- K) with (- Z.of_N (Z.to_N K)) by lia.
    rewrite binary_round_int by (cbn in Hb; lia). reflexivity.
  - replace (Zneg p * 2 ^ K) with (Zneg (Pos.shiftl p (Z.to_N K)))
      by (rewrite <- !Pos2Z.opp_pos, shiftl_pos_value, Z2N.id by lia; ring).
    cbn [binary_normalize]. replace (- K) with (- Z.of_N (Z.to_N K)) by lia.
    rewrite binary_round_int by (cbn in Hb; lia). reflexivity.
Qed.

Lemma digits_range (k : Z) : k <> 0 -> Z.abs k < 2 ^ 53 -> 1 <= digits k <= 53.
Proof.
  intros Hk Hb. unfold digits. split; [lia | ].
  apply digits2_le_53. rewrite Z2Pos.id by lia. exact Hb.
Qed.

Lemma mantissa_value (k : Z) :
  k <> 0 -> Z.abs k < 2 ^ 53 ->
  Zpos (mantissa_of k) = Z.abs k * 2 ^ (53 - digits k).
Proof.
  intros Hk Hb. pose proof (digits_range k Hk Hb).
  unfold mantissa_of. rewrite shiftl_pos_value, Z2N.id, Z2Pos.id by lia. reflexivity.
Qed.

Lemma mantissa_digits (k : Z) :
  k <> 0 -> Z.abs k < 2 ^ 53 -> Zpos (digits2_pos (mantissa_of k)) = 53.
Proof.
  intros Hk Hb. pose proof (digits_range k Hk Hb).
  unfold mantissa_of. rewrite digits2_shiftl, Z2N.id by lia.
  fold (digits k). lia.
Qed.

Lemma SF_of_int_valid (k : Z) :
  Z.abs k < 2 ^ 53 -> valid_binary (SF_of_int k) = true.
Proof.
  intros Hb. unfold SF_of_int. destruct (Z.eqb_spec k 0) as [ | Hk]; [reflexivity | ].
  pose proof (digits_range k Hk Hb).
  cbn [SpecFloat.valid_binary]. unfold bounded, canonical_mantissa.
  rewrite mantissa_digits by assumption.
  apply andb_true_intro. unfold exponent_of, fexp, SpecFloat.emin, prec, emax.
  split; [apply Z.eqb_eq | apply Z.leb_le]; lia.
Qed.

Lemma Prim2SF_Z2float (k : Z) :
  Z.abs k < 2 ^ 53 -> Prim2SF (Z2float k) = SF_of_int k.
Proof.
  intros Hb. unfold Z2float.
  assert (E : binary_normalize prec emax k 0 false = SF_of_int k).
  { destruct (Z.eq_dec k 0) as [-> | Hk]; [reflexivity | ].
    replace k with (k * 2 ^ 0) at 1 by (rewrite Z.pow_0_r; lia).
    change 0 with (- 0) at 2. apply binary_normalize_int; lia. }
  rewrite E. apply Prim2SF_SF2Prim, SF_of_int_valid, Hb.
Qed.

Lemma encodes_SF_of_int (k : Z) : encodes (SF_of_int k) k.
Proof.
  unfold encodes, SF_of_int. destruct (k =? 0); [exists false | ]; reflexivity.
Qed.

Lemma align_value (k ez : Z) :
  k <> 0 -> Z.abs k < 2 ^ 53 -> ez <= exponent_of k ->
  cond_Zopp (k <? 0)
    (Zpos (fst (shl_align (mantissa_of k) (exponent_of k) ez)))
  = k * 2 ^ (- ez).
Proof.
  intros Hk Hb He. pose proof (digits_range k Hk Hb) as Hd.
  pose proof (mantissa_value k Hk Hb) as Hm.
  unfold exponent_of in *. unfold shl_align.
  assert (Hv : Zpos (fst (match ez - (digits k - 53) with
                          | Zneg d => (Pos.iter xO (mantissa_of k) d, ez)
                          | _ => (mantissa_of k, digits k - 53)
                          end)) = Z.abs k * 2 ^ (- ez)).
  { destruct (ez - (digits k - 53)) as [ | p | d] eqn:Ed; cbn [fst].
    - rewrite Hm. f_equal. f_equal. lia.
    - lia.
    - change (Pos.iter xO (mantissa_of k) d)
        with (Pos.shiftl (mantissa_of k) (Npos d)).
      rewrite shiftl_pos_value, Hm, <- Z.mul_assoc, <- Z.pow_add_r by lia.
      f_equal. f_equal. cbn [Z.of_N]. lia. }
  rewrite Hv. destruct k as [ | p | p]; cbn [Z.ltb Z.compare cond_Zopp Z.abs]; lia.
Qed.

Lemma SFadd_int (a b : Z) (y : spec_float) :
  Z.abs a < 2 ^ 53 -> Z.abs b < 2 ^ 53 -> Z.abs (a + b) < 2 ^ 53 ->
  encodes y b ->
  SFadd prec emax (SF_of_int a) y = SF_of_int (a + b).
Proof.
  intros Ha Hb Hab Hy. unfold encodes in Hy.
  destruct (Z.eqb_spec b 0) as [-> | Hb0].
  - destruct Hy as [s ->]. rewrite Z.add_0_r. unfold SF_of_int.
    destruct (a =? 0); [destruct s | ]; reflexivity.
  - subst y. destruct (Z.eq_dec a 0) as [-> | Ha0].
    { rewrite Z.add_0_l. unfold SF_of_int.
      replace (b =? 0) with false by (symmetry; apply Z.eqb_neq; exact Hb0).
      reflexivity. }
    unfold SF_of_int at 1 2.
    replace (a =? 0) with false by (symmetry; apply Z.eqb_neq; exact Ha0).
    replace (b =? 0) with false by (symmetry; apply Z.eqb_neq; exact Hb0).
    cbn [SFadd].
    pose proof (digits_range a Ha0 Ha). pose proof (digits_range b Hb0 Hb).
    rewrite !align_value by (unfold exponent_of in *; lia).
    rewrite <- Z.mul_add_distr_r.
    destruct (Z.eq_dec (a + b) 0) as [E | E].
    + rewrite E. reflexivity.
    + set (K := - Z.min (exponent_of a) (exponent_of b)).
      replace (Z.min (exponent_of a) (exponent_of b)) with (- K) by (unfold K; lia).
      apply binary_normalize_int; [assumption | assumption | ].
      unfold K, exponent_of. lia.
Qed.

Lemma SFsub_int (a b : Z) (y : spec_float) :
  Z.abs a < 2 ^ 53 -> Z.abs b < 2 ^ 53 -> Z.abs (a - b) < 2 ^ 53 ->
  encodes y b ->
  SFsub prec emax (SF_of_int a) y = SF_of_int (a - b).
Proof.
  intros Ha Hb Hab Hy. unfold encodes in Hy.
  destruct (Z.eqb_spec b 0) as [-> | Hb0].
  - destruct Hy as [s ->]. rewrite Z.sub_0_r. unfold SF_of_int.
    destruct (a =? 0); [destruct s | ]; reflexivity.
  - subst y. destruct (Z.eq_dec a 0) as [-> | Ha0].
    + unfold SF_of_int.
      replace (b =? 0) with false by (symmetry; apply Z.eqb_neq; exact Hb0).
      replace (0 - b =? 0) with false by (symmetry; apply Z.eqb_neq; lia).
      cbn [Z.eqb SFsub]. unfold mantissa_of, exponent_of, digits.
      replace (Z.abs (0 - b)) with (Z.abs b) by lia.
      f_equal. destruct b; try lia; reflexivity.
    + unfold SF_of_int at 1 2.
      replace (a =? 0) with false by (symmetry; apply Z.eqb_neq; exact Ha0).
      replace (b =? 0) with false by (symmetry; apply Z.eqb_neq; exact Hb0).
      cbn [SFsub].
      pose proof (digits_range a Ha0 Ha). pose proof (digits_range b Hb0 Hb).
      rewrite !align_value by (unfold exponent_of in *; lia).
      rewrite <- Z.mul_sub_distr_r.
      destruct (Z.eq_dec (a - b) 0) as [E | E].
      * rewrite E. reflexivity.
      * set (K := - Z.min (exponent_of a) (exponent_of b)).
        replace (Z.min (exponent_of a) (exponent_of b)) with (- K) by (unfold K; lia).
        apply binary_normalize_int; [assumption | assumption | ].
        unfold K, exponent_of. lia.
Qed.

Lemma digits_mul_lower (a b : Z) :
  a <> 0 -> b <> 0 -> digits a + digits b - 1 <= digits (a * b).
Proof.
  intros Ha Hb. unfold digits.
  pose proof (digits2_lower (Z.to_pos (Z.abs a))) as La.
  pose proof (digits2_lower (Z.to_pos (Z.abs b))) as Lb.
  pose proof (digits2_pos_bound (Z.to_pos (Z.abs (a * b)))) as U.
  rewrite Z2Pos.id in La, Lb, U by lia.
  set (da := Zpos (digits2_pos (Z.to_pos (Z.abs a)))) in *.
  set (db := Zpos (digits2_pos (Z.to_pos (Z.abs b)))) in *.
  set (dc := Zpos (digits2_pos (Z.to_pos (Z.abs (a * b))))) in *.
  assert (0 < da) by (unfold da; lia). assert (0 < db) by (unfold db; lia).
  assert (L : 2 ^ (da - 1 + (db - 1)) < 2 ^ dc).
  { rewrite Z.pow_add_r by lia. rewrite Z.abs_mul in U.
    eapply Z.le_lt_trans; [ | exact U].
    apply Z.mul_le_mono_nonneg; try assumption; apply Z.pow_nonneg; lia. }
  apply Z.pow_lt_mono_r_iff in L; lia.
Qed.

Lemma SFmul_int (a b : Z) :
  Z.abs a < 2 ^ 53 -> Z.abs b < 2 ^ 53 -> Z.abs (a * b) < 2 ^ 53 ->
  encodes (SFmul prec emax (SF_of_int a) (SF_of_int b)) (a * b).
Proof.
  intros Ha Hb Hab. unfold encodes.
  destruct (Z.eq_dec a 0) as [-> | Ha0].
  { rewrite Z.mul_0_l. unfold SF_of_int. cbn [Z.eqb].
    destruct (b =? 0); eexists; reflexivity. }
  destruct (Z.eq_dec b 0) as [-> | Hb0].
  { rewrite Z.mul_0_r. unfold SF_of_int. cbn [Z.eqb].
    destruct (a =? 0); eexists; reflexivity. }
  assert (Hab0 : a * b <> 0) by lia.
  replace (a * b =? 0) with false by (symmetry; apply Z.eqb_neq; exact Hab0).
  unfold SF_of_int.
  replace (a =? 0) with false by (symmetry; apply Z.eqb_neq; exact Ha0).
  replace (b =? 0) with false by (symmetry; apply Z.eqb_neq; exact Hb0).
  replace (a * b =? 0) with false by (symmetry; apply Z.eqb_neq; exact Hab0).
  cbn [SFmul].
  pose proof (digits_range a Ha0 Ha). pose proof (digits_range b Hb0 Hb).
  pose proof (digits_range (a * b) Hab0 Hab).
  pose proof (digits_mul_lower a b Ha0 Hb0).
  set (t := 53 - digits a - digits b + digits (a * b)).
  replace (mantissa_of a * mantissa_of b)%positive
    with (Pos.shiftl (mantissa_of (a * b)) (Z.to_N t)).
  2:{ apply Pos2Z.inj. rewrite shiftl_pos_value, Pos2Z.inj_mul.
      rewrite !mantissa_value by assumption. rewrite Z2N.id by (unfold t; lia).
      rewrite Z.abs_mul.
      replace (Z.abs a * 2 ^ (53 - digits a) * (Z.abs b * 2 ^ (53 - digits b)))
        with (Z.abs a * Z.abs b * (2 ^ (53 - digits a) * 2 ^ (53 - digits b))) by ring.
      rewrite <- !Z.mul_assoc. f_equal. f_equal.
      rewrite <- !Z.pow_add_r by (unfold t; lia). f_equal. unfold t. lia. }
  rewrite binary_round_aux_exact.
  - f_equal.
    + destruct a, b; try congruence; reflexivity.
    + unfold exponent_of, t. rewrite Z2N.id by (unfold t; lia). lia.
  - apply mantissa_digits; assumption.
  - unfold exponent_of, t. rewrite Z2N.id by (unfold t; lia). lia.
  - unfold exponent_of, t. rewrite Z2N.id by (unfold t; lia). lia.
Qed.

Lemma SFcompare_int (a b : Z) :
  Z.abs a < 2 ^ 53 -> Z.abs b < 2 ^ 53 ->
  SFcompare (SF_of_int a) (SF_of_int b) = Some (a ?= b).
Proof.
  intros Ha Hb. unfold SF_of_int.
  destruct (Z.eqb_spec a 0) as [-> | Ha0], (Z.eqb_spec b 0) as [-> | Hb0].
  - reflexivity.
  - cbn [SFcompare]. destruct b; try congruence; reflexivity.
  - cbn [SFcompare]. destruct a; try congruence; reflexivity.
  - pose proof (digits_range a Ha0 Ha) as Da. pose proof (digits_range b Hb0 Hb) as Db.
    pose proof (mantissa_value a Ha0 Ha) as Ma.
    pose proof (mantissa_value b Hb0 Hb) as Mb.
    assert (La : 2 ^ (digits a - 1) <= Z.abs a < 2 ^ digits a).
    { unfold digits. split.
      - pose proof (digits2_lower (Z.to_pos (Z.abs a))) as L.
        rewrite Z2Pos.id in L by lia. exact L.
      - pose proof (digits2_pos_bound (Z.to_pos (Z.abs a))) as L.
        rewrite Z2Pos.id in L by lia. exact L. }
    assert (Lb : 2 ^ (digits b - 1) <= Z.abs b < 2 ^ digits b).
    { unfold digits. split.
      - pose proof (digits2_lower (Z.to_pos (Z.abs b))) as L.
        rewrite Z2Pos.id in L by lia. exact L.
      - pose proof (digits2_pos_bound (Z.to_pos (Z.abs b))) as L.
        rewrite Z2Pos.id in L by lia. exact L. }
    assert (Habs : (exponent_of a ?= exponent_of b) = Lt -> Z.abs a < Z.abs b).
    { intros C. assert (C' : exponent_of a < exponent_of b) by exact C. unfold exponent_of in C'.
      assert (2 ^ digits a <= 2 ^ (digits b - 1)) by (apply Z.pow_le_mono_r; lia).
      lia. }
    assert (Habs' : (exponent_of a ?= exponent_of b) = Gt -> Z.abs b < Z.abs a).
    { intros C. assert (C' : exponent_of a > exponent_of b) by exact C. unfold exponent_of in C'.
      assert (2 ^ digits b <= 2 ^ (digits a - 1)) by (apply Z.pow_le_mono_r; lia).
      lia. }
    assert (Heq : (exponent_of a ?= exponent_of b) = Eq ->
                   Pos.compare_cont Eq (mantissa_of a) (mantissa_of b)
                   = (Z.abs a ?= Z.abs b)).
    { intros C. apply Z.compare_eq in C. unfold exponent_of in C.
      change (Pos.compare_cont Eq (mantissa_of a) (mantissa_of b))
        with (Zpos (mantissa_of a) ?= Zpos (mantissa_of b)).
      rewrite Ma, Mb. replace (digits b) with (digits a) by lia.
      symmetry. apply Zmult_compare_compat_r.
      apply Z.lt_gt, Z.pow_pos_nonneg; lia. }
    cbn [SFcompare]. f_equal.
    destruct (exponent_of a ?= exponent_of b) eqn:C.
    + rewrite (Heq eq_refl).
      destruct a as [ | p | p], b as [ | q | q]; try congruence; reflexivity.
    + specialize (Habs eq_refl).
      destruct a as [ | p | p], b as [ | q | q]; try congruence;
        cbn [Z.ltb Z.compare Z.abs] in *; try reflexivity; symmetry.
      * apply Pos.compare_lt_iff. lia.
      * rewrite (proj2 (Pos.compare_lt_iff p q)) by lia. reflexivity.
    + specialize (Habs' eq_refl).
      destruct a as [ | p | p], b as [ | q | q]; try congruence;
        cbn [Z.ltb Z.compare Z.abs] in *; try reflexivity; symmetry.
      * apply Pos.compare_gt_iff. lia.
      * rewrite (proj2 (Pos.compare_gt_iff p q)) by lia. reflexivity.
Qed.

(** *** Arithmetic and order of integers in binary64 *)

Lemma Z2float_add (a b : Z) :
  Z.abs a < 2 ^ 53 -> Z.abs b < 2 ^ 53 -> Z.abs (a + b) < 2 ^ 53 ->
  (Z2float a + Z2float b)%float = Z2float (a + b).
Proof.
  intros Ha Hb Hab. apply Prim2SF_inj.
  rewrite add_spec, !Prim2SF_Z2float by assumption.
  apply SFadd_int; try assumption. apply encodes_SF_of_int.
Qed.

Lemma Z2float_sub (a b : Z) :
  Z.abs a < 2 ^ 53 -> Z.abs b < 2 ^ 53 -> Z.abs (a - b) < 2 ^ 53 ->
  (Z2float a - Z2float b)%float = Z2float (a - b).
Proof.
  intros Ha Hb Hab. apply Prim2SF_inj.
  rewrite sub_spec, !Prim2SF_Z2float by assumption.
  apply SFsub_int; try assumption. apply encodes_SF_of_int.
Qed.

Lemma Z2float_mul (a b : Z) :
  Z.abs a < 2 ^ 53 -> Z.abs b < 2 ^ 53 -> Z.abs (a * b) < 2 ^ 53 ->
  encodes (Prim2SF (Z2float a * Z2float b)%float) (a * b).
Proof.
  intros Ha Hb Hab.
  rewrite mul_spec, !Prim2SF_Z2float by assumption.
  apply SFmul_int; assumption.
Qed.

Lemma Z2float_ltb (a b : Z) :
  Z.abs a < 2 ^ 53 -> Z.abs b < 2 ^ 53 ->
  (Z2float a <? Z2float b)%float = (a <? b).
Proof.
  intros Ha Hb. rewrite ltb_spec, !Prim2SF_Z2float by assumption.
  unfold SFltb. rewrite SFcompare_int by assumption.
  unfold Z.ltb. reflexivity.
Qed.

Lemma Z2float_leb (a b : Z) :
  Z.abs a < 2 ^ 53 -> Z.abs b < 2 ^ 53 ->
  (Z2float a <=? Z2float b)%float = (a <=? b).
Proof.
  intros Ha Hb. rewrite leb_spec, !Prim2SF_Z2float by assumption.
  unfold SFleb. rewrite SFcompare_int by assumption.
  unfold Z.leb. destruct (a ?= b); reflexivity.
Qed.

Lemma Z2float_number (k : Z) : Z.abs k < 2 ^ 53 -> is_nan (Z2float k) = false.
Proof.
  intros Hk. apply not_true_is_false. rewrite is_nan_Prim2SF.
  rewrite Prim2SF_Z2float by assumption. unfold SF_of_int.
  destruct (k =? 0); discriminate.
Qed.

Lemma integer_part_Z2float (k : Z) :
  Z.abs k < 2 ^ 53 -> ROI.integer_part (Z2float k) = k.
Proof.
  intros Hb. unfold ROI.integer_part. rewrite Prim2SF_Z2float by assumption.
  unfold SF_of_int. destruct (Z.eqb_spec k 0) as [-> | Hk]; [reflexivity | ].
  pose proof (digits_range k Hk Hb) as Hd.
  rewrite (mantissa_value k Hk Hb). unfold exponent_of.
  assert (E : (if 0 <=? digits k - 53
               then Z.abs k * 2 ^ (53 - digits k) * 2 ^ (digits k - 53)
               else Z.abs k * 2 ^ (53 - digits k) / 2 ^ (- (digits k - 53)))
              = Z.abs k).
  { destruct (Z.leb_spec 0 (digits k - 53)) as [L | L].
    - replace (digits k) with 53 by lia. cbn [Z.sub Z.opp Z.add Z.pos_sub].
      rewrite Z.pow_0_r. lia.
    - replace (- (digits k - 53)) with (53 - digits k) by lia.
      apply Z.div_mul. apply Z.pow_nonzero; lia. }
  rewrite E. destruct k; try congruence; reflexivity.
Qed.

(** *** The results of [Math.floor] against integers *)

Lemma shape_compare (f : float) (sh : shape) (n : Z) :
  has_shape f sh -> is_number sh = true -> Z.abs n < 2 ^ 52 ->
  SFcompare (Prim2SF f) (SF_of_int n) = Some (key sh ?= n).
Proof.
  intros Hf Hn Hb.
  assert (Hb' : Z.abs n < 2 ^ 53) by lia.
  destruct sh as [ | s | s | k | s]; cbn [has_shape key is_number] in *.
  - discriminate.
  - rewrite Hf. unfold SF_of_int.
    destruct (n =? 0), s; cbn [SFcompare]; f_equal; symmetry;
      first [apply Z.compare_lt_iff | apply Z.compare_gt_iff]; lia.
  - rewrite Hf. unfold SF_of_int.
    destruct (Z.eqb_spec n 0) as [-> | Hn0]; [reflexivity | ].
    cbn [SFcompare]. destruct n; try congruence; reflexivity.
  - destruct Hf as (Hk & Hkb & ->). rewrite Prim2SF_Z2float by assumption.
    apply SFcompare_int; assumption.
  - destruct Hf as (m & e & -> & He). unfold SF_of_int.
    destruct (Z.eqb_spec n 0) as [-> | Hn0].
    + destruct s; reflexivity.
    + assert (Hx : exponent_of n < 0).
      { unfold exponent_of, digits.
        pose proof (digits2_le (Z.to_pos (Z.abs n)) 52 ltac:(lia)) as D.
        rewrite Z2Pos.id in D by lia. specialize (D Hb). lia. }
      assert (C : (e ?= exponent_of n) = Gt) by (apply Z.compare_gt_iff; lia).
      cbn [SFcompare]. rewrite C. f_equal.
      destruct s, n as [ | p | p]; try congruence;
        cbn [Z.ltb Z.compare]; symmetry;
        first [apply Z.compare_lt_iff | apply Z.compare_gt_iff]; cbn in Hb; lia.
Qed.

Lemma shape_number (f : float) (sh : shape) :
  has_shape f sh -> is_nan f = negb (is_number sh).
Proof.
  intros Hf. destruct sh as [ | s | s | k | s]; cbn [has_shape is_number negb] in *.
  - apply is_nan_Prim2SF, Hf.
  - apply not_true_is_false. rewrite is_nan_Prim2SF, Hf. discriminate.
  - apply not_true_is_false. rewrite is_nan_Prim2SF, Hf. discriminate.
  - destruct Hf as (_ & Hk & ->). apply Z2float_number, Hk.
  - destruct Hf as (m & e & Hf & _).
    apply not_true_is_false. rewrite is_nan_Prim2SF, Hf. discriminate.
Qed.

Lemma shape_ltb (f : float) (sh : shape) (n : Z) :
  has_shape f sh -> is_number sh = true -> Z.abs n < 2 ^ 52 ->
  (f <? Z2float n)%float = (key sh <? n).
Proof.
  intros Hf Hn Hb. rewrite ltb_spec, Prim2SF_Z2float by lia.
  unfold SFltb. rewrite (shape_compare f sh n) by assumption. reflexivity.
Qed.

Lemma shape_gtb (f : float) (sh : shape) (n : Z) :
  has_shape f sh -> is_number sh = true -> Z.abs n < 2 ^ 52 ->
  (Z2float n <? f)%float = (n <? key sh).
Proof.
  intros Hf Hn Hb. rewrite ltb_spec, Prim2SF_Z2float by lia.
  unfold SFltb. rewrite SFcompare_swap, (shape_compare f sh n) by assumption.
  unfold Z.ltb. rewrite (Z.compare_antisym (key sh) n).
  destruct (key sh ?= n); reflexivity.
Qed.

Lemma shape_geb (f : float) (sh : shape) (n : Z) :
  has_shape f sh -> is_number sh = true -> Z.abs n < 2 ^ 52 ->
  (Z2float n <=? f)%float = (n <=? key sh).
Proof.
  intros Hf Hn Hb. rewrite leb_spec, Prim2SF_Z2float by lia.
  unfold SFleb. rewrite SFcompare_swap, (shape_compare f sh n) by assumption.
  unfold Z.leb. rewrite (Z.compare_antisym (key sh) n).
  destruct (key sh ?= n); reflexivity.
Qed.

Lemma shape_of_key (f : float) (sh : shape) :
  has_shape f sh -> is_number sh = true -> key sh <> 0 ->
  Z.abs (key sh) < 2 ^ 52 -> f = Z2float (key sh).
Proof.
  intros Hf Hn H0 Hb.
  destruct sh as [ | [] | s | k | []]; cbn [has_shape key is_number] in *;
    try discriminate; try lia. tauto.
Qed.

Lemma shape_neg_zero (f : float) (sh : shape) :
  has_shape f sh -> is_neg_zero f = true -> key sh = 0.
Proof.
  intros Hf Hz. apply is_neg_zero_Prim2SF in Hz.
  destruct sh as [ | s | s | k | s]; cbn [has_shape key] in *; try congruence.
  - destruct Hf as (Hk & Hb & ->). rewrite Prim2SF_Z2float in Hz by assumption.
    unfold SF_of_int in Hz. destruct (k =? 0); discriminate.
  - destruct Hf as (m & e & Hf & _). congruence.
Qed.

Lemma shiftr_bound (s : bool) (m : positive) (d : Z) :
  0 <= d ->
  let k := Z.shiftr (cond_Zopp s (Zpos m)) d in
  Z.abs k <= Zpos m /\ (s = false -> 0 <= k).
Proof.
  intros Hd k. unfold k. rewrite Z.shiftr_div_pow2 by assumption.
  assert (HP : 0 < 2 ^ d) by (apply Z.pow_pos_nonneg; lia).
  destruct s; cbn [cond_Zopp].
  - split; [ | discriminate].
    pose proof (Z.div_mod (- Zpos m) (2 ^ d) ltac:(lia)) as E.
    pose proof (Z.mod_pos_bound (- Zpos m) (2 ^ d) HP) as R.
    assert (- Zpos m / 2 ^ d <= 0) by (apply Z.div_le_upper_bound; lia).
    assert (- Zpos m <= - Zpos m / 2 ^ d) by (apply Z.div_le_lower_bound; nia).
    lia.
  - split; [ | intros _; apply Z.div_pos; lia].
    assert (0 <= Zpos m / 2 ^ d) by (apply Z.div_pos; lia).
    assert (Zpos m / 2 ^ d <= Zpos m) by (apply Z.div_le_upper_bound; nia).
    lia.
Qed.

(** [Math.floor] returns NaN, an infinity, a zero, a non-zero integer
    below 2^53 in magnitude, or a float that is at least 2^52 in
    magnitude; and nothing negative on an argument that is not. *)
Lemma Math_floor_shape (x : float) :
  exists sh, has_shape (Math_floor x) sh
             /\ (not_below_zero (Prim2SF x) = true -> 0 <= key sh).
Proof.
  unfold Math_floor. destruct (Prim2SF x) as [s | s | | s m e] eqn:E.
  - exists (ShZero s). split; [exact E | intros _; reflexivity].
  - exists (ShInf s). split; [exact E | ].
    destruct s; [discriminate | intros _; cbn; lia].
  - exists ShNaN. split; [exact E | intros _; reflexivity].
  - destruct (Z.leb_spec 0 e) as [He | He].
    + exists (ShBig s). split; [exists m, e; split; assumption | ].
      destruct s; [discriminate | intros _; cbn; lia].
    + pose proof (shiftr_bound s m (- e) ltac:(lia)) as [Hk Hs].
      pose proof (mantissa_bound x s m e E) as Hm.
      unfold signed_integer.
      destruct (Z.eqb_spec (Z.shiftr (cond_Zopp s (Zpos m)) (- e)) 0) as [Hz | Hz].
      * exists (ShZero s). split; [destruct s; reflexivity | intros _; reflexivity].
      * exists (ShInt (Z.shiftr (cond_Zopp s (Zpos m)) (- e))).
        split; [split; [exact Hz | split; [lia | reflexivity]] | ].
        destruct s; [discriminate | intros _; cbn [key]; auto].
Qed.

Lemma Math_min_shape (f : float) (sh : shape) (n : Z) :
  has_shape f sh -> is_number sh = true -> Z.abs n < 2 ^ 52 ->
  Math_min f (Z2float n)
  = if key sh <? n then f
    else if n <? key sh then Z2float n
    else if is_neg_zero f then f else Z2float n.
Proof.
  intros Hf Hn Hb. unfold Math_min.
  rewrite (shape_number f sh Hf), Hn, Z2float_number by lia. cbn [negb orb].
  rewrite (shape_ltb f sh n), (shape_gtb f sh n) by assumption. reflexivity.
Qed.

Lemma Math_min_nan_l (f b : float) : is_nan f = true -> Math_min f b = nan.
Proof. intros H. unfold Math_min. rewrite H. reflexivity. Qed.

Lemma Math_min_nan_r (f b : float) : is_nan b = true -> Math_min f b = nan.
Proof. intros H. unfold Math_min. rewrite H, orb_true_r. reflexivity. Qed.

Lemma Math_max_zero_shape (g : float) (sg : shape) :
  has_shape g sg -> is_number sg = true ->
  Math_max 0 g = if 0 <? key sg then g else 0%float.
Proof.
  intros Hg Hn. unfold Math_max.
  rewrite (shape_number g sg Hg), Hn. cbn [negb orb].
  change (is_nan 0) with false. cbn [orb].
  change 0%float with (Z2float 0).
  rewrite (shape_ltb g sg 0), (shape_gtb g sg 0) by (assumption || (cbn; lia)).
  destruct (0 <? key sg); [reflexivity | ].
  destruct (key sg <? 0); reflexivity.
Qed.

(** The clamp of [extractROI]: [Math.max(0, Math.min(v, n))]. *)
Lemma clamp_shape (f : float) (sh : shape) (n : Z) :
  has_shape f sh -> is_number sh = true -> 0 <= n < 2 ^ 52 ->
  Math_max 0 (Math_min f (Z2float n))
  = Z2float (Z.max 0 (Z.min (key sh) n)).
Proof.
  intros Hf Hn Hb.
  assert (Hbn : Z.abs n < 2 ^ 52) by lia.
  assert (Hnn : has_shape (Z2float n) (if n =? 0 then ShZero false else ShInt n)).
  { destruct (Z.eqb_spec n 0) as [-> | H0]; cbn [has_shape]; [reflexivity | ].
    split; [exact H0 | split; [lia | reflexivity]]. }
  assert (Hkn : key (if n =? 0 then ShZero false else ShInt n) = n).
  { destruct (Z.eqb_spec n 0) as [-> | H0]; reflexivity. }
  assert (Hmn : is_number (if n =? 0 then ShZero false else ShInt n) = true)
    by (destruct (n =? 0); reflexivity).
  assert (Rn : Math_max 0 (Z2float n) = Z2float n).
  { rewrite (Math_max_zero_shape _ _ Hnn Hmn), Hkn.
    destruct (Z.ltb_spec 0 n) as [L | L]; [reflexivity | ].
    replace n with 0 by lia. reflexivity. }
  rewrite (Math_min_shape f sh n Hf Hn Hbn).
  destruct (Z.ltb_spec (key sh) n) as [L1 | L1].
  - rewrite (Math_max_zero_shape f sh Hf Hn).
    destruct (Z.ltb_spec 0 (key sh)) as [L2 | L2].
    + rewrite Z.min_l, Z.max_r by lia.
      apply (shape_of_key f sh Hf Hn); lia.
    + rewrite Z.max_l by lia. reflexivity.
  - destruct (Z.ltb_spec n (key sh)) as [L2 | L2].
    + rewrite Rn. f_equal. lia.
    + assert (Ek : key sh = n) by lia.
      destruct (is_neg_zero f) eqn:Ez.
      * pose proof (shape_neg_zero f sh Hf Ez) as K0.
        rewrite (Math_max_zero_shape f sh Hf Hn), K0. cbn [Z.ltb Z.compare].
        replace n with 0 by lia. reflexivity.
      * rewrite Rn. f_equal. lia.
Qed.

(** The width that is left: [Math.min(v, d)] for a [v] that is not
    negative. *)
Lemma remaining_shape (f : float) (sh : shape) (d : Z) :
  has_shape f sh -> is_number sh = true -> 0 <= key sh -> 1 <= d < 2 ^ 52 ->
  (1 <=? f)%float = (1 <=? key sh)
  /\ (1 <= key sh ->
      Math_min f (Z2float d) = Z2float (Z.min (key sh) d))
  /\ (key sh < 1 -> ROI.integer_part (Math_min f (Z2float d)) = 0).
Proof.
  intros Hf Hn Hk Hd.
  assert (Hbd : Z.abs d < 2 ^ 52) by lia.
  split; [ | split].
  - change 1%float with (Z2float 1).
    apply (shape_geb f sh 1 Hf Hn). cbn. lia.
  - intros H1. rewrite (Math_min_shape f sh d Hf Hn Hbd).
    destruct (Z.ltb_spec (key sh) d) as [L1 | L1].
    + rewrite Z.min_l by lia. apply (shape_of_key f sh Hf Hn); lia.
    + rewrite Z.min_r by lia.
      destruct (Z.ltb_spec d (key sh)) as [L2 | L2]; [reflexivity | ].
      destruct (is_neg_zero f) eqn:Ez; [ | reflexivity].
      pose proof (shape_neg_zero f sh Hf Ez). lia.
  - intros H1. assert (K0 : key sh = 0) by lia.
    rewrite (Math_min_shape f sh d Hf Hn Hbd), K0.
    replace (0 <? d) with true by (symmetry; apply Z.ltb_lt; lia).
    destruct sh as [ | [] | s | k | []]; cbn [has_shape key is_number] in *;
      try discriminate; try lia.
    unfold ROI.integer_part. rewrite Hf. reflexivity.
Qed.

(** *** Signs *)

Lemma binary_round_aux_sign (m e : Z) (l : location) :
  sign_false (binary_round_aux prec emax false m e l) = true.
Proof.
  unfold binary_round_aux.
  destruct (shr_fexp prec emax m e l) as [mrs' e'].
  destruct (shr_fexp prec emax _ e' loc_Exact) as [mrs'' e''].
  destruct (shr_m mrs''); [reflexivity | | reflexivity].
  destruct (e'' <=? emax - prec); reflexivity.
Qed.

Lemma leb_zero_not_below (a : float) :
  (0 <=? a)%float = true -> not_below_zero (Prim2SF a) = true.
Proof.
  rewrite leb_spec. change (Prim2SF 0) with (S754_zero false).
  destruct (Prim2SF a) as [s | [] | | [] m e]; cbn; congruence.
Qed.

Lemma scale_sign (n d : Z) :
  0 < n < 2 ^ 53 -> 0 < d < 2 ^ 53 ->
  sign_false (Prim2SF (Z2float n / Z2float d)) = true.
Proof.
  intros Hn Hd. rewrite div_spec, !Prim2SF_Z2float by lia.
  unfold SF_of_int.
  replace (n =? 0) with false by (symmetry; apply Z.eqb_neq; lia).
  replace (d =? 0) with false by (symmetry; apply Z.eqb_neq; lia).
  replace (n <? 0) with false by (symmetry; apply Z.ltb_ge; lia).
  replace (d <? 0) with false by (symmetry; apply Z.ltb_ge; lia).
  unfold SF64div. cbn [SFdiv].
  destruct (SFdiv_core_binary _ _ _ _ _ _) as [[mz ez] lz].
  apply binary_round_aux_sign.
Qed.

Lemma mul_not_below (a b : float) :
  not_below_zero (Prim2SF a) = true -> sign_false (Prim2SF b) = true ->
  not_below_zero (Prim2SF (a * b)) = true.
Proof.
  rewrite mul_spec. unfold SF64mul.
  destruct (Prim2SF a) as [sa | [] | | [] ma ea],
    (Prim2SF b) as [[] | [] | | [] mb eb];
    cbn [SFmul not_below_zero sign_false negb xorb]; intros Ha Hb;
    try discriminate; try reflexivity; try (destruct sa; reflexivity).
  pose proof (binary_round_aux_sign (Zpos (ma * mb)) (ea + eb) loc_Exact) as S.
  destruct (binary_round_aux _ _ _ _ _ _) as [[] | [] | | [] m e];
    cbn in S |- *; congruence.
Qed.

Lemma is_nan_sub_r (a b : float) : is_nan b = true -> is_nan (a - b) = true.
Proof.
  rewrite !is_nan_Prim2SF, sub_spec. intros ->.
  destruct (Prim2SF a); reflexivity.
Qed.

End IntegerFloats.

(** ** Measuring contours *)

Section MeasureFacts.
Import Contours.

Lemma lower_fold (vs : list Z) :
  forall m0 : option Z,
    vs <> [] \/ is_Some m0 ->
    exists m,
      foldl lower m0 vs = Some m
      /\ (forall v, v ∈ vs -> m <= v)
      /\ (forall a, m0 = Some a -> m <= a)
      /\ (m0 = Some m \/ m ∈ vs).
Proof.
  induction vs as [|v vs IH]; intros m0 H0; cbn [foldl].
  - destruct H0 as [?|[a ->]]; [congruence|]. exists a.
    split; [reflexivity|]. split; [intros v Hv; now apply elem_of_nil in Hv|].
    split; [intros ? [= <-]; lia|now left].
  - destruct (IH (lower m0 v)) as (m & E & Hle & Hinit & Hatt);
      [right; now eexists|].
    exists m. split; [exact E|]. unfold lower in Hinit, Hatt.
    specialize (Hinit _ eq_refl). split; [|split].
    + intros u [->|Hu]%elem_of_cons; [destruct m0; lia|now apply Hle].
    + intros a ->. lia.
    + destruct Hatt as [[= Hm]|Hm]; [|right; apply elem_of_cons; now right].
      destruct m0 as [a|]; [|right; apply elem_of_cons; left; congruence].
      destruct (Z.min_spec a v) as [[_ Hmin]|[_ Hmin]].
      * left. congruence.
      * right. apply elem_of_cons. left. congruence.
Qed.

Lemma upper_fold (vs : list Z) :
  forall m0 : option Z,
    vs <> [] \/ is_Some m0 ->
    exists m,
      foldl upper m0 vs = Some m
      /\ (forall v, v ∈ vs -> v <= m)
      /\ (forall a, m0 = Some a -> a <= m)
      /\ (m0 = Some m \/ m ∈ vs).
Proof.
  induction vs as [|v vs IH]; intros m0 H0; cbn [foldl].
  - destruct H0 as [?|[a ->]]; [congruence|]. exists a.
    split; [reflexivity|]. split; [intros v Hv; now apply elem_of_nil in Hv|].
    split; [intros ? [= <-]; lia|now left].
  - destruct (IH (upper m0 v)) as (m & E & Hle & Hinit & Hatt);
      [right; now eexists|].
    exists m. split; [exact E|]. unfold upper in Hinit, Hatt.
    specialize (Hinit _ eq_refl). split; [|split].
    + intros u [->|Hu]%elem_of_cons; [destruct m0; lia|now apply Hle].
    + intros a ->. lia.
    + destruct Hatt as [[= Hm]|Hm]; [|right; apply elem_of_cons; now right].
      destruct m0 as [a|]; [|right; apply elem_of_cons; left; congruence].
      destruct (Z.max_spec a v) as [[_ Hmax]|[_ Hmax]].
      * right. apply elem_of_cons. left. congruence.
      * left. congruence.
Qed.

(** The four bounds are four independent folds. *)
Lemma bounds_of_folds (contour : list (Z * Z)) :
  forall b,
    let r := foldl (fun b p =>
                      {| minX := lower (minX b) p.1;
                         minY := lower (minY b) p.2;
                         maxX := upper (maxX b) p.1;
                         maxY := upper (maxY b) p.2 |}) b contour in
    minX r = foldl lower (minX b) contour.*1
    /\ minY r = foldl lower (minY b) contour.*2
    /\ maxX r = foldl upper (maxX b) contour.*1
    /\ maxY r = foldl upper (maxY b) contour.*2.
Proof.
  induction contour as [|p contour IH]; intros b; cbn [foldl fmap list_fmap].
  - repeat split.
  - apply IH.
Qed.

Lemma elem_of_fst (contour : list (Z * Z)) v :
  v ∈ contour.*1 -> exists p, p ∈ contour /\ p.1 = v.
Proof. intros (p & -> & Hp)%list_elem_of_fmap. now exists p. Qed.

Lemma elem_of_snd (contour : list (Z * Z)) v :
  v ∈ contour.*2 -> exists p, p ∈ contour /\ p.2 = v.
Proof. intros (p & -> & Hp)%list_elem_of_fmap. now exists p. Qed.

(** X22. The bounding box of a contour encloses every point and is
    tight: each of its four sides passes through a point of the contour,
    and its width and height are not negative. Without points it is the
    zero box. *)
Theorem calculateBoundingBox_encloses (contour : list (Z * Z)) :
  (contour = [] ->
   calculateBoundingBox contour
   = {| bb_x := 0; bb_y := 0; bb_width := 0; bb_height := 0 |})
  /\ (contour <> [] ->
      let b := calculateBoundingBox contour in
      (forall p, p ∈ contour ->
         bb_x b <= p.1 <= bb_x b + bb_width b
         /\ bb_y b <= p.2 <= bb_y b + bb_height b)
      /\ (exists p, p ∈ contour /\ p.1 = bb_x b)
      /\ (exists p, p ∈ contour /\ p.1 = bb_x b + bb_width b)
      /\ (exists p, p ∈ contour /\ p.2 = bb_y b)
      /\ (exists p, p ∈ contour /\ p.2 = bb_y b + bb_height b)
      /\ 0 <= bb_width b /\ 0 <= bb_height b).
Proof.
  split; [now intros ->|]. intros Hne b. subst b.
  unfold calculateBoundingBox.
  destruct contour as [|p0 rest] eqn:Ec; [congruence|].
  rewrite <- Ec in *. assert (Hl : (length contour =? 0)%nat = false)
    by (now rewrite Ec).
  rewrite Hl. cbn [bb_x bb_y bb_width bb_height].
  destruct (bounds_of_folds contour
              {| minX := None; minY := None; maxX := None; maxY := None |})
    as (E1 & E2 & E3 & E4).
  cbn [minX minY maxX maxY] in E1, E2, E3, E4.
  fold (bounds_of contour) in E1, E2, E3, E4.
  assert (H1 : contour.*1 <> []) by (now rewrite Ec).
  assert (H2 : contour.*2 <> []) by (now rewrite Ec).
  destruct (lower_fold contour.*1 None (or_introl H1))
    as (x0 & Ex0 & Lx0 & _ & [?|Ax0]); [discriminate|].
  destruct (lower_fold contour.*2 None (or_introl H2))
    as (y0 & Ey0 & Ly0 & _ & [?|Ay0]); [discriminate|].
  destruct (upper_fold contour.*1 None (or_introl H1))
    as (x1 & Ex1 & Lx1 & _ & [?|Ax1]); [discriminate|].
  destruct (upper_fold contour.*2 None (or_introl H2))
    as (y1 & Ey1 & Ly1 & _ & [?|Ay1]); [discriminate|].
  rewrite E1, E2, E3, E4, Ex0, Ey0, Ex1, Ey1. cbn [default from_option].
  unfold id.
  assert (Hin : forall p : Z * Z, p ∈ contour ->
            p.1 ∈ contour.*1 /\ p.2 ∈ contour.*2).
  { intros p Hp. split; apply list_elem_of_fmap; now exists p. }
  split; [|split; [|split; [|split; [|split]]]].
  - intros p Hp. destruct (Hin p Hp) as [Hp1 Hp2].
    pose proof (Lx0 _ Hp1). pose proof (Lx1 _ Hp1).
    pose proof (Ly0 _ Hp2). pose proof (Ly1 _ Hp2). lia.
  - now apply elem_of_fst.
  - replace (x0 + (x1 - x0)) with x1 by lia. now apply elem_of_fst.
  - now apply elem_of_snd.
  - replace (y0 + (y1 - y0)) with y1 by lia. now apply elem_of_snd.
  - pose proof (Lx0 _ Ax1). pose proof (Ly0 _ Ay1). lia.
Qed.

Local Abbreviation zsum l := (foldr Z.add 0 l).

Lemma zsum_app (l k : list Z) : zsum (l ++ k) = zsum l + zsum k.
Proof. induction l as [|a l IH]; cbn [foldr app]; lia. Qed.

Lemma zsum_ext (f g : nat -> Z) (l : list nat) :
  (forall i, i ∈ l -> f i = g i) -> zsum (f <$> l) = zsum (g <$> l).
Proof.
  induction l as [|i l IH]; intros H; cbn [foldr fmap list_fmap];
    [reflexivity|].
  rewrite (H i) by now left. rewrite IH; [reflexivity|].
  intros j Hj. apply H. now right.
Qed.

Lemma zsum_plus (f g : nat -> Z) (l : list nat) :
  zsum ((fun i => f i + g i) <$> l) = zsum (f <$> l) + zsum (g <$> l).
Proof. induction l as [|i l IH]; cbn [foldr fmap list_fmap]; lia. Qed.

Lemma zsum_scale (k : Z) (f : nat -> Z) (l : list nat) :
  zsum ((fun i => k * f i) <$> l) = k * zsum (f <$> l).
Proof. induction l as [|i l IH]; cbn [foldr fmap list_fmap]; lia. Qed.

(** The loop adds one product and subtracts another at each index. *)
Lemma foldl_as_sums (F G : nat -> Z) (l : list nat) :
  forall a, foldl (fun area i => area + F i - G i) a l
            = a + zsum (F <$> l) - zsum (G <$> l).
Proof.
  induction l as [|i l IH]; intros a; cbn [foldl foldr fmap list_fmap];
    [lia|].
  rewrite IH. lia.
Qed.

(** Summing over the successors around the cycle is summing over the
    cycle. *)
Lemma cyclic_shift_sum (g : nat -> Z) (n : nat) :
  zsum ((fun i => g ((i + 1) mod n)%nat) <$> seq 0 n) = zsum (g <$> seq 0 n).
Proof.
  destruct n as [|m]; [reflexivity|].
  rewrite seq_S at 1. rewrite fmap_app, zsum_app. cbn [fmap list_fmap foldr].
  replace ((0 + m + 1) mod S m)%nat with 0%nat
    by (replace (0 + m + 1)%nat with (S m) by lia;
        now rewrite Nat.Div0.mod_same).
  rewrite (zsum_ext _ (fun i => g (S i))).
  - cbn [seq fmap list_fmap foldr]. rewrite <- seq_shift.
    change (map S (seq 0 m)) with (S <$> seq 0 m).
    rewrite <- list_fmap_compose. unfold compose. lia.
  - intros i Hi. apply list_elem_of_In, in_seq in Hi.
    rewrite Nat.mod_small by lia. f_equal. lia.
Qed.

Lemma exact_shoelace_sums (contour : list (Z * Z)) :
  let n := length contour in
  exact_shoelace contour
  = zsum ((fun i => (contour !!! i).1 * (contour !!! ((i + 1) mod n)%nat).2)
            <$> seq 0 n)
    - zsum ((fun i => (contour !!! ((i + 1) mod n)%nat).1 * (contour !!! i).2)
              <$> seq 0 n).
Proof.
  intros n. unfold exact_shoelace. fold n.
  rewrite (foldl_as_sums
             (fun i => (contour !!! i).1 * (contour !!! ((i + 1) mod n)%nat).2)
             (fun i => (contour !!! ((i + 1) mod n)%nat).1 * (contour !!! i).2)).
  lia.
Qed.

Lemma lookup_total_elem_of (contour : list (Z * Z)) (i : nat) :
  (i < length contour)%nat -> contour !!! i ∈ contour.
Proof. intros Hi. apply list_elem_of_lookup_total. now exists i. Qed.

Lemma successor_in_range (i n : nat) :
  i ∈ seq 0 n -> (i < n)%nat /\ ((i + 1) mod n < n)%nat.
Proof.
  intros Hi. apply list_elem_of_In, in_seq in Hi.
  split; [lia|]. apply Nat.mod_upper_bound. lia.
Qed.

(** Points on one row enclose nothing. *)
Lemma exact_shoelace_row (contour : list (Z * Z)) (y0 : Z) :
  (forall p, p ∈ contour -> p.2 = y0) -> exact_shoelace contour = 0.
Proof.
  intros Hrow. rewrite exact_shoelace_sums. cbv zeta.
  set (n := length contour).
  rewrite (zsum_ext _ (fun i => y0 * (contour !!! i).1)).
  2:{ intros i [Hi Hj]%successor_in_range.
      rewrite (Hrow (contour !!! ((i + 1) mod n)%nat))
        by now apply lookup_total_elem_of.
      lia. }
  rewrite (zsum_ext (fun i => (contour !!! ((i + 1) mod n)%nat).1 * _)
             (fun i => (fun k => y0 * (contour !!! k).1) ((i + 1) mod n)%nat)).
  2:{ intros i [Hi Hj]%successor_in_range.
      rewrite (Hrow (contour !!! i)) by now apply lookup_total_elem_of.
      lia. }
  rewrite (cyclic_shift_sum (fun k => y0 * (contour !!! k).1)). lia.
Qed.

(** Points on one column enclose nothing. *)
Lemma exact_shoelace_column (contour : list (Z * Z)) (x0 : Z) :
  (forall p, p ∈ contour -> p.1 = x0) -> exact_shoelace contour = 0.
Proof.
  intros Hcol. rewrite exact_shoelace_sums. cbv zeta.
  set (n := length contour).
  rewrite (zsum_ext (fun i => (contour !!! i).1 * _)
             (fun i => (fun k => x0 * (contour !!! k).2) ((i + 1) mod n)%nat)).
  2:{ intros i [Hi Hj]%successor_in_range.
      rewrite (Hcol (contour !!! i)) by now apply lookup_total_elem_of.
      lia. }
  rewrite (zsum_ext (fun i => (contour !!! ((i + 1) mod n)%nat).1 * _)
             (fun i => x0 * (contour !!! i).2)).
  2:{ intros i [Hi Hj]%successor_in_range.
      rewrite (Hcol (contour !!! ((i + 1) mod n)%nat))
        by now apply lookup_total_elem_of.
      lia. }
  rewrite (cyclic_shift_sum (fun k => x0 * (contour !!! k).2)). lia.
Qed.

(** Moving a contour does not change the sum. *)
Lemma exact_shoelace_translate (contour : list (Z * Z)) (dx dy : Z) :
  exact_shoelace ((fun p : Z * Z => (p.1 + dx, p.2 + dy)) <$> contour)
  = exact_shoelace contour.
Proof.
  rewrite !exact_shoelace_sums. cbv zeta. rewrite length_fmap.
  set (n := length contour).
  set (X := fun k : nat => (contour !!! k).1).
  set (Y := fun k : nat => (contour !!! k).2).
  set (next := fun i : nat => ((i + 1) mod n)%nat).
  assert (Hl : forall k, (k < n)%nat ->
            ((fun p : Z * Z => (p.1 + dx, p.2 + dy)) <$> contour) !!! k
            = (X k + dx, Y k + dy)).
  { intros k Hk.
    exact (list_lookup_total_fmap (fun p : Z * Z => (p.1 + dx, p.2 + dy))
             contour k Hk). }
  rewrite (zsum_ext _ (fun i => (X i * Y (next i) + dy * X i)
                                + (dx * Y (next i) + dx * dy))).
  2:{ intros i [Hi Hj]%successor_in_range. rewrite !Hl by assumption.
      cbn [fst snd]. unfold next. lia. }
  rewrite (zsum_ext (fun i => (_ !!! ((i + 1) mod n)%nat).1 * _)
             (fun i => (X (next i) * Y i + dy * X (next i))
                       + (dx * Y i + dx * dy))).
  2:{ intros i [Hi Hj]%successor_in_range. rewrite !Hl by assumption.
      cbn [fst snd]. unfold next. lia. }
  rewrite !zsum_plus, !zsum_scale.
  change (fun i => X (next i)) with (fun i => X ((i + 1) mod n)%nat).
  change (fun i => Y (next i)) with (fun i => Y ((i + 1) mod n)%nat).
  rewrite (cyclic_shift_sum X), (cyclic_shift_sum Y).
  unfold X, Y, next. lia.
Qed.

(** *** The loop in binary64 *)

Import Binary64.

Lemma Z2float_add_encoded (a k : Z) (p : float) :
  encodes (Prim2SF p) k ->
  Z.abs a < 2 ^ 53 -> Z.abs k < 2 ^ 53 -> Z.abs (a + k) < 2 ^ 53 ->
  (Z2float a + p)%float = Z2float (a + k).
Proof.
  intros Hp Ha Hk Hak. apply Prim2SF_inj.
  rewrite add_spec, !Prim2SF_Z2float by assumption.
  apply SFadd_int; assumption.
Qed.

Lemma Z2float_sub_encoded (a k : Z) (p : float) :
  encodes (Prim2SF p) k ->
  Z.abs a < 2 ^ 53 -> Z.abs k < 2 ^ 53 -> Z.abs (a - k) < 2 ^ 53 ->
  (Z2float a - p)%float = Z2float (a - k).
Proof.
  intros Hp Ha Hk Hak. apply Prim2SF_inj.
  rewrite sub_spec, !Prim2SF_Z2float by assumption.
  apply SFsub_int; assumption.
Qed.

(** While the running sum and the products stay below 2^53 no step
    rounds: the loop computes the integer sum. *)
Lemma shoelace_steps (contour : list (Z * Z)) (B : Z) (l : list nat) :
  within B contour ->
  (forall i, i ∈ l -> (i < length contour)%nat) ->
  forall a : Z,
    Z.abs a + 2 * (B * B) * Z.of_nat (length l) < 2 ^ 53 ->
    foldl (fun area i =>
             let j := ((i + 1) mod length contour)%nat in
             (area + Z2float (contour !!! i).1 * Z2float (contour !!! j).2
              - Z2float (contour !!! j).1 * Z2float (contour !!! i).2)%float)
          (Z2float a) l
    = Z2float
        (foldl (fun area i =>
                  let j := ((i + 1) mod length contour)%nat in
                  area + (contour !!! i).1 * (contour !!! j).2
                       - (contour !!! j).1 * (contour !!! i).2)
               a l).
Proof.
  intros Hin. induction l as [|i l IH]; intros Hl a Ha; cbn [foldl];
    [reflexivity|].
  cbv zeta. cbn [length] in Ha.
  assert (Hi : (i < length contour)%nat) by (apply Hl; now left).
  assert (Hj : ((i + 1) mod length contour < length contour)%nat)
    by (apply Nat.mod_upper_bound; lia).
  destruct (Hin _ (lookup_total_elem_of contour i Hi)) as [Hx Hy].
  destruct (Hin _ (lookup_total_elem_of contour _ Hj)) as [Hx' Hy'].
  set (xi := (contour !!! i).1) in *. set (yi := (contour !!! i).2) in *.
  set (xj := (contour !!! ((i + 1) mod length contour)%nat).1) in *.
  set (yj := (contour !!! ((i + 1) mod length contour)%nat).2) in *.
  assert (HB : 0 <= B) by lia.
  assert (H1 : Z.abs (xi * yj) <= B * B)
    by (rewrite Z.abs_mul; apply Z.mul_le_mono_nonneg; lia).
  assert (H2 : Z.abs (xj * yi) <= B * B)
    by (rewrite Z.abs_mul; apply Z.mul_le_mono_nonneg; lia).
  assert (HBB : B <= B * B) by (destruct (Z.eq_dec B 0); nia).
  assert (HS : 2 * (B * B) * Z.of_nat (S (length l))
               = 2 * (B * B) * Z.of_nat (length l) + 2 * (B * B))
    by (rewrite Nat2Z.inj_succ; ring).
  rewrite HS in Ha.
  assert (HN : 0 <= 2 * (B * B) * Z.of_nat (length l)) by nia.
  set (BB := B * B) in *. set (T := 2 * BB * Z.of_nat (length l)) in *.
  assert (Hb : forall v, Z.abs v <= B -> Z.abs v < 2 ^ 53) by (intros v Hv; lia).
  rewrite (Z2float_add_encoded a (xi * yj)); try lia;
    [ | apply Z2float_mul; [apply Hb, Hx | apply Hb, Hy' | lia]].
  rewrite (Z2float_sub_encoded (a + xi * yj) (xj * yi)); try lia;
    [ | apply Z2float_mul; [apply Hb, Hx' | apply Hb, Hy | lia]].
  apply IH; [intros k Hk; apply Hl; now right | fold BB; fold T; lia].
Qed.

Lemma shoelace_exact (contour : list (Z * Z)) (B : Z) :
  within B contour ->
  2 * (B * B) * Z.of_nat (length contour) < 2 ^ 53 ->
  shoelace contour = Z2float (exact_shoelace contour).
Proof.
  intros Hin Hb. unfold shoelace, exact_shoelace.
  change 0%float with (Z2float 0).
  apply (shoelace_steps contour B); [exact Hin | | ].
  - intros i Hi. apply list_elem_of_In, in_seq in Hi. lia.
  - rewrite length_seq. cbn [Z.abs]. lia.
Qed.

(** A quotient of magnitudes is not negative. *)
Lemma halved_magnitude_not_negative (v d : float) :
  sign_false (Prim2SF d) = true ->
  (Math_abs v / d <? 0)%float = false.
Proof.
  intros Hd. rewrite ltb_spec, div_spec. unfold Math_abs. rewrite abs_spec.
  change (Prim2SF 0) with (S754_zero false). unfold SFltb, SF64div.
  destruct (Prim2SF v) as [sv | sv | | sv mv ev],
    (Prim2SF d) as [[] | [] | | [] md ed];
    cbn [SFabs SFdiv SFcompare xorb sign_false negb] in *;
    try discriminate; try reflexivity.
  destruct (SFdiv_core_binary _ _ _ _ _ _) as [[mz ez] lz].
  pose proof (binary_round_aux_sign mz ez lz) as S.
  destruct (binary_round_aux _ _ _ _ _ _) as [[] | [] | | [] m e];
    cbn in S |- *; congruence.
Qed.

Lemma calculateContourArea_exact (contour : list (Z * Z)) (B : Z) :
  within B contour ->
  2 * (B * B) * Z.of_nat (length contour) < 2 ^ 53 ->
  calculateContourArea contour
  = if (length contour <? 3)%nat then 0%float
    else (Math_abs (Z2float (exact_shoelace contour)) / 2)%float.
Proof.
  intros Hin Hb. unfold calculateContourArea.
  now rewrite (shoelace_exact contour B Hin Hb).
Qed.

Lemma calculateContourArea_row (contour : list (Z * Z)) (B y0 : Z) :
  within B contour ->
  2 * (B * B) * Z.of_nat (length contour) < 2 ^ 53 ->
  (forall p, p ∈ contour -> p.2 = y0) ->
  calculateContourArea contour = 0%float.
Proof.
  intros Hin Hb Hrow. rewrite (calculateContourArea_exact contour B Hin Hb).
  rewrite (exact_shoelace_row contour y0 Hrow).
  now destruct (length contour <? 3)%nat.
Qed.

(** X23. The area of a contour is never negative, and fewer than three
    points have area 0. For a contour whose coordinates are small enough
    for the sum not to round (at most [B] in magnitude, with
    [2 * B * B] times the number of points below 2^53) the area is the
    absolute integer shoelace sum, halved; it is 0 when the points lie on
    one row or on one column, however many they are; and moving the
    contour, within the same bound, leaves the area as it is. *)
Theorem calculateContourArea_facts (contour : list (Z * Z)) (B : Z) :
  (calculateContourArea contour <? 0)%float = false
  /\ ((length contour < 3)%nat -> calculateContourArea contour = 0%float)
  /\ (within B contour ->
      2 * (B * B) * Z.of_nat (length contour) < 2 ^ 53 ->
      ((3 <= length contour)%nat ->
       calculateContourArea contour
       = (Math_abs (Z2float (exact_shoelace contour)) / 2)%float)
      /\ (forall y0, (forall p, p ∈ contour -> p.2 = y0) ->
            calculateContourArea contour = 0%float)
      /\ (forall x0, (forall p, p ∈ contour -> p.1 = x0) ->
            calculateContourArea contour = 0%float)
      /\ (forall dx dy,
            within B ((fun p : Z * Z => (p.1 + dx, p.2 + dy)) <$> contour) ->
            calculateContourArea
              ((fun p : Z * Z => (p.1 + dx, p.2 + dy)) <$> contour)
            = calculateContourArea contour)).
Proof.
  split; [ | split].
  - unfold calculateContourArea.
    destruct (length contour <? 3)%nat; [reflexivity | ].
    apply halved_magnitude_not_negative. reflexivity.
  - intros Hl. unfold calculateContourArea.
    apply Nat.ltb_lt in Hl. now rewrite Hl.
  - intros Hin Hb. split; [ | split; [ | split]].
    + intros Hl. rewrite (calculateContourArea_exact contour B Hin Hb).
      replace (length contour <? 3)%nat with false; [reflexivity | ].
      symmetry. apply Nat.ltb_ge. exact Hl.
    + intros y0 Hrow. exact (calculateContourArea_row contour B y0 Hin Hb Hrow).
    + intros x0 Hcol. rewrite (calculateContourArea_exact contour B Hin Hb).
      rewrite (exact_shoelace_column contour x0 Hcol).
      now destruct (length contour <? 3)%nat.
    + intros dx dy Hin'.
      rewrite (calculateContourArea_exact contour B Hin Hb).
      rewrite (calculateContourArea_exact _ B Hin')
        by (rewrite length_fmap; exact Hb).
      now rewrite length_fmap, exact_shoelace_translate.
Qed.

(** The loop of [analyzeContours] ends with a contour of the list whose
    area no other exceeds; the running maximum stays or grows. *)
Lemma largest_fold (others : list (list (Z * Z))) :
  forall best : list (Z * Z) * float,
    best.2 = calculateContourArea best.1 ->
    let r := foldl (fun best c =>
                      let area := calculateContourArea c in
                      if (best.2 <? area)%float then (c, area) else best)
                   best others in
    r.2 = calculateContourArea r.1
    /\ (r.1 = best.1 \/ r.1 ∈ others)
    /\ (r.2 = best.2 \/ (best.2 <? r.2)%float = true)
    /\ (forall c, c ∈ others -> (r.2 <? calculateContourArea c)%float = false).
Proof.
  induction others as [|c others IH]; intros best Hbest; cbn [foldl].
  - split; [exact Hbest|]. split; [now left|]. split; [now left|].
    intros c Hc. now apply elem_of_nil in Hc.
  - cbv zeta.
    destruct (best.2 <? calculateContourArea c)%float eqn:Hgt.
    + destruct (IH (c, calculateContourArea c) eq_refl)
        as (Ha & Hin & Hle & Hall).
      cbv zeta in Ha, Hin, Hle, Hall. cbn [fst snd] in Hin, Hle.
      split; [exact Ha|]. split; [|split].
      * right. apply elem_of_cons. destruct Hin; [now left|now right].
      * right. destruct Hle as [-> | Hle]; [exact Hgt|].
        exact (ltb_leb_trans _ _ _ Hgt (ltb_leb _ _ Hle)).
      * intros c' [->|Hc']%elem_of_cons; [|now apply Hall].
        destruct Hle as [-> | Hle]; [apply ltb_irrefl|].
        apply leb_ltb_false, ltb_leb, Hle.
    + destruct (IH best Hbest) as (Ha & Hin & Hle & Hall).
      cbv zeta in Ha, Hin, Hle, Hall.
      split; [exact Ha|]. split; [|split; [exact Hle|]].
      * destruct Hin; [now left|right; apply elem_of_cons; now right].
      * intros c' [->|Hc']%elem_of_cons; [|now apply Hall].
        destruct Hle as [-> | Hle]; [exact Hgt|].
        apply not_true_is_false. intros Hlt.
        rewrite (ltb_leb_trans _ _ _ Hle (ltb_leb _ _ Hlt)) in Hgt.
        discriminate.
Qed.

(** X24. [analyzeContours] describes the contour of the largest area:
    the contour it measures is one of those given and none has an area
    above its own; a box is reported exactly when that area exceeds
    [minContourArea]; the confidence is at most 100, or NaN when the area
    is. With no contours there is no box. When every contour lies on a
    single row, within coordinates whose sums do not round, all areas are
    0 and no box is reported whatever the number of points, provided
    [minContourArea] is not negative. *)
Theorem analyzeContours_largest (principal_angle : list (Z * Z) -> float)
    (minContourArea : float) (contours : list (list (Z * Z))) :
  let f := analyzeContours principal_angle minContourArea contours in
  (contours = [] ->
   f = {| hasBox := false; rotation := 0; position := (0, 0)%float;
          boundingBox := None; area := None; confidence := 0 |})
  /\ (contours <> [] ->
      (exists c,
         c ∈ contours
         /\ area f = Some (calculateContourArea c)
         /\ boundingBox f = Some (calculateBoundingBox c)
         /\ rotation f = calculateRotation principal_angle c
         /\ (forall c', c' ∈ contours ->
               (calculateContourArea c <? calculateContourArea c')%float
               = false)
         /\ hasBox f = (minContourArea <? calculateContourArea c)%float)
      /\ (is_nan (confidence f) = true
          \/ (confidence f <=? 100)%float = true)
      /\ ((0 <=? minContourArea)%float = true ->
          (forall c, c ∈ contours ->
             exists B y0,
               within B c
               /\ 2 * (B * B) * Z.of_nat (length c) < 2 ^ 53
               /\ forall p, p ∈ c -> p.2 = y0) ->
          hasBox f = false)).
Proof.
  intros f. subst f. split; [now intros ->|]. intros Hne.
  destruct contours as [|first others]; [congruence|].
  unfold analyzeContours, largest_from.
  destruct (largest_fold others (first, calculateContourArea first) eq_refl)
    as (Ha & Hin & Hle & Hall).
  destruct (foldl _ _ others) as [c a]. cbn [fst snd] in Ha, Hin, Hle, Hall.
  cbn [hasBox rotation boundingBox area confidence]. subst a.
  assert (Hc : c ∈ first :: others).
  { apply elem_of_cons. destruct Hin; [now left|now right]. }
  assert (Hconf : forall q : float,
            is_nan (Math_min 100 q) = true
            \/ (Math_min 100 q <=? 100)%float = true).
  { intros q. destruct (is_nan q) eqn:Nq.
    - left. now rewrite (Math_min_nan_r 100 q Nq).
    - right. apply (Math_min_bounds 100 q eq_refl Nq). }
  split; [|split].
  - exists c. split; [exact Hc|]. repeat (split; [reflexivity|]). split.
    + intros c' [->|Hc']%elem_of_cons; [|now apply Hall].
      destruct Hle as [-> | Hle]; [apply ltb_irrefl|].
      apply leb_ltb_false, ltb_leb, Hle.
    + reflexivity.
  - apply Hconf.
  - intros Hmin Hrows.
    destruct (Hrows c Hc) as (B & y0 & Hin' & Hb & Hy0).
    rewrite (calculateContourArea_row c B y0 Hin' Hb Hy0).
    apply leb_ltb_false, Hmin.
Qed.

End MeasureFacts.

(** ** The analysis of a blank region *)

Section RegionAnalysisFacts.
Import Image.
Local Open Scope float_scope.

(** X25. A region of one colour has no box: when every pixel of the
    region has the same red, green and blue values and the lower edge
    threshold is not negative, [analyzeROI] finds no edge and no
    contour, and its box features say [hasBox: false] with rotation 0,
    position (0, 0) and confidence 0. *)
Theorem analyzeROI_blank_region (principal_angle : list (Z * Z) -> float)
    (config : Filters.Config) (minContourArea : float) (imageData : ImageData)
    (r g b : Z) :
  (0 < width imageData)%Z -> (0 < height imageData)%Z ->
  Z.of_nat (length (data imageData))
  = (4 * width imageData * height imageData)%Z ->
  (forall p, (0 <= p < width imageData * height imageData)%Z ->
     at_index (data imageData) (p * 4) = Some r
     /\ at_index (data imageData) (p * 4 + 1) = Some g
     /\ at_index (data imageData) (p * 4 + 2) = Some b) ->
  (0 <=? Filters.cannyLower config) = true ->
  exists analysis,
    RegionAnalysis.analyzeROI_try principal_angle config minContourArea
      imageData
    = Normal analysis
    /\ RegionAnalysis.contours analysis = 0%nat
    /\ RegionAnalysis.features analysis
       = {| Contours.hasBox := false; Contours.rotation := 0;
            Contours.position := (0, 0);
            Contours.boundingBox := None; Contours.area := None;
            Contours.confidence := 0 |}
    /\ forall p c, (0 <= p < width imageData * height imageData)%Z ->
         (0 <= c < 3)%Z ->
         at_index (data (RegionAnalysis.edges analysis)) (p * 4 + c)
         = Some 0%Z.
Proof.
  intros Hw Hh Hlen Hflat Hlow.
  unfold RegionAnalysis.analyzeROI_try.
  rewrite (convertToGrayscale_succeeds imageData Hw Hh Hlen).
  cbn [ROI.outcome_bind].
  set (gray := {| width := width imageData |}).
  set (v := ToUint8Clamp (Filters.luma (Z2float r) (Z2float g) (Z2float b))).
  assert (Hgl : Z.of_nat (length (data gray))
                = (4 * width gray * height gray)%Z).
  { unfold gray. cbn [width height data].
    now rewrite length_grayscale_data. }
  assert (Hgray : forall p,
            (0 <= p < width gray * height gray)%Z ->
            at_index (data gray) (p * 4) = Some v).
  { intros p Hp. unfold gray in Hp |- *. cbn [width height data] in Hp |- *.
    destruct (grayscale_data_at (data imageData) p) as (H0 & _);
      [lia|rewrite Hlen; nia|].
    destruct (Hflat p Hp) as (Hr & Hg & Hb).
    unfold number_at in H0. rewrite Hr, Hg, Hb in H0. exact H0. }
  assert (Hv : (0 <= v <= 255)%Z) by apply ToUint8Clamp_range.
  rewrite (detectEdges_succeeds config gray Hw Hh Hgl).
  cbn [ROI.outcome_bind].
  set (edges := {| width := width gray |}).
  assert (Hzero : forall x y c,
            (0 <= x < width gray)%Z -> (0 <= y < height gray)%Z ->
            (0 <= c < 3)%Z ->
            at_index (data edges) ((y * width gray + x) * 4 + c) = Some 0%Z).
  { intros x y c Hx Hy Hc.
    now apply (edge_fold_flat config gray v). }
  assert (Ec : findContours edges = Some []).
  { apply findContours_without_strong_edges.
    intros q [Hx Hy].
    change (strong_edge (data edges) (q.2 * width gray + q.1) = false).
    unfold strong_edge.
    pose proof (Hzero q.1 q.2 0%Z Hx Hy ltac:(lia)) as Hz.
    rewrite Z.add_0_r in Hz. now rewrite Hz. }
  rewrite Ec. cbn [default from_option].
  eexists. split; [reflexivity|]. split; [reflexivity|].
  split; [reflexivity|]. cbn [RegionAnalysis.edges].
  intros p c Hp Hc.
  destruct (pixel_of_index _ _ p Hw Hp) as (Hx & Hy & Ep).
  rewrite <- Ep. now apply Hzero.
Qed.

End RegionAnalysisFacts.

(** ** Choosing among detected boxes *)

Section BestMatchFacts.
Context `{Host}.
Local Open Scope float_scope.

Lemma leb_infinity (a : float) : is_nan a = false -> (a <=? infinity) = true.
Proof.
  intros Ha. rewrite leb_spec.
  change (Prim2SF infinity) with (S754_infinity false).
  assert (Hn : Prim2SF a <> S754_nan).
  { intros E. apply is_nan_Prim2SF in E. congruence. }
  destruct (Prim2SF a) as [s|s| |s m e]; try congruence; destruct s;
    reflexivity.
Qed.

(** Nothing below [m] stays nothing below a smaller [d]. *)
Lemma not_below_smaller (p d m : float) :
  (p <? m) = false -> (d <? m) = true -> (p <? d) = false.
Proof.
  intros Hp Hd. apply not_true_is_false. intros Hpd.
  rewrite (ltb_leb_trans p d m Hpd (ltb_leb _ _ Hd)) in Hp. discriminate.
Qed.

(** A distance that is not below [Infinity] has nothing below it that is
    not below [Infinity] either. *)
Lemma not_below_unbeaten (p d : float) :
  (p <? infinity) = false -> (d <? infinity) = false -> (p <? d) = false.
Proof.
  intros Hp Hd. apply not_true_is_false. intros Hpd.
  destruct (ltb_numbers _ _ Hpd) as [_ Hnd].
  rewrite (ltb_leb_trans p d infinity Hpd (leb_infinity d Hnd)) in Hp.
  discriminate.
Qed.

Lemma closest_fold (cx cy : float) (first : EngineV1.Box)
    (rest : list EngineV1.Box) :
  forall (seen : list EngineV1.Box) (best : EngineV1.Box * float),
    (best = (first, infinity)
     \/ (best.2 = BestMatch.center_distance cx cy best.1 /\ best.1 ∈ seen)) ->
    (forall p, p ∈ seen ->
       (BestMatch.center_distance cx cy p <? best.2) = false) ->
    let r := foldl (fun best box =>
                      let distance := BestMatch.center_distance cx cy box in
                      if distance <? best.2 then (box, distance) else best)
                   best rest in
    (r = (first, infinity)
     \/ (r.2 = BestMatch.center_distance cx cy r.1 /\ r.1 ∈ seen ++ rest))
    /\ (forall p, p ∈ seen ++ rest ->
          (BestMatch.center_distance cx cy p <? r.2) = false).
Proof.
  induction rest as [|b rest IH]; intros seen best Hbest Hseen; cbn [foldl].
  - rewrite app_nil_r. split; assumption.
  - cbv zeta.
    replace (seen ++ b :: rest) with ((seen ++ [b]) ++ rest)
      by (now rewrite <- app_assoc).
    destruct (BestMatch.center_distance cx cy b <? best.2) eqn:Hlt.
    + apply IH.
      * right. cbn [fst snd]. split; [reflexivity|].
        apply elem_of_app. right. now apply list_elem_of_singleton.
      * cbn [snd].
        intros p [Hp|Hp%list_elem_of_singleton]%elem_of_app.
        -- exact (not_below_smaller _ _ _ (Hseen p Hp) Hlt).
        -- subst p. apply ltb_irrefl.
    + apply IH.
      * destruct Hbest as [?|[? ?]]; [now left|right].
        split; [assumption|]. apply elem_of_app. now left.
      * intros p [Hp|Hp%list_elem_of_singleton]%elem_of_app.
        -- now apply Hseen.
        -- now subst p.
Qed.

(** X26. [findBestMatch] returns one of the boxes it is given, and
    with a reference image one that no other box beats: no box is
    strictly nearer to the centre of the reference image. Without a
    reference image it is the first box, and an empty list gives
    [undefined]. *)
Theorem findBestMatch_nearest (referenceImage : option Image.ImageData)
    (boxes : list EngineV1.Box) :
  (boxes = [] -> BestMatch.findBestMatch referenceImage boxes = None)
  /\ (boxes <> [] ->
      exists best,
        BestMatch.findBestMatch referenceImage boxes = Some best
        /\ best ∈ boxes
        /\ (referenceImage = None -> head boxes = Some best)
        /\ (forall img, referenceImage = Some img ->
              let cx := Z2float (Image.width img) / 2 in
              let cy := Z2float (Image.height img) / 2 in
              forall other, other ∈ boxes ->
                (BestMatch.center_distance cx cy other
                 <? BestMatch.center_distance cx cy best) = false)).
Proof.
  split.
  - intros ->. unfold BestMatch.findBestMatch. cbn.
    now destruct referenceImage.
  - intros Hne. destruct boxes as [|first rest]; [congruence|].
    unfold BestMatch.findBestMatch.
    destruct (length (first :: rest) =? 1)%nat eqn:Hone.
    + apply Nat.eqb_eq in Hone. destruct rest; [|discriminate].
      exists first. split; [reflexivity|]. split; [now left|].
      split; [reflexivity|].
      intros img _. cbv zeta. intros other Ho%list_elem_of_singleton.
      subst other.
      apply ltb_irrefl.
    + destruct referenceImage as [img|].
      * cbv zeta. unfold BestMatch.closest_from.
        set (cx := Z2float (Image.width img) / 2).
        set (cy := Z2float (Image.height img) / 2).
        destruct (closest_fold cx cy first (first :: rest) []
                    (first, infinity)) as [Hbest Hall].
        { now left. }
        { intros p Hp. now apply elem_of_nil in Hp. }
        cbn [app] in Hbest, Hall.
        eexists. split; [reflexivity|].
        destruct Hbest as [E|[Ed Hin]].
        -- rewrite E in *. cbn [fst snd] in *.
           split; [now left|]. split; [discriminate|].
           intros img' [= <-]. cbv zeta. fold cx cy. intros other Ho.
           apply not_below_unbeaten; [now apply Hall|].
           apply Hall. now left.
        -- split; [exact Hin|]. split; [discriminate|].
           intros img' [= <-]. cbv zeta. fold cx cy. intros other Ho.
           unfold BestMatch.closest_from. rewrite <- Ed. now apply Hall.
      * exists first. split; [reflexivity|]. split; [now left|].
        split; [reflexivity|]. discriminate.
Qed.

End BestMatchFacts.

(** ** Where the extracted region lies *)

Section ROIFacts.
Import Binary64 ROI.
Local Open Scope Z_scope.

Lemma leb_nan_r (a b : float) : is_nan a = true -> (b <=? a)%float = false.
Proof.
  intros Ha. apply not_true_is_false. intros L.
  destruct (leb_numbers _ _ L) as [_ N]. congruence.
Qed.

Lemma Z2float_shape (k : Z) :
  Z.abs k < 2 ^ 53 ->
  exists sh, has_shape (Z2float k) sh /\ key sh = k /\ is_number sh = true.
Proof.
  intros Hk. destruct (Z.eq_dec k 0) as [-> | H0].
  - exists (ShZero false). repeat split.
  - exists (ShInt k). repeat split; assumption.
Qed.

Lemma canvas_dimension_whole (d k : Z) :
  0 <= k < 2 ^ 31 -> canvas_dimension d (Z2float k) = k.
Proof.
  intros Hk. unfold canvas_dimension.
  rewrite integer_part_Z2float by lia. rewrite Z.mod_small by lia.
  destruct (Z.leb_spec k 2147483647); [reflexivity | lia].
Qed.

Lemma canvas_dimension_none (d : Z) (v : float) :
  integer_part v = 0 -> canvas_dimension d v = 0.
Proof. intros E. unfold canvas_dimension. rewrite E. reflexivity. Qed.

Lemma Math_max_nan_r (a : float) : Math_max a nan = nan.
Proof. unfold Math_max. rewrite orb_true_r. reflexivity. Qed.

(** One axis of the rectangle: the floored position [p0] and the floored
    extent [e0], which is not negative, in a frame of [F] pixels. Either
    both are numbers and the extent is one pixel at least, and then the
    clamped position [P] and what is left of the extent [E] are whole
    numbers within the frame and [E] is the size of the canvas; or the
    canvas has size 0. *)
Lemma axis_shape (F d : Z) (p0 e0 : float) (shp she : shape) :
  has_shape p0 shp -> has_shape e0 she -> 0 <= key she ->
  0 < F < 2 ^ 31 ->
  let p1 := Math_max 0 (Math_min p0 (Z2float F - 1)) in
  let e1 := Math_min e0 (Z2float F - p1) in
  let P := Z.max 0 (Z.min (key shp) (F - 1)) in
  let E := Z.min (key she) (F - P) in
  is_nan p0 = negb (is_number shp)
  /\ (1 <=? e0)%float = is_number she && (1 <=? key she)
  /\ (if is_number shp && (is_number she && (1 <=? key she))
      then p1 = Z2float P /\ e1 = Z2float E /\ canvas_dimension d e1 = E
      else canvas_dimension d e1 = 0).
Proof.
  intros Hp He Hk HF p1 e1 P E.
  assert (HF1 : (Z2float F - 1)%float = Z2float (F - 1)).
  { change 1%float with (Z2float 1). apply Z2float_sub; lia. }
  split; [exact (shape_number p0 shp Hp) | ].
  destruct (is_number shp) eqn:Np; cbn [andb].
  - assert (Hp1 : p1 = Z2float P).
    { unfold p1. rewrite HF1. apply (clamp_shape p0 shp (F - 1) Hp Np). lia. }
    assert (HP : 0 <= P <= F - 1) by (unfold P; lia).
    assert (Hl : (Z2float F - p1)%float = Z2float (F - P)).
    { rewrite Hp1. apply Z2float_sub; lia. }
    destruct (is_number she) eqn:Ne; cbn [andb].
    + destruct (remaining_shape e0 she (F - P) He Ne Hk ltac:(lia))
        as (H1 & Hbig & Hsmall).
      split; [exact H1 | ].
      destruct (Z.leb_spec 1 (key she)) as [L | L].
      * assert (He1 : e1 = Z2float E).
        { unfold e1. rewrite Hl. apply Hbig, L. }
        split; [exact Hp1 | ]. split; [exact He1 | ].
        rewrite He1. apply canvas_dimension_whole. unfold E. lia.
      * apply canvas_dimension_none. unfold e1. rewrite Hl. apply Hsmall, L.
    + pose proof (shape_number e0 she He) as Hn. rewrite Ne in Hn.
      split; [apply leb_nan_r, Hn | ].
      apply canvas_dimension_none. unfold e1.
      rewrite Math_min_nan_l by exact Hn. reflexivity.
  - pose proof (shape_number p0 shp Hp) as Hn. rewrite Np in Hn.
    assert (Hp1 : p1 = nan).
    { unfold p1. rewrite Math_min_nan_l by exact Hn. apply Math_max_nan_r. }
    assert (Hc : canvas_dimension d e1 = 0).
    { apply canvas_dimension_none. unfold e1.
      rewrite Math_min_nan_r; [reflexivity | ].
      rewrite Hp1. apply is_nan_sub_r. reflexivity. }
    split; [ | exact Hc].
    destruct (is_number she) eqn:Ne; cbn [andb].
    + apply (remaining_shape e0 she F He Ne Hk). lia.
    + pose proof (shape_number e0 she He) as Hn'. rewrite Ne in Hn'.
      apply leb_nan_r, Hn'.
Qed.

(** The scaled extent of a rectangle whose extent is not negative floors
    to something that is not negative. *)
Lemma floored_extent (F iw : Z) (e : float) :
  0 < F < 2 ^ 31 -> 0 < iw < 2 ^ 32 -> (0 <=? e)%float = true ->
  exists sh,
    has_shape (Math_floor (e * (Z2float F / Z2float iw))) sh /\ 0 <= key sh.
Proof.
  intros HF Hi He.
  destruct (Math_floor_shape (e * (Z2float F / Z2float iw))) as (sh & Hs & Hk).
  exists sh. split; [exact Hs | ]. apply Hk.
  apply mul_not_below; [apply leb_zero_not_below, He | ].
  apply scale_sign; lia.
Qed.

(** What the [try] block returns in terms of the two canvas sizes. *)
Lemma extractROI_by_canvas (frameData : FrameData) (img : Image.ImageData)
    (rect : Rectangle) :
  frame_imageData frameData = Some img ->
  0 < frame_width frameData < 2 ^ 31 ->
  0 < frame_height frameData < 2 ^ 31 ->
  let frame_w := Z2float (frame_width frameData) in
  let frame_h := Z2float (frame_height frameData) in
  let scaleX := (frame_w / Z2float (Image.width img))%float in
  let scaleY := (frame_h / Z2float (Image.height img))%float in
  let x1 := Math_max 0 (Math_min (Math_floor (x rect * scaleX)) (frame_w - 1)) in
  let y1 := Math_max 0 (Math_min (Math_floor (y rect * scaleY)) (frame_h - 1)) in
  let width1 := Math_min (Math_floor (width rect * scaleX)) (frame_w - x1) in
  let height1 := Math_min (Math_floor (height rect * scaleY)) (frame_h - y1) in
  let cw := canvas_dimension 300 width1 in
  let ch := canvas_dimension 150 height1 in
  (cw = 0 \/ ch = 0 -> extractROI frameData rect = None)
  /\ (cw <> 0 -> ch <> 0 ->
      exists pixels,
        Image.width pixels = cw /\ Image.height pixels = ch
        /\ extractROI frameData rect
           = Some {| roi_imageData := pixels; roi_width := cw; roi_height := ch;
                     originalRect := {| x := x1; y := y1; width := width1;
                                        height := height1 |} |}).
Proof.
  intros Himg HW HH frame_w frame_h scaleX scaleY x1 y1 width1 height1 cw ch.
  unfold extractROI, extractROI_try. rewrite Himg.
  fold frame_w frame_h. fold scaleX scaleY. fold x1 y1. fold width1 height1.
  fold cw ch.
  assert (Tw : canvas_dimension 300 frame_w = frame_width frameData)
    by (apply canvas_dimension_whole; lia).
  assert (Th : canvas_dimension 150 frame_h = frame_height frameData)
    by (apply canvas_dimension_whole; lia).
  rewrite Tw, Th.
  assert (Hd : forall r,
            drawImage_check (frame_width frameData) (frame_height frameData) r
            = Normal tt).
  { intros r. unfold drawImage_check.
    replace (frame_width frameData =? 0) with false
      by (symmetry; apply Z.eqb_neq; lia).
    replace (frame_height frameData =? 0) with false
      by (symmetry; apply Z.eqb_neq; lia).
    destruct (negb (drawable r)); reflexivity. }
  rewrite Hd. cbn [outcome_bind]. unfold getImageData.
  split.
  - intros Hz.
    replace ((cw =? 0) || (ch =? 0)) with true; [reflexivity | ].
    symmetry. apply orb_true_iff.
    destruct Hz as [-> | ->]; [left | right]; reflexivity.
  - intros Hw Hh.
    replace (cw =? 0) with false by (symmetry; apply Z.eqb_neq; exact Hw).
    replace (ch =? 0) with false by (symmetry; apply Z.eqb_neq; exact Hh).
    cbn [orb outcome_bind].
    eexists; split; [ | split]; [ | | reflexivity]; reflexivity.
Qed.

(** C3, as the code has it, in binary64. For a frame with pixel data and
    a rectangle whose width and height are not negative, wherever it
    lies: a region that is returned is a rectangle of whole numbers with
    at least one pixel that lies within the frame, and the extraction
    fails exactly when the scaled width or the scaled height of the
    rectangle floors below one pixel (or is NaN), or the scaled [x] or
    [y] is NaN. *)
Theorem extractROI_clamps_to_frame :
  forall (frameData : FrameData) (img : Image.ImageData) (rect : Rectangle),
    frame_imageData frameData = Some img ->
    0 < frame_width frameData < 2 ^ 31 ->
    0 < frame_height frameData < 2 ^ 31 ->
    0 < Image.width img < 2 ^ 32 -> 0 < Image.height img < 2 ^ 32 ->
    (0 <=? width rect)%float = true -> (0 <=? height rect)%float = true ->
    let scaleX := (Z2float (frame_width frameData)
                   / Z2float (Image.width img))%float in
    let scaleY := (Z2float (frame_height frameData)
                   / Z2float (Image.height img))%float in
    (forall roi,
        extractROI frameData rect = Some roi ->
        exists X Y W H : Z,
          originalRect roi
          = {| x := Z2float X; y := Z2float Y;
               width := Z2float W; height := Z2float H |}
          /\ 0 <= X /\ 0 <= Y /\ 0 < W /\ 0 < H
          /\ X + W <= frame_width frameData
          /\ Y + H <= frame_height frameData
          /\ roi_width roi = W /\ roi_height roi = H
          /\ Image.width (roi_imageData roi) = W
          /\ Image.height (roi_imageData roi) = H)
    /\ (extractROI frameData rect = None
        <-> is_nan (Math_floor (x rect * scaleX)) = true
            \/ is_nan (Math_floor (y rect * scaleY)) = true
            \/ (1 <=? Math_floor (width rect * scaleX))%float = false
            \/ (1 <=? Math_floor (height rect * scaleY))%float = false).
Proof.
  intros frameData img rect Himg HW HH Hiw Hih Hw Hh scaleX scaleY.
  destruct (extractROI_by_canvas frameData img rect Himg HW HH)
    as [Hnone Hsome].
  fold scaleX scaleY in Hnone, Hsome.
  destruct (Math_floor_shape (x rect * scaleX)) as (shx & Hx & _).
  destruct (Math_floor_shape (y rect * scaleY)) as (shy & Hy & _).
  destruct (floored_extent _ _ (width rect) HW Hiw Hw) as (shw & Hsw & Hkw).
  destruct (floored_extent _ _ (height rect) HH Hih Hh) as (shh & Hsh & Hkh).
  fold scaleX in Hsw. fold scaleY in Hsh.
  destruct (axis_shape _ 300 _ _ shx shw Hx Hsw Hkw HW) as (Nx & Lw & Ax).
  destruct (axis_shape _ 150 _ _ shy shh Hy Hsh Hkh HH) as (Ny & Lh & Ay).
  rewrite Nx, Ny, Lw, Lh.
  destruct (is_number shx && (is_number shw && (1 <=? key shw))) eqn:Ex.
  - destruct (is_number shy && (is_number shh && (1 <=? key shh))) eqn:Ey.
    + destruct Ax as (Ex1 & Ew1 & Ecw). destruct Ay as (Ey1 & Eh1 & Ech).
      apply andb_prop in Ex as [Ex Ew]. apply andb_prop in Ey as [Ey Eh].
      pose proof Ew as Bw. pose proof Eh as Bh.
      apply andb_prop in Ew as [_ Kw]. apply andb_prop in Eh as [_ Kh].
      apply Z.leb_le in Kw, Kh.
      set (X := Z.max 0 (Z.min (key shx) (frame_width frameData - 1))) in *.
      set (Y := Z.max 0 (Z.min (key shy) (frame_height frameData - 1))) in *.
      set (W := Z.min (key shw) (frame_width frameData - X)) in *.
      set (H := Z.min (key shh) (frame_height frameData - Y)) in *.
      assert (HX : 0 <= X <= frame_width frameData - 1) by (unfold X; lia).
      assert (HY : 0 <= Y <= frame_height frameData - 1) by (unfold Y; lia).
      assert (HWd : 1 <= W <= frame_width frameData - X) by (unfold W; lia).
      assert (HHd : 1 <= H <= frame_height frameData - Y) by (unfold H; lia).
      destruct Hsome as (pixels & Hpw & Hph & E);
        [rewrite Ecw; lia | rewrite Ech; lia | ].
      rewrite E, Ecw, Ech, Ex1, Ew1, Ey1, Eh1 in *. split.
      * intros roi [= <-]. exists X, Y, W, H.
        cbn [originalRect roi_width roi_height roi_imageData].
        repeat split; try lia; try assumption; congruence.
      * rewrite Ex, Ey, Bw, Bh. cbn [negb]. split; [discriminate | ].
        intros [? | [? | [? | ?]]]; discriminate.
    + rewrite (Hnone (or_intror Ay)). split; [intros roi [=] | ].
      split; [ | reflexivity]. intros _.
      apply andb_false_iff in Ey as [Ey | Ey].
      * right; left. rewrite Ey. reflexivity.
      * right; right; right. exact Ey.
  - rewrite (Hnone (or_introl Ax)). split; [intros roi [=] | ].
    split; [ | reflexivity]. intros _.
    apply andb_false_iff in Ex as [Ex | Ex].
    + left. rewrite Ex. reflexivity.
    + right; right; left. exact Ex.
Qed.

(** X27. Where [extractROI] places the region, along each axis, for
    a rectangle that scales and floors to the whole numbers [X0] and a
    width [W0] of at least one pixel, in a frame of width [W]: inside the
    frame it is taken as it is; overhanging the right or bottom edge it
    is cut at the edge; overhanging the left or top edge it is moved to 0
    and keeps its width, so that it reaches beyond the rectangle; and
    beyond the right or bottom edge it is the last column or row. *)
Theorem extractROI_placement (frameData : FrameData) (img : Image.ImageData)
    (rect : Rectangle) (X0 Y0 W0 H0 : Z) :
  frame_imageData frameData = Some img ->
  0 < frame_width frameData < 2 ^ 31 ->
  0 < frame_height frameData < 2 ^ 31 ->
  let scaleX := (Z2float (frame_width frameData)
                 / Z2float (Image.width img))%float in
  let scaleY := (Z2float (frame_height frameData)
                 / Z2float (Image.height img))%float in
  Math_floor (x rect * scaleX) = Z2float X0 ->
  Math_floor (y rect * scaleY) = Z2float Y0 ->
  Math_floor (width rect * scaleX) = Z2float W0 ->
  Math_floor (height rect * scaleY) = Z2float H0 ->
  Z.abs X0 < 2 ^ 53 -> Z.abs Y0 < 2 ^ 53 ->
  1 <= W0 < 2 ^ 53 -> 1 <= H0 < 2 ^ 53 ->
  exists roi,
    extractROI frameData rect = Some roi
    /\ (let W := frame_width frameData in
        let r := originalRect roi in
        (0 <= X0 -> X0 + W0 <= W ->
         x r = Z2float X0 /\ width r = Z2float W0)
        /\ (0 <= X0 < W -> W < X0 + W0 ->
            x r = Z2float X0 /\ width r = Z2float (W - X0))
        /\ (X0 < 0 -> x r = Z2float 0 /\ width r = Z2float (Z.min W0 W))
        /\ (W <= X0 -> x r = Z2float (W - 1) /\ width r = Z2float 1))
    /\ (let H := frame_height frameData in
        let r := originalRect roi in
        (0 <= Y0 -> Y0 + H0 <= H ->
         y r = Z2float Y0 /\ height r = Z2float H0)
        /\ (0 <= Y0 < H -> H < Y0 + H0 ->
            y r = Z2float Y0 /\ height r = Z2float (H - Y0))
        /\ (Y0 < 0 -> y r = Z2float 0 /\ height r = Z2float (Z.min H0 H))
        /\ (H <= Y0 -> y r = Z2float (H - 1) /\ height r = Z2float 1)).
Proof.
  intros Himg HW HH scaleX scaleY Ex0 Ey0 Ew0 Eh0 HX0 HY0 HW0 HH0.
  destruct (extractROI_by_canvas frameData img rect Himg HW HH)
    as [_ Hsome].
  fold scaleX scaleY in Hsome. rewrite Ex0, Ey0, Ew0, Eh0 in Hsome.
  destruct (Z2float_shape X0 HX0) as (shx & Hx & Kx & Nx).
  destruct (Z2float_shape Y0 HY0) as (shy & Hy & Ky & Ny).
  destruct (Z2float_shape W0 ltac:(lia)) as (shw & Hw & Kw & Nw).
  destruct (Z2float_shape H0 ltac:(lia)) as (shh & Hh & Kh & Nh).
  destruct (axis_shape _ 300 _ _ shx shw Hx Hw ltac:(lia) HW) as (_ & _ & Ax).
  destruct (axis_shape _ 150 _ _ shy shh Hy Hh ltac:(lia) HH) as (_ & _ & Ay).
  rewrite Nx, Nw, Kx, Kw in Ax. rewrite Ny, Nh, Ky, Kh in Ay.
  replace (1 <=? W0) with true in Ax by (symmetry; apply Z.leb_le; lia).
  replace (1 <=? H0) with true in Ay by (symmetry; apply Z.leb_le; lia).
  cbn [andb] in Ax, Ay.
  destruct Ax as (Ex1 & Ew1 & Ecw). destruct Ay as (Ey1 & Eh1 & Ech).
  destruct Hsome as (pixels & _ & _ & E); [rewrite Ecw; lia | rewrite Ech; lia | ].
  eexists. split; [exact E | ]. cbn [originalRect x y width height].
  rewrite Ew1, Eh1, Ex1, Ey1.
  split; cbv zeta; repeat split; intros; f_equal; lia.
Qed.

End ROIFacts.

(** ** Worked inputs for the properties above *)

(** ** The analysis boundary *)

Section BoundaryFacts.
Context `{Host}.
Variables FrameData ROIData Box : Type.
Variable extractROI_try :
  FrameData -> option EngineV2.Rectangle -> EngineV2.M (option ROIData).
Variable analyzeROI_try : ROIData -> EngineV2.M EngineV2.Analysis.
Variable detectBoxes_try : FrameData -> EngineV2.M (list Box).
Variable findBestMatch : list Box -> EngineV2.M Box.

Local Abbreviation analyzeFrame :=
  (EngineV2.analyzeFrame FrameData ROIData Box extractROI_try analyzeROI_try
     detectBoxes_try findBestMatch).
Local Abbreviation analyzeFrame_try :=
  (EngineV2.analyzeFrame_try FrameData ROIData Box extractROI_try
     analyzeROI_try detectBoxes_try findBestMatch).
Local Abbreviation extractROI :=
  (EngineV2.extractROI FrameData ROIData extractROI_try).
Local Abbreviation analyzeROI :=
  (EngineV2.analyzeROI ROIData analyzeROI_try).
Local Abbreviation detectBoxes :=
  (EngineV2.detectBoxes FrameData Box detectBoxes_try).

Lemma bind_normal {A B : Type} (m : EngineV2.M A) (f : A -> EngineV2.M B)
    (w w1 : EngineV2.World) (a : A) :
  m w = (Normal a, w1) -> EngineV2.bind m f w = f a w1.
Proof. intros E. unfold EngineV2.bind. now rewrite E. Qed.

(** A failure inside [extractROI] ends in its own handler: the stage
    returns [null]. *)
Lemma extractROI_absorbs_failure frameData rect e w w1 :
  extractROI_try frameData rect w = (Throw e, w1) ->
  extractROI frameData rect w = (Normal None, w1).
Proof.
  intros E. unfold EngineV2.extractROI, EngineV2.try_catch. now rewrite E.
Qed.

(** A failure inside [analyzeROI] ends in its own handler too: the stage
    reads the clock and returns an analysis without features, which
    [compareWithReference] treats as "no box detected". *)
Lemma analyzeROI_absorbs_failure roiData e w w1 :
  analyzeROI_try roiData w = (Throw e, w1) ->
  exists w2,
    analyzeROI roiData w
    = (Normal {| EngineV2.contours := 0; EngineV2.features := None |}, w2)
    /\ EngineV2.this w2 = EngineV2.this w1.
Proof.
  intros E. unfold EngineV2.analyzeROI, EngineV2.try_catch. rewrite E.
  eexists. split; reflexivity.
Qed.

(** And so does a failure inside [detectBoxes]: no boxes. *)
Lemma detectBoxes_absorbs_failure frameData e w w1 :
  detectBoxes_try frameData w = (Throw e, w1) ->
  detectBoxes frameData w = (Normal [], w1).
Proof.
  intros E. unfold EngineV2.detectBoxes, EngineV2.try_catch. now rewrite E.
Qed.

Lemma extractROI_returns frameData rect w :
  exists roi w1,
    extractROI frameData rect w = (Normal roi, w1)
    /\ w1 = (extractROI_try frameData rect w).2.
Proof.
  unfold EngineV2.extractROI, EngineV2.try_catch.
  destruct (extractROI_try frameData rect w) as [[roi | e] w1];
    eexists _, _; split; reflexivity.
Qed.

Lemma analyzeROI_returns roiData w :
  exists analysis w2,
    analyzeROI roiData w = (Normal analysis, w2)
    /\ EngineV2.this w2 = EngineV2.this (analyzeROI_try roiData w).2.
Proof.
  unfold EngineV2.analyzeROI, EngineV2.try_catch.
  destruct (analyzeROI_try roiData w) as [[a | e] w1];
    eexists _, _; split; reflexivity.
Qed.

Lemma detectBoxes_returns frameData w :
  exists boxes w1, detectBoxes frameData w = (Normal boxes, w1).
Proof.
  unfold EngineV2.detectBoxes, EngineV2.try_catch.
  destruct (detectBoxes_try frameData w) as [[boxes | e] w1];
    eexists _, _; reflexivity.
Qed.

Lemma addToHistory_returns (r : EngineV2.DetectionResult)
    (w : EngineV2.World) :
  exists w', EngineV2.addToHistory r w = (Normal tt, w').
Proof.
  unfold EngineV2.addToHistory, EngineV2.bind, EngineV2.Date_now,
    EngineV2.set_this, EngineV2.get_this, EngineV2.ret.
  cbv beta iota.
  destruct (100 <? _)%nat; eexists; reflexivity.
Qed.

(** The comparison throws only when it reads the key point area of an
    engine that has none, for an analysis that reports a box. *)
Lemma compareWithReference_returns (analysis : EngineV2.Analysis)
    (w : EngineV2.World) :
  EngineV2.keyPointRect (EngineV2.this w) <> None
  \/ (forall f, EngineV2.features analysis = Some f ->
                EngineV2.hasBox f = false) ->
  exists r w', EngineV2.compareWithReference analysis w = (Normal r, w').
Proof.
  intros Hok.
  unfold EngineV2.compareWithReference, EngineV2.bind at 1,
    EngineV2.get_this at 1.
  assert (Hsim : exists r w',
            EngineV2.simulated_detection (EngineV2.this w) w = (Normal r, w')).
  { unfold EngineV2.simulated_detection, EngineV2.bind, EngineV2.Math_random,
      EngineV2.ret.
    destruct (_ <? _)%float; eexists _, _; reflexivity. }
  destruct (EngineV2.referenceFeatures (EngineV2.this w)) as [ref | ];
    [ | eexists _, _; reflexivity].
  destruct (EngineV2.features analysis) as [f | ] eqn:Ef; [ | exact Hsim].
  destruct (EngineV2.hasBox f) eqn:Eb; cbn [negb]; [ | exact Hsim].
  destruct (EngineV2.keyPointRect (EngineV2.this w)) as [kp | ] eqn:Ek.
  - destruct (negb _ || negb _); eexists _, _; reflexivity.
  - destruct Hok as [Hok | Hok]; [congruence | ].
    rewrite (Hok f eq_refl) in Eb. discriminate.
Qed.

(** Without features the comparison answers "no reference data", "in
    position" or "box not found". *)
Lemma compareWithReference_featureless (analysis : EngineV2.Analysis)
    (w : EngineV2.World) :
  EngineV2.features analysis = None ->
  exists r w',
    EngineV2.compareWithReference analysis w = (Normal r, w')
    /\ (EngineV2.message r = EngineV2.msg_no_reference_data
        \/ EngineV2.message r = EngineV2.msg_in_position
        \/ EngineV2.message r = EngineV2.msg_box_not_found).
Proof.
  intros Ef.
  unfold EngineV2.compareWithReference, EngineV2.bind at 1,
    EngineV2.get_this at 1.
  destruct (EngineV2.referenceFeatures (EngineV2.this w)) as [ref | ].
  - rewrite Ef.
    unfold EngineV2.simulated_detection, EngineV2.bind, EngineV2.Math_random,
      EngineV2.ret.
    destruct (_ <? _)%float; eexists _, _; (split; [reflexivity | ]); cbn; auto.
  - eexists _, _. split; [reflexivity | ]. cbn. auto.
Qed.

(** What follows the analysis: the comparison is recorded and
    returned. *)
Lemma comparison_recorded (analysis : EngineV2.Analysis)
    (w w3 : EngineV2.World) (r : EngineV2.DetectionResult) :
  EngineV2.compareWithReference analysis w = (Normal r, w3) ->
  exists w',
    EngineV2.bind (EngineV2.compareWithReference analysis)
      (fun comparison =>
         EngineV2.bind (EngineV2.addToHistory comparison) (fun _ =>
         EngineV2.bind
           (EngineV2.set_this (EngineV2.set_lastDetection (Some comparison)))
           (fun _ => EngineV2.ret comparison))) w
    = (Normal r, w').
Proof.
  intros E. destruct (addToHistory_returns r w3) as [w4 E4].
  rewrite (bind_normal _ _ _ _ _ E), (bind_normal _ _ _ _ _ E4).
  eexists. reflexivity.
Qed.

(** In drawing mode the [try] block returns when the two stages leave
    the engine alone. *)
Lemma analyzeWithDrawingAreas_returns (fd : FrameData) (w : EngineV2.World) :
  EngineV2.keyPointRect (EngineV2.this w) <> None ->
  (forall fd rect, Stages.keeps_engine (extractROI_try fd rect)) ->
  (forall roi, Stages.keeps_engine (analyzeROI_try roi)) ->
  exists r w',
    EngineV2.analyzeWithDrawingAreas FrameData ROIData extractROI_try
      analyzeROI_try fd w
    = (Normal r, w').
Proof.
  intros Hkp H1 H2. unfold EngineV2.analyzeWithDrawingAreas.
  rewrite (bind_normal EngineV2.get_this _ w w (EngineV2.this w) eq_refl).
  destruct (extractROI_returns fd (EngineV2.keyPointRect (EngineV2.this w)) w)
    as (roi & w1 & E1 & Hw1).
  assert (T1 : EngineV2.this w1 = EngineV2.this w) by (rewrite Hw1; apply H1).
  rewrite (bind_normal _ _ _ _ _ E1).
  destruct roi as [roi | ]; [ | eexists _, _; reflexivity].
  destruct (analyzeROI_returns roi w1) as (analysis & w2 & E2 & Hw2).
  assert (T2 : EngineV2.this w2 = EngineV2.this w)
    by (rewrite Hw2, <- T1; apply H2).
  rewrite (bind_normal _ _ _ _ _ E2).
  destruct (compareWithReference_returns analysis w2) as (r & w3 & E3);
    [left; now rewrite T2 | ].
  destruct (comparison_recorded analysis w2 w3 r E3) as (w' & E).
  exists r, w'. exact E.
Qed.

(** In legacy mode the [try] block returns when [findBestMatch] does. *)
Lemma analyzeLegacyMode_returns (fd : FrameData) (w : EngineV2.World) :
  (forall boxes, boxes <> [] -> Stages.returns (findBestMatch boxes)) ->
  exists r w',
    EngineV2.analyzeLegacyMode FrameData Box detectBoxes_try findBestMatch
      fd w
    = (Normal r, w').
Proof.
  intros H4. unfold EngineV2.analyzeLegacyMode.
  destruct (detectBoxes_returns fd w) as (boxes & w1 & E1).
  rewrite (bind_normal _ _ _ _ _ E1).
  destruct boxes as [ | b boxes]; [eexists _, _; reflexivity | ].
  cbn [length Nat.eqb].
  destruct (H4 (b :: boxes) ltac:(discriminate) w1) as (best & w2 & E2).
  rewrite (bind_normal _ _ _ _ _ E2).
  destruct (compareWithReference_returns EngineV2.box_as_analysis w2)
    as (r & w3 & E3); [right; intros f [=] | ].
  destruct (comparison_recorded EngineV2.box_as_analysis w2 w3 r E3)
    as (w' & E).
  exists r, w'. exact E.
Qed.

(** On an initialised engine [analyzeFrame] runs its [try] block and
    answers a failure of it with the generic alert. *)
Lemma analyzeFrame_boundary (fd : FrameData)
    (settings : EngineV2.PartialSettings) (w : EngineV2.World) :
  EngineV2.isInitialized (EngineV2.this w) = true ->
  analyzeFrame (Some fd) settings w
  = match analyzeFrame_try fd settings w with
    | (Normal r, w') => (Normal r, w')
    | (Throw _, w') => (Normal EngineV2.analysis_error_result, w')
    end.
Proof.
  intros Hinit.
  unfold EngineV2.analyzeFrame, EngineV2.bind at 1, EngineV2.get_this at 1.
  rewrite Hinit. reflexivity.
Qed.

(** The [try] block merges the settings and dispatches on the key point
    area. *)
Lemma analyzeFrame_try_dispatch (fd : FrameData)
    (settings : EngineV2.PartialSettings) (w : EngineV2.World) :
  analyzeFrame_try fd settings w
  = match EngineV2.keyPointRect (EngineV2.this w) with
    | Some _ =>
        EngineV2.analyzeWithDrawingAreas FrameData ROIData
          extractROI_try analyzeROI_try fd
          (EngineV2.updateSettings settings w).2
    | None =>
        EngineV2.analyzeLegacyMode FrameData Box detectBoxes_try
          findBestMatch fd (EngineV2.updateSettings settings w).2
    end.
Proof.
  unfold EngineV2.analyzeFrame_try, EngineV2.bind at 1.
  unfold EngineV2.bind at 1, EngineV2.get_this at 1.
  change (EngineV2.updateSettings settings w)
    with (Normal tt, (EngineV2.updateSettings settings w).2).
  cbv beta iota.
  change (EngineV2.keyPointRect
            (EngineV2.this (EngineV2.updateSettings settings w).2))
    with (EngineV2.keyPointRect (EngineV2.this w)).
  destruct (EngineV2.keyPointRect (EngineV2.this w)); reflexivity.
Qed.

(** C7, as the code has it. [analyzeFrame] never throws: whatever the
    frame, the settings, the state and the behaviour of the image stages,
    it returns a detection result. A failure inside [extractROI],
    [analyzeROI] or [detectBoxes] ends in that stage's own handler, and
    [analyzeFrame] goes on with the fallback: "cannot extract" without
    alert, the comparison of an analysis without features, "no box
    found" without alert. The handler of [analyzeFrame] itself answers a
    failure of its [try] block with the generic alert, no box and
    confidence 0; and with stages that leave the engine object alone
    and a [findBestMatch] that returns, as those of the repository do,
    the [try] block always returns, so that this alert never appears. *)
Theorem analyzeFrame_never_throws :
  forall (frameData : option FrameData)
         (settings : EngineV2.PartialSettings) (w : EngineV2.World),
  (exists r w', analyzeFrame frameData settings w = (Normal r, w'))
  /\ ((forall fd rect e w0 w1,
          extractROI_try fd rect w0 = (Throw e, w1) ->
          extractROI fd rect w0 = (Normal None, w1))
      /\ (forall roi e w0 w1,
          analyzeROI_try roi w0 = (Throw e, w1) ->
          exists w2,
            analyzeROI roi w0
            = (Normal {| EngineV2.contours := 0; EngineV2.features := None |},
               w2)
            /\ EngineV2.this w2 = EngineV2.this w1)
      /\ (forall fd e w0 w1,
          detectBoxes_try fd w0 = (Throw e, w1) ->
          detectBoxes fd w0 = (Normal [], w1)))
  /\ (forall fd,
        frameData = Some fd ->
        EngineV2.isInitialized (EngineV2.this w) = true ->
        let w0 := (EngineV2.updateSettings settings w).2 in
        (forall kp e w1,
            EngineV2.keyPointRect (EngineV2.this w) = Some kp ->
            extractROI_try fd (Some kp) w0 = (Throw e, w1) ->
            analyzeFrame frameData settings w
            = (Normal {| EngineV2.hasAlert := false;
                         EngineV2.message := EngineV2.msg_cannot_extract;
                         EngineV2.box :=
                           EngineV2.keyPointRect (EngineV2.this w1);
                         EngineV2.confidence := 0;
                         EngineV2.details := None |}, w1))
        /\ (forall kp roi e w1 w2,
            EngineV2.keyPointRect (EngineV2.this w) = Some kp ->
            extractROI_try fd (Some kp) w0 = (Normal (Some roi), w1) ->
            analyzeROI_try roi w1 = (Throw e, w2) ->
            exists r w',
              analyzeFrame frameData settings w = (Normal r, w')
              /\ (EngineV2.message r = EngineV2.msg_no_reference_data
                  \/ EngineV2.message r = EngineV2.msg_in_position
                  \/ EngineV2.message r = EngineV2.msg_box_not_found))
        /\ (forall e w1,
            EngineV2.keyPointRect (EngineV2.this w) = None ->
            detectBoxes_try fd w0 = (Throw e, w1) ->
            analyzeFrame frameData settings w
            = (Normal {| EngineV2.hasAlert := false;
                         EngineV2.message := EngineV2.msg_no_box;
                         EngineV2.box := None;
                         EngineV2.confidence := 0;
                         EngineV2.details := None |}, w1))
        /\ (forall e w1,
            analyzeFrame_try fd settings w = (Throw e, w1) ->
            analyzeFrame frameData settings w
            = (Normal {| EngineV2.hasAlert := true;
                         EngineV2.message := EngineV2.msg_analysis_error;
                         EngineV2.box := None;
                         EngineV2.confidence := 0;
                         EngineV2.details := None |}, w1))
        /\ ((forall fd rect, Stages.keeps_engine (extractROI_try fd rect)) ->
            (forall roi, Stages.keeps_engine (analyzeROI_try roi)) ->
            (forall boxes, boxes <> [] ->
                           Stages.returns (findBestMatch boxes)) ->
            exists r w',
              analyzeFrame_try fd settings w = (Normal r, w')
              /\ analyzeFrame frameData settings w = (Normal r, w'))).
Proof.
  intros frameData settings w. split; [ | split].
  - destruct frameData as [fd | ]; [ | eexists _, _; reflexivity].
    destruct (EngineV2.isInitialized (EngineV2.this w)) eqn:Hinit.
    + rewrite (analyzeFrame_boundary fd settings w Hinit).
      destruct (analyzeFrame_try fd settings w) as [[r | e] w1];
        eexists _, _; reflexivity.
    + unfold EngineV2.analyzeFrame, EngineV2.bind, EngineV2.get_this.
      rewrite Hinit. eexists _, _. reflexivity.
  - split; [ | split].
    + intros fd rect e w0 w1. apply extractROI_absorbs_failure.
    + intros roi e w0 w1. apply analyzeROI_absorbs_failure.
    + intros fd e w0 w1. apply detectBoxes_absorbs_failure.
  - intros fd -> Hinit w0.
    rewrite (analyzeFrame_boundary fd settings w Hinit).
    rewrite (analyzeFrame_try_dispatch fd settings w). fold w0.
    split; [ | split; [ | split; [ | split]]].
    + intros kp e w1 Hkp E. rewrite Hkp.
      unfold EngineV2.analyzeWithDrawingAreas.
      rewrite (bind_normal EngineV2.get_this _ w0 w0 (EngineV2.this w0) eq_refl).
      change (EngineV2.keyPointRect (EngineV2.this w0))
        with (EngineV2.keyPointRect (EngineV2.this w)).
      rewrite Hkp.
      rewrite (bind_normal _ _ _ _ _ (extractROI_absorbs_failure _ _ _ _ _ E)).
      reflexivity.
    + intros kp roi e w1 w2 Hkp E1 E2. rewrite Hkp.
      unfold EngineV2.analyzeWithDrawingAreas.
      rewrite (bind_normal EngineV2.get_this _ w0 w0 (EngineV2.this w0) eq_refl).
      change (EngineV2.keyPointRect (EngineV2.this w0))
        with (EngineV2.keyPointRect (EngineV2.this w)).
      rewrite Hkp.
      assert (E1' : extractROI fd (Some kp) w0 = (Normal (Some roi), w1)).
      { unfold EngineV2.extractROI, EngineV2.try_catch. now rewrite E1. }
      rewrite (bind_normal _ _ _ _ _ E1').
      destruct (analyzeROI_absorbs_failure roi e w1 w2 E2) as (w3 & E3 & _).
      rewrite (bind_normal _ _ _ _ _ E3).
      destruct (compareWithReference_featureless
                  {| EngineV2.contours := 0; EngineV2.features := None |}
                  w3 eq_refl) as (r & w4 & E4 & Hm).
      destruct (comparison_recorded _ w3 w4 r E4) as (w' & E).
      rewrite E. exists r, w'. split; [reflexivity | exact Hm].
    + intros e w1 Hkp E. rewrite Hkp.
      unfold EngineV2.analyzeLegacyMode.
      rewrite (bind_normal _ _ _ _ _ (detectBoxes_absorbs_failure _ _ _ _ E)).
      reflexivity.
    + intros e w1 E. fold w0 in E. rewrite E. reflexivity.
    + intros H1 H2 H4.
      assert (R : exists r w',
                match EngineV2.keyPointRect (EngineV2.this w) with
                | Some _ =>
                    EngineV2.analyzeWithDrawingAreas FrameData ROIData
                      extractROI_try analyzeROI_try fd w0
                | None =>
                    EngineV2.analyzeLegacyMode FrameData Box detectBoxes_try
                      findBestMatch fd w0
                end = (Normal r, w')).
      { destruct (EngineV2.keyPointRect (EngineV2.this w)) as [kp | ] eqn:Hkp.
        - apply analyzeWithDrawingAreas_returns; try assumption.
          change (EngineV2.keyPointRect (EngineV2.this w0))
            with (EngineV2.keyPointRect (EngineV2.this w)).
          now rewrite Hkp.
        - now apply analyzeLegacyMode_returns. }
      destruct R as (r & w' & E). exists r, w'. rewrite E. split; reflexivity.
Qed.

End BoundaryFacts.

(** ** Further worked inputs *)

Section MoreWorkedInputs.
Import ExampleHost Examples MoreExamples.
Local Open Scope float_scope.

Lemma clamp_within_bounds_witness :
  (0 <=? Utils.clamp 5 0 10) = true
  /\ (Utils.clamp 5 0 10 <=? 10) = true
  /\ (Utils.clamp 5 0 10 =? 5) = true.
Proof.
  destruct (clamp_within_bounds 5 0 10 eq_refl eq_refl) as (A & B & C).
  split; [exact A|]. split; [exact B|]. exact (C eq_refl eq_refl).
Defined.

Lemma clamp_inverted_bounds_witness : Utils.clamp 5 10 0 = 0.
Proof. exact (proj1 (clamp_inverted_bounds 5 10 0) eq_refl eq_refl). Defined.


Lemma pointInRect_as_intersection_witness :
  Utils.pointInRect {| Utils.x := 10; Utils.y := 4 |}
    {| Utils.rect_x := 0; Utils.rect_y := 0;
       Utils.rect_width := 10; Utils.rect_height := 10 |}
  = Utils.rectsIntersect
      {| Utils.rect_x := 0; Utils.rect_y := 0;
         Utils.rect_width := 10; Utils.rect_height := 10 |}
      {| Utils.rect_x := 10; Utils.rect_y := 4;
         Utils.rect_width := 0; Utils.rect_height := 0 |}.
Proof.
  exact (pointInRect_as_intersection {| Utils.x := 10; Utils.y := 4 |}
           {| Utils.rect_x := 0; Utils.rect_y := 0;
              Utils.rect_width := 10; Utils.rect_height := 10 |}
           eq_refl eq_refl eq_refl eq_refl eq_refl eq_refl).
Defined.

Lemma getStatistics_alert_rate_witness :
  exists s,
    EngineV2.getStatistics (world_of engine_with_history 0.5)
    = (Normal s, world_of engine_with_history 0.5)
    /\ EngineV2.total s = 2 /\ EngineV2.alerts s = 1
    /\ (EngineV2.alertRate s <=? 100) = true.
Proof.
  destruct (getStatistics_alert_rate (world_of engine_with_history 0.5))
    as (s & E & Ht & Ha & _ & Hr & _).
  - discriminate.
  - apply Nat.lt_le_incl, Nat.ltb_lt. reflexivity.
  - exists s. split; [exact E|]. split; [exact Ht|]. split; [exact Ha|].
    exact Hr.
Defined.

Lemma getStatistics_after_appends_witness :
  exists s w',
    EngineV2.bind (addAllToHistory [numbered_result 1; numbered_result 2])
      (fun _ => EngineV2.getStatistics) (world_of EngineV2.new_engine 0.5)
    = (Normal s, w')
    /\ EngineV2.total s = 2 /\ EngineV2.alerts s = 0.
Proof.
  destruct (getStatistics_after_appends (world_of EngineV2.new_engine 0.5)
              [numbered_result 1; numbered_result 2])
    as (s & w' & E & Ht & Ha).
  - apply Nat.le_0_l.
  - discriminate.
  - exists s, w'. split; [exact E|]. split; [exact Ht|exact Ha].
Defined.

Lemma analyzeFrame_before_setup_witness :
  EngineV2.analyzeFrame unit unit unit
    (fixed_extractROI_try None)
    (fixed_analyzeROI_try EngineV2.box_as_analysis)
    (fun _ => EngineV2.ret []) (fun _ => EngineV2.throw TypeError)
    (Some tt) no_new_settings (world_of EngineV2.new_engine 0.5)
  = (Normal {| EngineV2.hasAlert := false;
               EngineV2.message := EngineV2.msg_no_reference_image;
               EngineV2.box := None; EngineV2.confidence := 0;
               EngineV2.details := None |},
     world_of EngineV2.new_engine 0.5).
Proof.
  exact (analyzeFrame_before_setup unit unit unit
           (fixed_extractROI_try None)
           (fixed_analyzeROI_try EngineV2.box_as_analysis)
           (fun _ => EngineV2.ret []) (fun _ => EngineV2.throw TypeError)
           (Some tt) no_new_settings (world_of EngineV2.new_engine 0.5)
           (or_intror eq_refl)).
Defined.

Lemma analyzeFrame_records_comparison_witness :
  exists r w',
    EngineV2.analyzeFrame unit unit unit
      (fixed_extractROI_try (Some tt))
      (fixed_analyzeROI_try (observed 100 100 0 true))
      (fun _ => EngineV2.ret []) (fun _ => EngineV2.throw TypeError)
      (Some tt) no_new_settings world
    = (Normal r, w')
    /\ EngineV2.hasAlert r = false
    /\ EngineV2.lastDetection (EngineV2.this w') = Some r
    /\ EngineV2.entry <$> EngineV2.detectionHistory (EngineV2.this w') = [r].
Proof.
  destruct (EngineV2.compareWithReference (observed 100 100 0 true) world)
    as [[r|e] w3] eqn:Ecmp; [|discriminate Ecmp].
  assert (Hw3 : w3 = world) by (now inversion Ecmp).
  assert (Hr : EngineV2.hasAlert r = false) by (now inversion Ecmp).
  destruct (analyzeFrame_records_comparison unit unit unit
              (fixed_extractROI_try (Some tt))
              (fixed_analyzeROI_try (observed 100 100 0 true))
              (fun _ => EngineV2.ret []) (fun _ => EngineV2.throw TypeError)
              tt no_new_settings world world world w3 key_area tt
              (observed 100 100 0 true) r eq_refl eq_refl eq_refl eq_refl
              Ecmp)
    as (w' & E & Hlast & Hhist & _).
  - rewrite Hw3. apply Nat.le_0_l.
  - exists r, w'. split; [exact E|]. split; [exact Hr|].
    split; [exact Hlast|]. rewrite Hhist, Hw3. reflexivity.
Defined.

Lemma compareWithReference_without_box_witness :
  exists result w',
    EngineV2.compareWithReference EngineV2.box_as_analysis world
    = (Normal result, w')
    /\ EngineV2.hasAlert result = false
    /\ EngineV2.confidence result = 100.
Proof.
  destruct (proj2 (compareWithReference_without_box EngineV2.box_as_analysis
                     world) ltac:(discriminate) ltac:(discriminate))
    as (result & w' & E & _ & _ & Halert & _ & Hclean).
  exists result, w'. split; [exact E|]. split; [exact Halert|].
  exact (proj1 (proj2 (Hclean eq_refl))).
Defined.

Lemma analyzeFrame_records_nothing_witness :
  EngineV2.analyzeFrame unit unit unit
    (fixed_extractROI_try None)
    (fixed_analyzeROI_try EngineV2.box_as_analysis)
    (fun _ => EngineV2.ret []) (fun _ => EngineV2.throw TypeError)
    (Some tt) no_new_settings world
  = (Normal {| EngineV2.hasAlert := false;
               EngineV2.message := EngineV2.msg_cannot_extract;
               EngineV2.box := Some key_area;
               EngineV2.confidence := 0; EngineV2.details := None |},
     world).
Proof.
  exact (proj1 (analyzeFrame_records_nothing unit unit unit
                  (fixed_extractROI_try None)
                  (fixed_analyzeROI_try EngineV2.box_as_analysis)
                  (fun _ => EngineV2.ret [])
                  (fun _ => EngineV2.throw TypeError)
                  tt no_new_settings world world eq_refl)
           eq_refl ltac:(discriminate)).
Defined.

Lemma convertToGrayscale_gray_witness :
  exists output,
    Filters.convertToGrayscale (Image.uniform_image 2 2 100) = Normal output
    /\ Image.at_index (Image.data output) 0 = Some 100%Z
    /\ Filters.convertToGrayscale output = Normal output.
Proof.
  destruct (convertToGrayscale_gray (Image.uniform_image 2 2 100)
              eq_refl eq_refl eq_refl)
    as (output & E & _ & _ & _ & Hpix & Hidem).
  exists output. split; [exact E|]. split; [|exact Hidem].
  destruct (Hpix 0%Z ltac:(split; [reflexivity|reflexivity]))
    as (_ & H0 & _).
  exact H0.
Defined.

Lemma detectEdges_three_levels_witness :
  exists output,
    Filters.detectEdges Filters.default_config (Image.uniform_image 3 3 100)
    = Normal output
    /\ Image.at_index (Image.data output) 0 = Some 0%Z
    /\ Image.at_index (Image.data output) ((1 * 3 + 1) * 4 + 3) = Some 255%Z.
Proof.
  destruct (detectEdges_three_levels Filters.default_config
              (Image.uniform_image 3 3 100) eq_refl eq_refl eq_refl)
    as (output & E & _ & _ & Hpix).
  exists output. split; [exact E|]. split.
  - destruct (Hpix 0%Z 0%Z ltac:(simpl; lia) ltac:(simpl; lia))
      as (_ & _ & Hborder).
    apply (Hborder ltac:(simpl; lia) 0%Z ltac:(lia)).
  - destruct (Hpix 1%Z 1%Z ltac:(simpl; lia) ltac:(simpl; lia))
      as (_ & Hinner & _).
    apply (Hinner ltac:(simpl; lia)).
Defined.

Lemma traceContour_connected_fresh_edges_witness :
  exists contour visited',
    Image.traceContour (Image.data (Image.uniform_image 3 1 255)) 3 1 0 0
      (replicate 3 false)
    = Some (contour, visited')
    /\ NoDup contour /\ head contour = Some (0%Z, 0%Z).
Proof.
  destruct (traceContour_connected_fresh_edges
              (Image.data (Image.uniform_image 3 1 255)) 3 1 0 0
              (replicate 3 false) eq_refl)
    as (c & v & E & _ & Hnd & _ & _ & _ & _ & Hstart).
  exists c, v. split; [exact E|]. split; [exact Hnd|].
  apply Hstart; [repeat split; try reflexivity; discriminate| |];
    reflexivity.
Defined.

Lemma contours_of_detected_edges_witness :
  exists edges contours,
    Filters.detectEdges Filters.default_config step_image = Normal edges
    /\ Image.findContours edges = Some contours
    /\ length contours = 1%nat /\ length (concat contours) = 56%nat
    /\ (2, 1)%Z ∈ concat contours
    /\ Filters.threshold Filters.default_config
         (Filters.gradient (Image.data step_image) 6 2 1) = 255%Z.
Proof.
  destruct (contours_of_detected_edges Filters.default_config step_image
              eq_refl eq_refl eq_refl)
    as (edges & contours & E & Ec & Hpts).
  assert (C : match Filters.detectEdges Filters.default_config step_image with
              | Normal e =>
                  match Image.findContours e with
                  | Some c =>
                      (length c =? 1)%nat && (length (concat c) =? 56)%nat
                      && existsb (fun p => (p.1 =? 2)%Z && (p.2 =? 1)%Z)
                           (concat c)
                  | None => false
                  end
              | Throw _ => false
              end = true) by (vm_compute; reflexivity).
  rewrite E, Ec in C.
  apply andb_prop in C as [C C3]. apply andb_prop in C as [C1 C2].
  apply Nat.eqb_eq in C1, C2.
  apply existsb_exists in C3 as ([px py] & Hin & Hp).
  apply andb_prop in Hp as [Hx Hy]. apply Z.eqb_eq in Hx, Hy.
  cbn [fst snd] in Hx, Hy. subst px py.
  apply list_elem_of_In in Hin.
  exists edges, contours. split; [exact E | ]. split; [exact Ec | ].
  split; [exact C1 | ]. split; [exact C2 | ]. split; [exact Hin | ].
  exact (proj2 (Hpts (2, 1)%Z Hin)).
Defined.

Lemma detectEdges_flat_image_witness :
  exists edges,
    Filters.detectEdges Filters.default_config (Image.uniform_image 3 3 100)
    = Normal edges
    /\ Image.findContours edges = Some [].
Proof.
  destruct (detectEdges_flat_image Filters.default_config
              (Image.uniform_image 3 3 100) 100 eq_refl eq_refl eq_refl)
    as (edges & E & _ & Ec).
  - split; discriminate.
  - intros p [Hp1 Hp2].
    destruct p as [|p|p]; [reflexivity| |now destruct Hp1].
    do 4 (destruct p as [p|p|]; try reflexivity; try discriminate Hp2).
  - reflexivity.
  - exists edges. split; [exact E|exact Ec].
Defined.

Lemma calculateBoundingBox_encloses_witness :
  Contours.bb_width (Contours.calculateBoundingBox square) = 2%Z
  /\ (0 <= Contours.bb_height (Contours.calculateBoundingBox square))%Z.
Proof.
  destruct (proj2 (calculateBoundingBox_encloses square) ltac:(discriminate))
    as (_ & _ & _ & _ & _ & _ & Hh).
  split; [reflexivity|exact Hh].
Defined.

Lemma row_of_pixels_within : Contours.within 24 row_of_pixels.
Proof.
  intros p Hp. apply list_elem_of_fmap in Hp as (v & -> & Hv).
  apply elem_of_seqZ in Hv. cbn [fst snd]. lia.
Qed.

Lemma row_of_pixels_row : forall p, p ∈ row_of_pixels -> p.2 = 0%Z.
Proof.
  intros p Hp. apply list_elem_of_fmap in Hp as (v & -> & _). reflexivity.
Qed.

Lemma calculateContourArea_facts_witness :
  Contours.calculateContourArea row_of_pixels = 0.
Proof.
  destruct (calculateContourArea_facts row_of_pixels 24) as (_ & _ & H).
  destruct (H row_of_pixels_within ltac:(vm_compute; reflexivity))
    as (_ & Hrow & _).
  exact (Hrow 0%Z row_of_pixels_row).
Defined.

(** Far from the origin the products pass 2^53 and the sum rounds: the
    triangle of area 4.5 measures 4 once it is moved by 94906267. *)
Example calculateContourArea_rounds :
  Contours.calculateContourArea [(0, 0); (3, 0); (0, 3)]%Z = 4.5
  /\ Contours.calculateContourArea
       ((fun p : Z * Z => (p.1 + 94906267, p.2 + 94906267)%Z)
          <$> [(0, 0); (3, 0); (0, 3)]%Z)
     = 4.
Proof. split; vm_compute; reflexivity. Qed.

Lemma analyzeContours_largest_witness :
  Contours.hasBox
    (Contours.analyzeContours (fun _ => 0) 1 [row_of_pixels]) = false
  /\ (is_nan (Contours.confidence
                (Contours.analyzeContours (fun _ => 0) 1
                   [row_of_pixels; square])) = true
      \/ (Contours.confidence
            (Contours.analyzeContours (fun _ => 0) 1
               [row_of_pixels; square])
          <=? 100) = true).
Proof.
  split.
  - destruct (proj2 (analyzeContours_largest (fun _ => 0) 1 [row_of_pixels])
                ltac:(discriminate)) as (_ & _ & Hthin).
    apply Hthin; [reflexivity|].
    intros c Hc%list_elem_of_singleton. subst c. exists 24%Z, 0%Z.
    split; [exact row_of_pixels_within|].
    split; [vm_compute; reflexivity|exact row_of_pixels_row].
  - destruct (proj2 (analyzeContours_largest (fun _ => 0) 1
                       [row_of_pixels; square]) ltac:(discriminate))
      as (_ & Hconf & _).
    exact Hconf.
Defined.

Lemma analyzeROI_blank_region_witness :
  exists analysis,
    RegionAnalysis.analyzeROI_try (fun _ => 0) Filters.default_config 1000
      (Image.uniform_image 3 3 100)
    = Normal analysis
    /\ RegionAnalysis.contours analysis = 0%nat
    /\ Contours.hasBox (RegionAnalysis.features analysis) = false.
Proof.
  destruct (analyzeROI_blank_region (fun _ => 0) Filters.default_config 1000
              (Image.uniform_image 3 3 100) 100 100 100
              eq_refl eq_refl eq_refl)
    as (analysis & E & Hc & Hf & _).
  - intros p [Hp1 Hp2].
    destruct p as [|p|p]; [repeat split| |now destruct Hp1].
    do 4 (destruct p as [p|p|]; try (repeat split); try discriminate Hp2).
  - reflexivity.
  - exists analysis. split; [exact E|]. split; [exact Hc|].
    now rewrite Hf.
Defined.

Lemma findBestMatch_nearest_witness :
  exists best,
    BestMatch.findBestMatch (Some reference_image)
      [legacy_box 10 10 0; legacy_box 110 90 0; legacy_box 190 190 0]
    = Some best
    /\ best ∈ [legacy_box 10 10 0; legacy_box 110 90 0; legacy_box 190 190 0].
Proof.
  destruct (proj2 (findBestMatch_nearest (Some reference_image)
                     [legacy_box 10 10 0; legacy_box 110 90 0;
                      legacy_box 190 190 0]) ltac:(discriminate))
    as (best & E & Hin & _).
  exists best. split; [exact E|exact Hin].
Defined.

Lemma extractROI_placement_witness :
  exists roi,
    ROI.extractROI (ROI.uniform_frame 4 3 7)
      {| ROI.x := -1; ROI.y := 0; ROI.width := 2; ROI.height := 2 |}
    = Some roi
    /\ ROI.x (ROI.originalRect roi) = 0
    /\ ROI.width (ROI.originalRect roi) = 2.
Proof.
  destruct (extractROI_placement (ROI.uniform_frame 4 3 7)
              (Image.uniform_image 4 3 7)
              {| ROI.x := -1; ROI.y := 0; ROI.width := 2; ROI.height := 2 |}
              (-1) 0 2 2
              eq_refl ltac:(split; reflexivity) ltac:(split; reflexivity)
              eq_refl eq_refl eq_refl eq_refl eq_refl eq_refl
              ltac:(split; [discriminate | reflexivity])
              ltac:(split; [discriminate | reflexivity]))
    as (roi & E & (_ & _ & Hleft & _) & _).
  exists roi. split; [exact E | ]. apply (Hleft eq_refl).
Defined.

(** A rectangle of half a pixel inside a 20 x 20 frame shares the point
    (10, 10) with the frame, and the extraction fails. *)
Lemma extractROI_fails_inside_frame :
  ROI.extractROI (ROI.uniform_frame 20 20 7)
    {| ROI.x := 10; ROI.y := 10; ROI.width := 0.5; ROI.height := 0.5 |}
  = None
  /\ ROI.in_rectangle
       {| ROI.x := 10; ROI.y := 10; ROI.width := 0.5; ROI.height := 0.5 |}
       10 10 = true
  /\ ROI.in_frame (ROI.uniform_frame 20 20 7) 10 10 = true.
Proof. split; [ | split]; vm_compute; reflexivity. Qed.

(** A rectangle that lies beyond the right and bottom edges of a 4 x 3
    frame gives the last pixel of the frame; so does one at
    [Infinity]. *)
Example extractROI_outside_frame :
  ROI.originalRect
    <$> ROI.extractROI (ROI.uniform_frame 4 3 7)
          {| ROI.x := 10; ROI.y := 10; ROI.width := 2; ROI.height := 5 |}
  = Some {| ROI.x := 3; ROI.y := 2; ROI.width := 1; ROI.height := 1 |}
  /\ ROI.originalRect
       <$> ROI.extractROI (ROI.uniform_frame 4 3 7)
             {| ROI.x := infinity; ROI.y := 10;
                ROI.width := 2; ROI.height := 5 |}
     = Some {| ROI.x := 3; ROI.y := 2; ROI.width := 1; ROI.height := 1 |}.
Proof. split; vm_compute; reflexivity. Qed.

(** Rounding decides: over an image of width 49, a rectangle of width 49
    scales to [49 * (1 / 49)], which binary64 rounds below 1, and the
    extraction from a frame of one pixel fails; so does every extraction
    at a position that is not a number. *)
Example extractROI_rounding :
  ROI.extractROI
    {| ROI.frame_imageData := Some (Image.uniform_image 49 1 7);
       ROI.frame_width := 1; ROI.frame_height := 1 |}
    {| ROI.x := 0; ROI.y := 0; ROI.width := 49; ROI.height := 1 |}
  = None
  /\ ROI.extractROI (ROI.uniform_frame 4 3 7)
       {| ROI.x := nan; ROI.y := 0; ROI.width := 2; ROI.height := 2 |}
     = None.
Proof. split; vm_compute; reflexivity. Qed.

(** A width that is negative is not clamped: the canvas takes its
    default width of 300 and the region is returned with the negative
    width in [originalRect]. *)
Example extractROI_negative_width :
  (fun roi => (ROI.roi_width roi, ROI.width (ROI.originalRect roi)))
    <$> ROI.extractROI (ROI.uniform_frame 4 3 7)
          {| ROI.x := 1; ROI.y := 1; ROI.width := -2; ROI.height := 2 |}
  = Some (300%Z, -2).
Proof. vm_compute. reflexivity. Qed.

Lemma extractROI_clamps_to_frame_witness :
  exists roi (X W : Z),
    ROI.extractROI (ROI.uniform_frame 4 3 7)
      {| ROI.x := 1; ROI.y := 1; ROI.width := 2; ROI.height := 5 |}
    = Some roi
    /\ ROI.x (ROI.originalRect roi) = Z2float X
    /\ ROI.width (ROI.originalRect roi) = Z2float W
    /\ ROI.roi_width roi = W
    /\ (0 <= X /\ 0 < W /\ X + W <= 4)%Z.
Proof.
  destruct (extractROI_clamps_to_frame (ROI.uniform_frame 4 3 7)
              (Image.uniform_image 4 3 7)
              {| ROI.x := 1; ROI.y := 1; ROI.width := 2; ROI.height := 5 |}
              eq_refl ltac:(split; reflexivity) ltac:(split; reflexivity)
              ltac:(split; reflexivity) ltac:(split; reflexivity)
              eq_refl eq_refl) as [Hsome Hnone].
  destruct (ROI.extractROI (ROI.uniform_frame 4 3 7)
              {| ROI.x := 1; ROI.y := 1; ROI.width := 2; ROI.height := 5 |})
    as [roi | ].
  - destruct (Hsome roi eq_refl)
      as (X & Y & W & H & E & HX & _ & HW0 & _ & HW & _ & Hrw & _).
    exists roi, X, W. rewrite E. cbn [ROI.x ROI.width].
    repeat split; assumption.
  - destruct (proj1 Hnone eq_refl) as [C | [C | [C | C]]];
      vm_compute in C; discriminate C.
Defined.

Lemma canvas_stage_keeps_engine (fd : ROI.FrameData)
    (rect : option EngineV2.Rectangle) :
  Stages.keeps_engine (canvas_extractROI_try fd rect).
Proof.
  intros w. unfold canvas_extractROI_try.
  destruct (ROI.frame_imageData fd) as [img | ]; [ | reflexivity].
  destruct rect as [r | ]; [ | reflexivity].
  destruct (ROI.extractROI_try _ _ _); reflexivity.
Qed.

Lemma region_stage_keeps_engine (principal_angle : list (Z * Z) -> float)
    (roi : ROI.ROIData) :
  Stages.keeps_engine (region_analyzeROI_try principal_angle roi).
Proof.
  intros w. unfold region_analyzeROI_try, EngineV2.bind at 1,
    EngineV2.get_this at 1.
  destruct (RegionAnalysis.analyzeROI_try _ _ _ _); reflexivity.
Qed.

Lemma findBestMatch_stage_returns (referenceImage : option Image.ImageData)
    (boxes : list EngineV1.Box) :
  boxes <> [] -> Stages.returns (findBestMatch_stage referenceImage boxes).
Proof.
  intros Hne w. unfold findBestMatch_stage, BestMatch.findBestMatch.
  destruct boxes as [ | b rest]; [congruence | ].
  destruct (length (b :: rest) =? 1)%nat; [eexists _, _; reflexivity | ].
  destruct referenceImage; eexists _, _; reflexivity.
Qed.

(** A key point area of half a pixel: the canvas rejects the empty
    region inside [extractROI], the stage's handler turns that into
    [null], and [analyzeFrame] answers without an alert. *)
Example analyzeFrame_empty_region_without_alert :
  canvas_extractROI_try (ROI.uniform_frame 8 6 7) (Some subpixel_area)
    (world_of subpixel_engine 0.5)
  = (Throw IndexSizeError, world_of subpixel_engine 0.5)
  /\ repository_analyzeFrame (Some (ROI.uniform_frame 8 6 7))
       no_new_settings (world_of subpixel_engine 0.5)
     = (Normal {| EngineV2.hasAlert := false;
                  EngineV2.message := EngineV2.msg_cannot_extract;
                  EngineV2.box := Some subpixel_area;
                  EngineV2.confidence := 0;
                  EngineV2.details := None |},
        world_of subpixel_engine 0.5).
Proof. split; reflexivity. Qed.

(** A frame without image data, in legacy mode: [convertToGrayscale]
    throws inside [detectBoxes], the handler of that stage returns no
    boxes, and [analyzeFrame] answers "no box found" without an alert. *)
Lemma analyzeFrame_inner_failure_without_alert :
  detectBoxes_try_with (fun _ => EngineV2.ret []) imageless_frame
    (world_of legacy_mode_engine 0.5)
  = (Throw TypeError, world_of legacy_mode_engine 0.5)
  /\ repository_analyzeFrame (Some imageless_frame) no_new_settings
       (world_of legacy_mode_engine 0.5)
     = (Normal {| EngineV2.hasAlert := false;
                  EngineV2.message := EngineV2.msg_no_box;
                  EngineV2.box := None;
                  EngineV2.confidence := 0;
                  EngineV2.details := None |},
        world_of legacy_mode_engine 0.5).
Proof. split; reflexivity. Qed.

Lemma analyzeFrame_never_throws_witness :
  repository_analyzeFrame (Some imageless_frame) no_new_settings
    (world_of legacy_mode_engine 0.5)
  = (Normal {| EngineV2.hasAlert := false;
               EngineV2.message := EngineV2.msg_no_box;
               EngineV2.box := None;
               EngineV2.confidence := 0;
               EngineV2.details := None |},
     world_of legacy_mode_engine 0.5)
  /\ exists r w',
       repository_analyzeFrame (Some (ROI.uniform_frame 8 6 7))
         no_new_settings world
       = (Normal r, w')
       /\ EngineV2.analyzeFrame_try ROI.FrameData ROI.ROIData EngineV1.Box
            canvas_extractROI_try (region_analyzeROI_try (fun _ => 0))
            (detectBoxes_try_with (fun _ => EngineV2.ret []))
            (findBestMatch_stage None)
            (ROI.uniform_frame 8 6 7) no_new_settings world
          = (Normal r, w').
Proof.
  split.
  - destruct (analyzeFrame_never_throws ROI.FrameData ROI.ROIData
                EngineV1.Box canvas_extractROI_try
                (region_analyzeROI_try (fun _ => 0))
                (detectBoxes_try_with (fun _ => EngineV2.ret []))
                (findBestMatch_stage None)
                (Some imageless_frame) no_new_settings
                (world_of legacy_mode_engine 0.5)) as (_ & _ & H).
    destruct (H imageless_frame eq_refl eq_refl) as (_ & _ & Hlegacy & _).
    exact (Hlegacy TypeError (world_of legacy_mode_engine 0.5)
             eq_refl eq_refl).
  - destruct (analyzeFrame_never_throws ROI.FrameData ROI.ROIData
                EngineV1.Box canvas_extractROI_try
                (region_analyzeROI_try (fun _ => 0))
                (detectBoxes_try_with (fun _ => EngineV2.ret []))
                (findBestMatch_stage None)
                (Some (ROI.uniform_frame 8 6 7)) no_new_settings world)
      as (_ & _ & H).
    destruct (H (ROI.uniform_frame 8 6 7) eq_refl eq_refl)
      as (_ & _ & _ & _ & Hreturns).
    destruct (Hreturns canvas_stage_keeps_engine
                (region_stage_keeps_engine (fun _ => 0))
                (findBestMatch_stage_returns None))
      as (r & w' & Etry & E).
    exists r, w'. split; [exact E | exact Etry].
Defined.

End MoreWorkedInputs.
